(** * go-metatile-cleaner: a model of [cmd/main.go]

    The program deletes, for one build identifier, every metatile of a tile
    pyramid from an S3 bucket.  A producer goroutine enumerates tiles zoom by
    zoom into a buffered channel; worker goroutines turn tiles into keys,
    collect them in batches of [maxDeleteKeys] and send [DeleteObjects]
    requests; two atomic counters keep the totals.

    Strings are Go strings (byte sequences): [string], one [ascii] per byte.
    Unsigned machine integers are [Z] or [N] with the wrap-around written
    out.  The S3 service is external: it is a transition function on an
    abstract service state. *)

From Stdlib Require Import ZArith NArith Lia Ascii String DecimalString DecimalN.
From stdpp Require Import base list.

Local Open Scope Z_scope.

(** ** Machine words *)

Module Word.

Definition wrap (bits : Z) (x : Z) : Z := x mod 2 ^ bits.

Definition w32 (x : Z) : Z := wrap 32 x.
Definition w64 (x : Z) : Z := wrap 64 x.

Definition add32 (x y : Z) : Z := w32 (x + y).
Definition not32 (x : Z) : Z := Z.lxor x 0xffffffff.

(** [bits.RotateLeft32] *)
Definition rotl32 (x s : Z) : Z :=
  Z.lor (w32 (Z.shiftl x s)) (Z.shiftr x (32 - s)).

(** the four bytes of a 32-bit word, least significant first *)
Definition le32 (x : Z) : list Z :=
  [Z.land x 0xff;
   Z.land (Z.shiftr x 8) 0xff;
   Z.land (Z.shiftr x 16) 0xff;
   Z.land (Z.shiftr x 24) 0xff].

(** the eight bytes of a 64-bit word, least significant first *)
Definition le64 (x : Z) : list Z :=
  le32 (Z.land x 0xffffffff) ++ le32 (Z.shiftr x 32).

(** a 32-bit word from four bytes, least significant first *)
Definition of_le32 (bs : list Z) : Z :=
  match bs with
  | [b0; b1; b2; b3] =>
      Z.lor b0 (Z.lor (Z.shiftl b1 8) (Z.lor (Z.shiftl b2 16) (Z.shiftl b3 24)))
  | _ => 0
  end.

End Word.

(** ** [crypto/md5]: the MD5 digest of RFC 1321 *)

Module MD5.
Import Word.

Definition shifts : list Z :=
  [7; 12; 17; 22; 7; 12; 17; 22; 7; 12; 17; 22; 7; 12; 17; 22;
   5; 9; 14; 20; 5; 9; 14; 20; 5; 9; 14; 20; 5; 9; 14; 20;
   4; 11; 16; 23; 4; 11; 16; 23; 4; 11; 16; 23; 4; 11; 16; 23;
   6; 10; 15; 21; 6; 10; 15; 21; 6; 10; 15; 21; 6; 10; 15; 21].

Definition sines : list Z :=
  [0xd76aa478; 0xe8c7b756; 0x242070db; 0xc1bdceee;
   0xf57c0faf; 0x4787c62a; 0xa8304613; 0xfd469501;
   0x698098d8; 0x8b44f7af; 0xffff5bb1; 0x895cd7be;
   0x6b901122; 0xfd987193; 0xa679438e; 0x49b40821;
   0xf61e2562; 0xc040b340; 0x265e5a51; 0xe9b6c7aa;
   0xd62f105d; 0x02441453; 0xd8a1e681; 0xe7d3fbc8;
   0x21e1cde6; 0xc33707d6; 0xf4d50d87; 0x455a14ed;
   0xa9e3e905; 0xfcefa3f8; 0x676f02d9; 0x8d2a4c8a;
   0xfffa3942; 0x8771f681; 0x6d9d6122; 0xfde5380c;
   0xa4beea44; 0x4bdecfa9; 0xf6bb4b60; 0xbebfbc70;
   0x289b7ec6; 0xeaa127fa; 0xd4ef3085; 0x04881d05;
   0xd9d4d039; 0xe6db99e5; 0x1fa27cf8; 0xc4ac5665;
   0xf4292244; 0x432aff97; 0xab9423a7; 0xfc93a039;
   0x655b59c3; 0x8f0ccc92; 0xffeff47d; 0x85845dd1;
   0x6fa87e4f; 0xfe2ce6e0; 0xa3014314; 0x4e0811a1;
   0xf7537e82; 0xbd3af235; 0x2ad7d2bb; 0xeb86d391].

Record digest := Digest { dA : Z; dB : Z; dC : Z; dD : Z }.

Definition init : digest :=
  Digest 0x67452301 0xefcdab89 0x98badcfe 0x10325476.

(** the message with its padding: a [1] bit, zeros up to 56 modulo 64,
    and the bit length as a 64-bit little-endian number *)
Definition pad (msg : list Z) : list Z :=
  let n := Z.of_nat (length msg) in
  let zeros := Z.to_nat ((55 - n) mod 64) in
  msg ++ [0x80] ++ replicate zeros 0 ++ le64 (w64 (8 * n)).

(** the 32-bit little-endian words of a byte sequence *)
Fixpoint words (fuel : nat) (bs : list Z) : list Z :=
  match fuel, bs with
  | S fuel', _ :: _ => of_le32 (take 4 bs) :: words fuel' (drop 4 bs)
  | _, _ => []
  end.

(** the 64-byte blocks of a byte sequence *)
Fixpoint blocks (fuel : nat) (bs : list Z) : list (list Z) :=
  match fuel, bs with
  | S fuel', _ :: _ => take 64 bs :: blocks fuel' (drop 64 bs)
  | _, _ => []
  end.

(** one of the 64 operations on block [m] *)
Definition step (m : list Z) (d : digest) (i : nat) : digest :=
  let '(Digest a b c d) := d in
  let iz := Z.of_nat i in
  let '(f, g) :=
    if iz <? 16 then (Z.lor (Z.land b c) (Z.land (not32 b) d), iz)
    else if iz <? 32 then (Z.lor (Z.land d b) (Z.land (not32 d) c), (5 * iz + 1) mod 16)
    else if iz <? 48 then (Z.lxor b (Z.lxor c d), (3 * iz + 5) mod 16)
    else (Z.lxor c (Z.lor b (not32 d)), (7 * iz) mod 16) in
  let f' := w32 (f + a + nth i sines 0 + nth (Z.to_nat g) m 0) in
  Digest d (add32 b (rotl32 f' (nth i shifts 0))) b c.

Definition block (d : digest) (bs : list Z) : digest :=
  let m := words 16 bs in
  let d' := fold_left (step m) (seq 0 64) d in
  Digest (add32 (dA d) (dA d')) (add32 (dB d) (dB d'))
         (add32 (dC d) (dC d')) (add32 (dD d) (dD d')).

(** [md5.Sum]: the 16 bytes of the digest *)
Definition Sum (msg : list Z) : list Z :=
  let p := pad msg in
  let d := fold_left block (blocks (length p) p) init in
  le32 (dA d) ++ le32 (dB d) ++ le32 (dC d) ++ le32 (dD d).

End MD5.

(** ** [encoding/hex] *)

Module Hex.

Definition hextable : string := "0123456789abcdef".

Definition digit (n : Z) : ascii :=
  match String.get (Z.to_nat n) hextable with
  | Some c => c
  | None => "0"%char
  end.

(** [hex.EncodeToString] *)
Fixpoint EncodeToString (src : list Z) : string :=
  match src with
  | [] => EmptyString
  | v :: src' =>
      String (digit (Z.shiftr v 4)) (String (digit (Z.land v 0x0f)) (EncodeToString src'))
  end.

Definition is_lower_hex (c : ascii) : bool :=
  let n := nat_of_ascii c in
  ((48 <=? n)%nat && (n <=? 57)%nat) || ((97 <=? n)%nat && (n <=? 102)%nat).

End Hex.

(** the bytes of a Go string *)
Definition bytes_of (s : string) : list Z :=
  map (fun c => Z.of_nat (nat_of_ascii c)) (list_ascii_of_string s).




(** ** Package [tile] *)

(** Modelled from the spec: the package [tile] of this repository is not
    part of the sources at hand; only its uses in [cmd/main.go] are.  A
    [Tile] is "{ zoom: unsigned int, x: unsigned int, y: unsigned int }";
    the fields are the ones [computeKey] reads, [t.Z], [t.X] and [t.Y]. *)
Record Tile := mkTile { Tile_Z : N; Tile_X : N; Tile_Y : N }.

(** Modelled from the spec: "{ west, south, east, north: float, degrees }";
    [main] writes whole numbers of degrees only, kept here as integers. *)
Record LngLatBbox := mkBbox { West : Z; South : Z; East : Z; North : Z }.

(** Modelled from the spec: "{ bounds: BoundingBox, zooms: ordered sequence
    of unsigned int, invertedY: bool }".  The field [ConsumerFunc] of the Go
    struct is the callback that receives the tiles; the enumeration is
    modelled as the sequence of tiles the callback is called with. *)
Record GenerateTilesOptions := mkOptions {
  Bounds : LngLatBbox;
  Zooms : list Z;
  InvertedY : bool
}.

(** ** [fmt.Sprintf] with the verb [%d] on an unsigned integer *)

Definition format_uint (n : N) : string :=
  NilZero.string_of_uint (N.to_uint n).

Definition is_digit (c : ascii) : bool :=
  let n := nat_of_ascii c in (48 <=? n)%nat && (n <=? 57)%nat.

Fixpoint all_chars (p : ascii -> bool) (s : string) : bool :=
  match s with
  | EmptyString => true
  | String c s' => p c && all_chars p s'
  end.

(** ** [computeKey] *)

Local Open Scope string_scope.

(** [fmt.Sprintf("%d/%d/%d.zip", t.Z, t.X, t.Y)] *)
Definition tile_path (t : Tile) : string :=
  format_uint (Tile_Z t) ++ "/" ++ format_uint (Tile_X t) ++ "/"
    ++ format_uint (Tile_Y t) ++ ".zip".

Definition computeKey (buildID : string) (t : Tile) : string :=
  let key := tile_path t in
  let hash := MD5.Sum (bytes_of key) in
  let hashPrefix := substring 0 5 (Hex.EncodeToString hash) in
  hashPrefix ++ "/" ++ buildID ++ "/" ++ key.

(** ** The S3 client, [github.com/aws/aws-sdk-go/service/s3] *)

Module s3.

Record ObjectIdentifier := mkObjectIdentifier { Key : string }.

Record Delete := mkDelete { Objects : list ObjectIdentifier }.

Record DeleteObjectsInput := mkInput { Bucket : string; Delete_ : Delete }.

(** a key the service could not delete *)
Record Error := mkError { ErrKey : string; Code : string; Message : string }.

Record DeleteObjectsOutput := mkOutput {
  Deleted : list string;
  Errors : list Error
}.

End s3.

(** a Go [error]: an [awserr.Error] with its code, or any other error *)
Inductive error :=
| AwsError (code message : string)
| OtherError (text : string).

(** [err.Error()] *)
Definition Error_text (e : error) : string :=
  match e with
  | AwsError code message => code ++ ": " ++ message
  | OtherError text => text
  end.

Definition maxDeleteKeys : Z := 500.

Definition resetDeleteObjectsInput (bucketName : string) : s3.DeleteObjectsInput :=
  s3.mkInput bucketName (s3.mkDelete []).

(** [input.Delete.Objects = append(input.Delete.Objects, o)] *)
Definition append_object (input : s3.DeleteObjectsInput) (o : s3.ObjectIdentifier)
  : s3.DeleteObjectsInput :=
  s3.mkInput (s3.Bucket input) (s3.mkDelete (s3.Objects (s3.Delete_ input) ++ [o])).

(** the keys of a request *)
Definition keys_of (input : s3.DeleteObjectsInput) : list string :=
  map s3.Key (s3.Objects (s3.Delete_ input)).

(** ** The process: what the goroutines share *)

(** what [log] writes *)
Inductive LogLine :=
| Fatalf (text : string)                (* log.Fatalf, before the process exits *)
| StartedSource                         (* "Started tiles generator source" *)
| StartingWorkers (n : Z)               (* "Starting %d delete workers" *)
| Progress (d e : Z)                    (* "Deleted %d objects (%d errors)" *)
| SampleError (e : s3.Error)            (* "Sample error: %+v" *)
| Done (d e : Z).                       (* "Done. Deleted %d metatiles with %d errors." *)

(** the two [uint64] counters of [main] *)
Inductive Counter := Deletes | Errors.

Section Process.

Context {S3 : Type}.

(** [svc.DeleteObjects]: the service answers a request with an output or
    with an error, and moves to a new state *)
Variable DeleteObjects :
  S3 -> s3.DeleteObjectsInput -> S3 * (s3.DeleteObjectsOutput + error).

Record Proc := mkProc {
  svc : S3;
  deletes : Z;
  errors : Z;
  logs : list LogLine;
  (** every call of [svc.DeleteObjects] so far, with its answer *)
  calls : list (s3.DeleteObjectsInput * (s3.DeleteObjectsOutput + error))
}.

(** a computation returns, or the process exits ([log.Fatalf] ends in
    [os.Exit(1)]), or it panics *)
Inductive Outcome (A : Type) :=
| Ret (a : A) (p : Proc)
| Exit (p : Proc)
| Panic (p : Proc).
Arguments Ret {A}. Arguments Exit {A}. Arguments Panic {A}.

Definition M (A : Type) : Type := Proc -> Outcome A.

Definition ret {A} (a : A) : M A := fun p => Ret a p.

Definition bind {A B} (m : M A) (k : A -> M B) : M B :=
  fun p =>
    match m p with
    | Ret a p' => k a p'
    | Exit p' => Exit p'
    | Panic p' => Panic p'
    end.

Notation "x <- m ;; k" := (bind m (fun x => k))
  (at level 100, m at next level, right associativity).
Notation "m ;;; k" := (bind m (fun _ => k))
  (at level 100, right associativity).

Definition logPrintf (l : LogLine) : M unit :=
  fun p => Ret tt (mkProc (svc p) (deletes p) (errors p) (logs p ++ [l]) (calls p)).

Definition logFatalf (text : string) : M unit :=
  fun p => Exit (mkProc (svc p) (deletes p) (errors p) (logs p ++ [Fatalf text]) (calls p)).

(** a nil pointer dereference or an index out of range *)
Definition panic {A} : M A := fun p => Panic p.

(** [atomic.AddUint64] *)
Definition AddUint64 (c : Counter) (delta : Z) : M unit :=
  fun p =>
    match c with
    | Deletes =>
        Ret tt (mkProc (svc p) (Word.w64 (deletes p + delta)) (errors p) (logs p) (calls p))
    | Errors =>
        Ret tt (mkProc (svc p) (deletes p) (Word.w64 (errors p + delta)) (logs p) (calls p))
    end.

(** [atomic.LoadUint64] *)
Definition LoadUint64 (c : Counter) : M Z :=
  fun p => Ret (match c with Deletes => deletes p | Errors => errors p end) p.

(** [svc.DeleteObjects(input)]: the result pointer and the error *)
Definition svc_DeleteObjects (input : s3.DeleteObjectsInput)
  : M (option s3.DeleteObjectsOutput * option error) :=
  fun p =>
    let '(svc', answer) := DeleteObjects (svc p) input in
    Ret (match answer with
         | inl result => (Some result, None)
         | inr err => (None, Some err)
         end)
        (mkProc svc' (deletes p) (errors p) (logs p) (calls p ++ [(input, answer)])).

Definition sendDeleteObjects (input : s3.DeleteObjectsInput)
  : M (option s3.DeleteObjectsOutput * option error) :=
  r <- svc_DeleteObjects input ;;
  let '(result, err) := r in
  match err with
  | Some e =>
      match e with
      | AwsError _ _ => logFatalf ("Couldn't delete objects: " ++ Error_text e)
      | OtherError _ => logFatalf ("Couldn't delete objects: " ++ Error_text e)
      end ;;;
      ret (None, Some e)
  | None => ret (result, None)
  end.

(** the body of the loop [for t := range tileChan] of a worker, for the
    tile [t] it received; [input] is the worker's variable before and
    after *)
Definition worker_receive (bucketName buildID : string)
    (input : option s3.DeleteObjectsInput) (t : Tile)
  : M (option s3.DeleteObjectsInput) :=
  let input :=
    match input with
    | None => resetDeleteObjectsInput bucketName
    | Some i => i
    end in
  let key := computeKey buildID t in
  let input := append_object input (s3.mkObjectIdentifier key) in
  if (Z.of_nat (length (s3.Objects (s3.Delete_ input))) =? maxDeleteKeys)%Z then
    r <- sendDeleteObjects input ;;
    let '(result, err) := r in
    match err with
    | Some e => logFatalf ("Couldn't delete objects: " ++ Error_text e)
    | None => ret tt
    end ;;;
    match result with
    | None => panic
    | Some result =>
        (if (10 <? Z.of_nat (length (s3.Errors result)))%Z then
           match s3.Errors result with
           | e :: _ => logPrintf (SampleError e)
           | [] => panic
           end
         else ret tt) ;;;
        AddUint64 Deletes (Z.of_nat (length (s3.Deleted result))) ;;;
        AddUint64 Errors (Z.of_nat (length (s3.Errors result))) ;;;
        ret None
    end
  else ret (Some input).

(** what a worker does once the channel is closed and empty *)
Definition worker_finish (input : option s3.DeleteObjectsInput) : M unit :=
  match input with
  | Some i =>
      if (0 <? Z.of_nat (length (s3.Objects (s3.Delete_ i))))%Z then
        r <- sendDeleteObjects i ;;
        let '(result, err) := r in
        match err with
        | Some e => logFatalf ("Couldn't delete objects: " ++ Error_text e)
        | None => ret tt
        end ;;;
        match result with
        | None => panic
        | Some result =>
            AddUint64 Deletes (Z.of_nat (length (s3.Deleted result))) ;;;
            AddUint64 Errors (Z.of_nat (length (s3.Errors result)))
        end
      else ret tt
  | None => ret tt
  end.

(** the loop of a worker over the tiles [ts] it receives, in order *)
Fixpoint worker_range (bucketName buildID : string)
    (input : option s3.DeleteObjectsInput) (ts : list Tile)
  : M (option s3.DeleteObjectsInput) :=
  match ts with
  | [] => ret input
  | t :: ts' =>
      input' <- worker_receive bucketName buildID input t ;;
      worker_range bucketName buildID input' ts'
  end.

(** a worker goroutine that receives the tiles [ts] and then sees the
    channel closed *)
Definition worker (bucketName buildID : string) (ts : list Tile) : M unit :=
  input <- worker_range bucketName buildID None ts ;;
  worker_finish input.

End Process.

Arguments Ret {S3 A}.
Arguments Exit {S3 A}.
Arguments Panic {S3 A}.

(** ** [main]: the flags, the goroutines and the channel between them

    The goroutines are interleaved one step at a time.  A step of the
    producer is a send on [tileChan], which needs room in the buffer, or
    the move of the loop to its next turn with the call of
    [tile.GenerateTiles]; a step of a worker is one turn of its loop, from
    the receive to the end of the body, or what it does after the loop;
    between two operations on the channel a worker touches its own
    variables, the service and the two counters only.  The other steps are
    the [close] by [main], a tick of the reporter, and the last statements
    of [main].  [log.Fatalf] in any goroutine ends the process. *)

Record Flags := mkFlags {
  buildID : string;       (* -build-id *)
  bucketName : string;    (* -bucket *)
  concurrency : Z;        (* -concurrency, an int *)
  maxZoom : Z             (* -max-zoom, a uint *)
}.

(** the capacity [main] gives to [tileChan] *)
Definition tileChanCap : Z := 10000.

(** the producer goroutine: inside the call of [tile.GenerateTiles] for zoom
    [z], with the tiles the callback has yet to be called with, or returned *)
Inductive Producer :=
| Producing (z : Z) (pending : list Tile)
| ProducerDone.

(** a worker goroutine: in its loop with its variable [input], or returned *)
Inductive Worker :=
| Receiving (input : option s3.DeleteObjectsInput)
| Returned.

(** the main goroutine: in [sourceWaitGroup.Wait()] or in
    [sinkWaitGroup.Wait()] *)
Inductive MainPc := WaitSource | WaitSink.

Inductive Status :=
| Running
| Exited (code : Z)
| Panicked.

(** one step of one goroutine *)
Inductive Event :=
| EvProducer            (* the producer sends a tile or moves to the next zoom *)
| EvWorker (j : nat)    (* worker [j] receives a tile, or sees the channel closed *)
| EvClose               (* main closes the channel *)
| EvTick                (* the reporter logs the counters *)
| EvFinish.             (* main stops the ticker, logs the totals and returns *)

Section Pipeline.

Context {S3 : Type}.
Variable DeleteObjects :
  S3 -> s3.DeleteObjectsInput -> S3 * (s3.DeleteObjectsOutput + error).

(** [tile.GenerateTiles]: the tiles the callback is called with, in order *)
Variable GenerateTiles : GenerateTilesOptions -> list Tile.

Record Sys := mkSys {
  proc : @Proc S3;
  status : Status;
  producer : Producer;
  (** the calls of [tile.GenerateTiles] so far *)
  generated : list GenerateTilesOptions;
  tileChan : list Tile;
  closed : bool;
  (** the tiles received from the channel so far, in order *)
  received : list Tile;
  workers : list Worker;
  mainpc : MainPc
}.

Definition with_proc (p : Proc) (s : Sys) : Sys :=
  mkSys p (status s) (producer s) (generated s) (tileChan s) (closed s)
        (received s) (workers s) (mainpc s).

Definition with_status (st : Status) (s : Sys) : Sys :=
  mkSys (proc s) st (producer s) (generated s) (tileChan s) (closed s)
        (received s) (workers s) (mainpc s).

Definition with_producer (pr : Producer) (os : list GenerateTilesOptions) (s : Sys) : Sys :=
  mkSys (proc s) (status s) pr (generated s ++ os) (tileChan s) (closed s)
        (received s) (workers s) (mainpc s).

Definition with_chan (c : list Tile) (s : Sys) : Sys :=
  mkSys (proc s) (status s) (producer s) (generated s) c (closed s)
        (received s) (workers s) (mainpc s).

Definition with_received (t : Tile) (s : Sys) : Sys :=
  mkSys (proc s) (status s) (producer s) (generated s) (tileChan s) (closed s)
        (received s ++ [t]) (workers s) (mainpc s).

Definition with_worker (j : nat) (w : Worker) (s : Sys) : Sys :=
  mkSys (proc s) (status s) (producer s) (generated s) (tileChan s) (closed s)
        (received s) (<[j := w]> (workers s)) (mainpc s).

Definition close_chan (s : Sys) : Sys :=
  mkSys (proc s) (status s) (producer s) (generated s) (tileChan s) true
        (received s) (workers s) WaitSink.

(** the head of the loop [for z := uint(0); z <= *maxZoom; z++]: the test,
    and the call of [tile.GenerateTiles] when it holds *)
Definition producer_loop (maxZoom z : Z) : Producer * list GenerateTilesOptions :=
  if (z <=? maxZoom)%Z then
    let o := mkOptions (mkBbox (-180) (-90) 180 90) [z] false in
    (Producing z (GenerateTiles o), [o])
  else (ProducerDone, []).

(** the state after worker [j] ran a piece of its code *)
Definition settle {A} (j : nat) (o : Outcome A) (k : A -> Worker) (s : Sys) : Sys :=
  match o with
  | Ret a p => with_worker j (k a) (with_proc p s)
  | Exit p => with_status (Exited 1) (with_proc p s)
  | Panic p => with_status Panicked (with_proc p s)
  end.

Definition all_returned (ws : list Worker) : bool :=
  forallb (fun w => match w with Returned => true | Receiving _ => false end) ws.

(** one step of the goroutine [ev] in a channel of capacity [capacity];
    [None] when that goroutine is blocked or gone *)
Definition step (capacity : Z) (fl : Flags) (ev : Event) (s : Sys) : option Sys :=
  match status s with
  | Running =>
      match ev with
      | EvProducer =>
          match producer s with
          | Producing z (t :: pending) =>
              if (Z.of_nat (length (tileChan s)) <? capacity)%Z then
                Some (with_chan (tileChan s ++ [t]) (with_producer (Producing z pending) [] s))
              else None
          | Producing z [] =>
              let '(pr, os) := producer_loop (maxZoom fl) (Word.w64 (z + 1)) in
              Some (with_producer pr os s)
          | ProducerDone => None
          end
      | EvWorker j =>
          match workers s !! j with
          | Some (Receiving input) =>
              match tileChan s with
              | t :: rest =>
                  let s' := with_received t (with_chan rest s) in
                  Some (settle j
                          (worker_receive DeleteObjects (bucketName fl) (buildID fl) input t (proc s))
                          Receiving s')
              | [] =>
                  if closed s then
                    Some (settle j (worker_finish DeleteObjects input (proc s))
                            (fun _ => Returned) s)
                  else None
              end
          | _ => None
          end
      | EvClose =>
          match mainpc s, producer s with
          | WaitSource, ProducerDone => Some (close_chan s)
          | _, _ => None
          end
      | EvTick =>
          Some (with_proc
                  (mkProc (svc (proc s)) (deletes (proc s)) (errors (proc s))
                     (logs (proc s) ++ [Progress (deletes (proc s)) (errors (proc s))])
                     (calls (proc s)))
                  s)
      | EvFinish =>
          match mainpc s with
          | WaitSink =>
              if all_returned (workers s) then
                Some (with_status (Exited 0)
                        (with_proc
                           (mkProc (svc (proc s)) (deletes (proc s)) (errors (proc s))
                              (logs (proc s) ++ [Done (deletes (proc s)) (errors (proc s))])
                              (calls (proc s)))
                           s))
              else None
          | WaitSource => None
          end
      end
  | _ => None
  end.

(** a schedule, one event after the other *)
Fixpoint run (capacity : Z) (fl : Flags) (sched : list Event) (s : Sys) : option Sys :=
  match sched with
  | [] => Some s
  | ev :: sched' =>
      match step capacity fl ev s with
      | Some s' => run capacity fl sched' s'
      | None => None
      end
  end.

(** the state once [main] has started the producer, the reporter and the
    workers, around a channel of some capacity *)
Definition boot (svc0 : S3) (fl : Flags) : Sys :=
  let '(pr, os) := producer_loop (maxZoom fl) 0 in
  mkSys (mkProc svc0 0 0 [StartedSource; StartingWorkers (concurrency fl)] [])
        Running pr os [] false []
        (replicate (Z.to_nat (concurrency fl)) (Receiving None)) WaitSource.

Definition reachable (capacity : Z) (fl : Flags) (svc0 : S3) (s : Sys) : Prop :=
  exists sched, run capacity fl sched (boot svc0 fl) = Some s.

(** how [main] starts, or why it does not *)
Inductive Startup :=
| StartFatal (l : LogLine)
| StartPanic
| Started (capacity : Z) (s : Sys).

(** [main] up to the start of the goroutines; [sess] is what
    [session.NewSessionWithOptions] returns *)
Definition main_start (fl : Flags) (sess : S3 + error) : Startup :=
  if (buildID fl =? "")%string then StartFatal (Fatalf "Specify build-id")
  else if (bucketName fl =? "")%string then StartFatal (Fatalf "Specify bucket")
  else
    match sess with
    | inr err => StartFatal (Fatalf ("Couldn't create AWS session: " ++ Error_text err))
    | inl svc0 =>
        if (concurrency fl <? 0)%Z then StartPanic
        else Started tileChanCap (boot svc0 fl)
    end.

End Pipeline.

Arguments Sys : clear implicits.

(** ** Vocabulary of the properties *)

(** the objects a worker holds in its variable [input] *)
Definition pending (input : option s3.DeleteObjectsInput) : list s3.ObjectIdentifier :=
  match input with
  | Some i => s3.Objects (s3.Delete_ i)
  | None => []
  end.

(** the request a worker is filling: its variable, or a fresh one *)
Definition current_input (bucketName : string) (input : option s3.DeleteObjectsInput)
  : s3.DeleteObjectsInput :=
  match input with
  | None => resetDeleteObjectsInput bucketName
  | Some i => i
  end.

Definition Zsum (l : list Z) : Z := fold_right Z.add 0%Z l.

Definition batch_size (input : s3.DeleteObjectsInput) : Z :=
  Z.of_nat (length (s3.Objects (s3.Delete_ input))).

(** [n / k] rounded up *)
Definition ceil_div (n k : Z) : Z := ((n + k - 1) / k)%Z.

Definition call := (s3.DeleteObjectsInput * (s3.DeleteObjectsOutput + error))%type.

(** what a completed call adds to the counter [deletes], to the counter
    [errors], and the number of keys it was sent with *)
Definition deleted_count (c : call) : Z :=
  match snd c with
  | inl result => Z.of_nat (length (s3.Deleted result))
  | inr _ => 0%Z
  end.

Definition error_count (c : call) : Z :=
  match snd c with
  | inl result => Z.of_nat (length (s3.Errors result))
  | inr _ => 0%Z
  end.

Definition key_count (c : call) : Z :=
  match snd c with
  | inl _ => batch_size (fst c)
  | inr _ => 0%Z
  end.

Definition succeeded (c : call) : bool :=
  match snd c with inl _ => true | inr _ => false end.

(** each counter is the total of what the calls so far reported, as a
    64-bit unsigned number *)
Definition counters_ok {S3} (p : @Proc S3) : Prop :=
  deletes p = Word.w64 (Zsum (map deleted_count (calls p)))
  /\ errors p = Word.w64 (Zsum (map error_count (calls p))).

(** the sample errors in a log *)
Definition sample_errors (l : list LogLine) : list s3.Error :=
  omap (fun line => match line with SampleError e => Some e | _ => None end) l.

(** the zoom levels [0 .. n - 1] *)
Definition zooms (n : nat) : list Z := map Z.of_nat (seq 0 n).

Definition world_options (z : Z) : GenerateTilesOptions :=
  mkOptions (mkBbox (-180) (-90) 180 90) [z] false.

(** the zoom levels [a .. b - 1] *)
Definition zrange (a b : Z) : list Z :=
  map (fun k => (a + Z.of_nat k)%Z) (seq 0 (Z.to_nat (b - a))).

(** the process after [svc.DeleteObjects] answered the request [i] with
    [result] and the worker added the counts; [sample] tells whether that
    place of the code logs a sample error *)
Definition answered {S3} (p : @Proc S3) (i : s3.DeleteObjectsInput) (svc' : S3)
    (result : s3.DeleteObjectsOutput) (sample : bool) : Proc :=
  mkProc svc'
    (Word.w64 (deletes p + Z.of_nat (length (s3.Deleted result))))
    (Word.w64 (errors p + Z.of_nat (length (s3.Errors result))))
    (logs p ++ (if sample && (10 <? Z.of_nat (length (s3.Errors result)))%Z
                then match s3.Errors result with e :: _ => [SampleError e] | [] => [] end
                else []))%list
    (calls p ++ [(i, inl result)])%list.

(** the process after [svc.DeleteObjects] answered the request [i] with the
    error [err] *)
Definition refused {S3} (p : @Proc S3) (i : s3.DeleteObjectsInput) (svc' : S3)
    (err : error) : Proc :=
  mkProc svc' (deletes p) (errors p)
    (logs p ++ [Fatalf ("Couldn't delete objects: " ++ Error_text err)])%list
    (calls p ++ [(i, inr err)])%list.

(** the objects a worker goroutine holds *)
Definition held (w : Worker) : list s3.ObjectIdentifier :=
  match w with
  | Receiving input => pending input
  | Returned => []
  end.

Definition held_count (w : Worker) : Z := Z.of_nat (length (held w)).

Definition receiving (w : Worker) : Z :=
  match w with
  | Receiving _ => 1%Z
  | Returned => 0%Z
  end.

Section Transitions.

Context {S3 : Type}.
Variable DeleteObjects :
  S3 -> s3.DeleteObjectsInput -> S3 * (s3.DeleteObjectsOutput + error).
Variable GenerateTiles : GenerateTilesOptions -> list Tile.
Variable capacity : Z.
Variable fl : Flags.

(** the tiles of the zoom levels [a .. b - 1], in order *)
Definition tiles_of_zooms (a b : Z) : list Tile :=
  flat_map (fun z => GenerateTiles (world_options z)) (zrange a b).

(** the tiles the producer has yet to send *)
Definition remaining (pr : Producer) : list Tile :=
  match pr with
  | Producing z pending => (pending ++ tiles_of_zooms (z + 1) (maxZoom fl + 1))%list
  | ProducerDone => []
  end.

(** the number of zoom levels the producer has called
    [tile.GenerateTiles] for *)
Definition zooms_begun (pr : Producer) : Z :=
  match pr with
  | Producing z _ => (z + 1)%Z
  | ProducerDone => (maxZoom fl + 1)%Z
  end.

(** the request worker [j] sends when the tile [t] fills its batch *)
Definition filled (input : option s3.DeleteObjectsInput) (t : Tile) : s3.DeleteObjectsInput :=
  append_object (current_input (bucketName fl) input)
    (s3.mkObjectIdentifier (computeKey (buildID fl) t)).

(** a bound on the steps the goroutines other than the reporter have yet
    to take: the steps of the producer, the tiles to receive, the closing
    of the channel, the returns of the workers and the return of [main] *)
Definition steps_left (s : Sys S3) : Z :=
  (match producer s with
   | Producing z _ =>
       Z.of_nat (length (remaining (producer s))) + (maxZoom fl - z) + 1
   | ProducerDone => 0
   end
   + (Z.of_nat (length (tileChan s)) + Z.of_nat (length (remaining (producer s))))
   + match mainpc s with WaitSource => 1 | WaitSink => 0 end
   + Zsum (map receiving (workers s))
   + match status s with Running => 1 | _ => 0 end)%Z.

(** the steps of [step] as a relation, one rule for each way through the
    code of a goroutine *)
Inductive transition : Event -> Sys S3 -> Sys S3 -> Prop :=
| T_send z t pending s :
    status s = Running ->
    producer s = Producing z (t :: pending) ->
    (Z.of_nat (length (tileChan s)) < capacity)%Z ->
    transition EvProducer s
      (with_chan (tileChan s ++ [t])%list (with_producer (Producing z pending) [] s))
| T_next_zoom z s :
    status s = Running ->
    producer s = Producing z [] ->
    (Word.w64 (z + 1) <= maxZoom fl)%Z ->
    transition EvProducer s
      (with_producer
         (Producing (Word.w64 (z + 1)) (GenerateTiles (world_options (Word.w64 (z + 1)))))
         [world_options (Word.w64 (z + 1))] s)
| T_source_done z s :
    status s = Running ->
    producer s = Producing z [] ->
    (maxZoom fl < Word.w64 (z + 1))%Z ->
    transition EvProducer s (with_producer ProducerDone [] s)
| T_keep j input t rest s :
    status s = Running ->
    workers s !! j = Some (Receiving input) ->
    tileChan s = t :: rest ->
    (Z.of_nat (length (pending input)) + 1)%Z <> maxDeleteKeys ->
    transition (EvWorker j) s
      (with_worker j (Receiving (Some (filled input t)))
         (with_proc (proc s) (with_received t (with_chan rest s))))
| T_flush j input t rest svc' result s :
    status s = Running ->
    workers s !! j = Some (Receiving input) ->
    tileChan s = t :: rest ->
    (Z.of_nat (length (pending input)) + 1)%Z = maxDeleteKeys ->
    DeleteObjects (svc (proc s)) (filled input t) = (svc', inl result) ->
    transition (EvWorker j) s
      (with_worker j (Receiving None)
         (with_proc (answered (proc s) (filled input t) svc' result true)
            (with_received t (with_chan rest s))))
| T_flush_fatal j input t rest svc' err s :
    status s = Running ->
    workers s !! j = Some (Receiving input) ->
    tileChan s = t :: rest ->
    (Z.of_nat (length (pending input)) + 1)%Z = maxDeleteKeys ->
    DeleteObjects (svc (proc s)) (filled input t) = (svc', inr err) ->
    transition (EvWorker j) s
      (with_status (Exited 1)
         (with_proc (refused (proc s) (filled input t) svc' err)
            (with_received t (with_chan rest s))))
| T_return j input s :
    status s = Running ->
    workers s !! j = Some (Receiving input) ->
    tileChan s = [] -> closed s = true ->
    pending input = [] ->
    transition (EvWorker j) s (with_worker j Returned (with_proc (proc s) s))
| T_last j i svc' result s :
    status s = Running ->
    workers s !! j = Some (Receiving (Some i)) ->
    tileChan s = [] -> closed s = true ->
    s3.Objects (s3.Delete_ i) <> [] ->
    DeleteObjects (svc (proc s)) i = (svc', inl result) ->
    transition (EvWorker j) s
      (with_worker j Returned (with_proc (answered (proc s) i svc' result false) s))
| T_last_fatal j i svc' err s :
    status s = Running ->
    workers s !! j = Some (Receiving (Some i)) ->
    tileChan s = [] -> closed s = true ->
    s3.Objects (s3.Delete_ i) <> [] ->
    DeleteObjects (svc (proc s)) i = (svc', inr err) ->
    transition (EvWorker j) s
      (with_status (Exited 1) (with_proc (refused (proc s) i svc' err) s))
| T_close s :
    status s = Running ->
    mainpc s = WaitSource -> producer s = ProducerDone ->
    transition EvClose s (close_chan s)
| T_tick s :
    status s = Running ->
    transition EvTick s
      (with_proc
         (mkProc (svc (proc s)) (deletes (proc s)) (errors (proc s))
            (logs (proc s) ++ [Progress (deletes (proc s)) (errors (proc s))])%list
            (calls (proc s)))
         s)
| T_finish s :
    status s = Running ->
    mainpc s = WaitSink -> all_returned (workers s) = true ->
    transition EvFinish s
      (with_status (Exited 0)
         (with_proc
            (mkProc (svc (proc s)) (deletes (proc s)) (errors (proc s))
               (logs (proc s) ++ [Done (deletes (proc s)) (errors (proc s))])%list
               (calls (proc s)))
            s)).

End Transitions.

(** ** Services, tiles and schedules for the examples *)

Module Demo.

(** a service that deletes every key it is sent *)
Definition deletes_all (st : unit) (i : s3.DeleteObjectsInput)
  : unit * (s3.DeleteObjectsOutput + error) :=
  (tt, inl (s3.mkOutput (keys_of i) [])).

(** a service that answers every request, with an error for each key *)
Definition refuses_keys (st : unit) (i : s3.DeleteObjectsInput)
  : unit * (s3.DeleteObjectsOutput + error) :=
  (tt, inl (s3.mkOutput []
              (map (fun k => s3.mkError k "AccessDenied" "Access Denied") (keys_of i)))).

(** a service that answers its first [n] requests and denies the next *)
Definition denies_after (n : nat) (i : s3.DeleteObjectsInput)
  : nat * (s3.DeleteObjectsOutput + error) :=
  match n with
  | O => (O, inr (AwsError "AccessDenied" "Access Denied"))
  | S n' => (n', inl (s3.mkOutput (keys_of i) []))
  end.

(** Modelled from the spec: [tile.GenerateTiles] is not part of the sources
    at hand; "a bounding box spanning the full world must yield exactly
    2^z x 2^z tiles at zoom z", here column by column for each zoom of the
    request. *)
Definition world_tiles (o : GenerateTilesOptions) : list Tile :=
  flat_map
    (fun z =>
       let n := Z.to_nat (2 ^ z) in
       flat_map (fun x => map (fun y => mkTile (Z.to_N z) (N.of_nat x) (N.of_nat y)) (seq 0 n))
                (seq 0 n))
    (Zooms o).

(** [n] tiles of one row at zoom 20 *)
Definition row (n : nat) : list Tile :=
  map (fun x => mkTile 20 (N.of_nat x) 7) (seq 0 n).

Definition proc0 {S3} (st : S3) : @Proc S3 := mkProc st 0 0 [] [].

(** -build-id abc123 -bucket tiles -concurrency 1 -max-zoom 1 *)
Definition flags : Flags := mkFlags "abc123" "tiles" 1 1.

(** a run of the five tiles of zooms 0 and 1 with one worker, through a
    channel of capacity 2 or more *)
Definition schedule : list Event :=
  [EvProducer; EvProducer; EvProducer; EvTick; EvWorker 0; EvProducer;
   EvWorker 0; EvProducer; EvWorker 0; EvProducer; EvProducer; EvClose;
   EvWorker 0; EvWorker 0; EvWorker 0; EvFinish].

(** the state the schedule ends in, with a given service *)
Definition final {S3} (DeleteObjects : S3 -> s3.DeleteObjectsInput ->
                                        S3 * (s3.DeleteObjectsOutput + error))
    (capacity : Z) (st : S3) (sched : list Event) : Sys S3 :=
  match run DeleteObjects world_tiles capacity flags sched (boot world_tiles st flags) with
  | Some s => s
  | None => boot world_tiles st flags
  end.


End Demo.

(** ** Vocabulary of the further properties *)

Definition not_slash (c : ascii) : bool := negb (Ascii.eqb c "/").

(** the keys of a request that was sent *)
Definition call_keys (c : call) : list string := keys_of (fst c).

(** the keys of all the requests sent, in order *)
Definition sent_keys (cs : list call) : list string := concat (map call_keys cs).

(** the keys a worker holds *)
Definition worker_keys (w : Worker) : list string := map s3.Key (held w).

Definition held_keys (ws : list Worker) : list string := concat (map worker_keys ws).

(** a worker in its loop holds a request only with the bucket of the flags
    and with at least one and fewer than [maxDeleteKeys] keys *)
Definition worker_ok (bucket : string) (w : Worker) : Prop :=
  match w with
  | Receiving (Some i) =>
      s3.Bucket i = bucket /\ (0 < batch_size i < maxDeleteKeys)%Z
  | _ => True
  end.

(** how often a key occurs in a list of keys *)
Definition occurrences (k : string) (l : list string) : nat :=
  count_occ string_dec l k.

(** the number of keys of a request that was sent *)
Definition call_size (c : call) : Z := batch_size (fst c).

(** 1 for a request with fewer than [maxDeleteKeys] keys, 0 for a full one *)
Definition partial (c : call) : Z :=
  if (call_size c <? maxDeleteKeys)%Z then 1%Z else 0%Z.

(** the sample error a call makes the worker log: the first error of an
    answered request of [maxDeleteKeys] keys with more than ten errors *)
Definition sample_of (c : call) : option s3.Error :=
  match snd c with
  | inl result =>
      if (call_size c =? maxDeleteKeys)%Z && (10 <? Z.of_nat (length (s3.Errors result)))%Z
      then head (s3.Errors result)
      else None
  | inr _ => None
  end.

(** the lines of the reporter, and its steps *)
Definition is_progress (l : LogLine) : bool :=
  match l with Progress _ _ => true | _ => false end.

Definition is_tick (ev : Event) : bool :=
  match ev with EvTick => true | _ => false end.

(** a log without the lines of the reporter *)
Definition without_progress (ls : list LogLine) : list LogLine :=
  List.filter (fun l => negb (is_progress l)) ls.

(** a schedule without the steps of the reporter *)
Definition without_ticks (sched : list Event) : list Event :=
  List.filter (fun ev => negb (is_tick ev)) sched.

Definition quiet_proc {S3} (p : @Proc S3) : @Proc S3 :=
  mkProc (svc p) (deletes p) (errors p) (without_progress (logs p)) (calls p).

Definition quiet_outcome {S3 A} (o : @Outcome S3 A) : @Outcome S3 A :=
  match o with
  | Ret a p => Ret a (quiet_proc p)
  | Exit p => Exit (quiet_proc p)
  | Panic p => Panic (quiet_proc p)
  end.

(** a state without the lines of the reporter in its log *)
Definition quiet {S3} (s : Sys S3) : Sys S3 := with_proc (quiet_proc (proc s)) s.

(** a piece of code that neither reads the log nor writes a line of the
    reporter *)
Definition oblivious {S3 A} (m : @M S3 A) : Prop :=
  forall p, m (quiet_proc p) = quiet_outcome (m p).

(** ** The goroutines at the grain of their shared operations

    In [step] a worker takes one turn of its loop as a single event.  The
    goroutines of [main] run at the same time: between the answer of
    [svc.DeleteObjects] and the two [atomic.AddUint64], or between the two
    loads of the reporter, any other goroutine may run.  Here every
    operation on something the goroutines share (the channel, the service,
    the log, a counter, the process itself) is an event of its own; what a
    goroutine computes on its own variables goes with the operation before
    it. *)

(** the flush inside the loop (lines 125-139) or the one after it (lines
    142-150) *)
Inductive Path := InLoop | AfterLoop.

(** a worker goroutine, by the shared operation it is to do next *)
Inductive Task :=
| AtRange (input : option s3.DeleteObjectsInput)
    (* the receive of [for t := range tileChan] *)
| AtDeleteObjects (input : s3.DeleteObjectsInput) (path : Path)
    (* [svc.DeleteObjects(input)] in [sendDeleteObjects] *)
| AtFatalf (err : error)
    (* the output of [log.Fatalf] in [sendDeleteObjects] *)
| AtExit
    (* [os.Exit(1)], which ends [log.Fatalf] *)
| AtSample (result : s3.DeleteObjectsOutput)
    (* [log.Printf("Sample error: %+v", result.Errors[0])] *)
| AtAddDeletes (result : s3.DeleteObjectsOutput) (path : Path)
    (* [atomic.AddUint64(&deletes, ...)] *)
| AtAddErrors (result : s3.DeleteObjectsOutput) (path : Path)
    (* [atomic.AddUint64(&errors, ...)] *)
| Gone.
    (* returned, [sinkWaitGroup.Done()] done *)

(** the reporter goroutine: waiting for the ticker, between its two loads,
    or before its [log.Printf] with the two values it loaded *)
Inductive Reporter :=
| AtTicker
| AtLoadErrors (d : Z)
| AtPrintf (d e : Z).

(** the main goroutine: in [sourceWaitGroup.Wait()], in
    [sinkWaitGroup.Wait()], or after its last [log.Printf] *)
Inductive MainTask := AtSourceWait | AtSinkWait | AtReturn.

(** one shared operation of one goroutine *)
Inductive Op :=
| OpProducer
| OpWorker (j : nat)
| OpReporter
| OpMain.

Section Grain.

Context {S3 : Type}.
Variable DeleteObjects :
  S3 -> s3.DeleteObjectsInput -> S3 * (s3.DeleteObjectsOutput + error).
Variable GenerateTiles : GenerateTilesOptions -> list Tile.

Record Grain := mkGrain {
  shared : @Proc S3;
  ended : Status;
  source : Producer;
  chan : list Tile;
  chan_closed : bool;
  (** the tiles received from the channel so far, in order *)
  taken : list Tile;
  tasks : list Task;
  reporter : Reporter;
  maintask : MainTask
}.

Definition with_shared (p : Proc) (s : Grain) : Grain :=
  mkGrain p (ended s) (source s) (chan s) (chan_closed s) (taken s) (tasks s)
          (reporter s) (maintask s).

Definition with_ended (st : Status) (s : Grain) : Grain :=
  mkGrain (shared s) st (source s) (chan s) (chan_closed s) (taken s) (tasks s)
          (reporter s) (maintask s).

Definition with_source (pr : Producer) (c : list Tile) (s : Grain) : Grain :=
  mkGrain (shared s) (ended s) pr c (chan_closed s) (taken s) (tasks s)
          (reporter s) (maintask s).

Definition with_taken (t : Tile) (rest : list Tile) (s : Grain) : Grain :=
  mkGrain (shared s) (ended s) (source s) rest (chan_closed s) (taken s ++ [t])
          (tasks s) (reporter s) (maintask s).

Definition with_task (j : nat) (w : Task) (s : Grain) : Grain :=
  mkGrain (shared s) (ended s) (source s) (chan s) (chan_closed s) (taken s)
          (<[j := w]> (tasks s)) (reporter s) (maintask s).

Definition with_reporter (r : Reporter) (s : Grain) : Grain :=
  mkGrain (shared s) (ended s) (source s) (chan s) (chan_closed s) (taken s)
          (tasks s) r (maintask s).

Definition with_maintask (m : MainTask) (closed : bool) (s : Grain) : Grain :=
  mkGrain (shared s) (ended s) (source s) (chan s) closed (taken s)
          (tasks s) (reporter s) m.

(** the state after a goroutine did an operation on the process: it goes
    on as [k] says, or the process has exited or panicked *)
Definition after {A} (o : Outcome A) (k : A -> Grain -> Grain) (s : Grain) : Grain :=
  match o with
  | Ret a p => k a (with_shared p s)
  | Exit p => with_ended (Exited 1) (with_shared p s)
  | Panic p => with_ended Panicked (with_shared p s)
  end.

(** what a worker does with the answer of [sendDeleteObjects]: the test of
    [len(result.Errors)] inside the loop, then the counters *)
Definition answer_task (result : s3.DeleteObjectsOutput) (path : Path) : Task :=
  match path with
  | InLoop =>
      if (10 <? Z.of_nat (length (s3.Errors result)))%Z then AtSample result
      else AtAddDeletes result InLoop
  | AfterLoop => AtAddDeletes result AfterLoop
  end.

(** where a worker goes on after its two additions: to the head of the
    loop with [input] nil, or to its return *)
Definition added_task (path : Path) : Task :=
  match path with
  | InLoop => AtRange None
  | AfterLoop => Gone
  end.

(** the next shared operation of worker [j], which is at [w] *)
Definition task_step (fl : Flags) (j : nat) (w : Task) (s : Grain) : option Grain :=
  match w with
  | AtRange input =>
      match chan s with
      | t :: rest =>
          let input :=
            match input with
            | None => resetDeleteObjectsInput (bucketName fl)
            | Some i => i
            end in
          let key := computeKey (buildID fl) t in
          let input := append_object input (s3.mkObjectIdentifier key) in
          Some (with_task j
                  (if (Z.of_nat (length (s3.Objects (s3.Delete_ input))) =? maxDeleteKeys)%Z
                   then AtDeleteObjects input InLoop
                   else AtRange (Some input))
                  (with_taken t rest s))
      | [] =>
          if chan_closed s then
            Some (with_task j
                    match input with
                    | Some i =>
                        if (0 <? Z.of_nat (length (s3.Objects (s3.Delete_ i))))%Z
                        then AtDeleteObjects i AfterLoop
                        else Gone
                    | None => Gone
                    end
                    s)
          else None
      end
  | AtDeleteObjects input path =>
      Some (after (svc_DeleteObjects DeleteObjects input (shared s))
              (fun r s' =>
                 match r with
                 | (_, Some err) => with_task j (AtFatalf err) s'
                 | (Some result, None) => with_task j (answer_task result path) s'
                 | (None, None) => with_ended Panicked s'
                 end)
              s)
  | AtFatalf err =>
      Some (after (logPrintf (Fatalf ("Couldn't delete objects: " ++ Error_text err))
                     (shared s))
              (fun _ s' => with_task j AtExit s') s)
  | AtExit => Some (with_ended (Exited 1) s)
  | AtSample result =>
      match s3.Errors result with
      | e :: _ =>
          Some (after (logPrintf (SampleError e) (shared s))
                  (fun _ s' => with_task j (AtAddDeletes result InLoop) s') s)
      | [] => Some (with_ended Panicked s)
      end
  | AtAddDeletes result path =>
      Some (after (AddUint64 Deletes (Z.of_nat (length (s3.Deleted result))) (shared s))
              (fun _ s' => with_task j (AtAddErrors result path) s') s)
  | AtAddErrors result path =>
      Some (after (AddUint64 Errors (Z.of_nat (length (s3.Errors result))) (shared s))
              (fun _ s' => with_task j (added_task path) s') s)
  | Gone => None
  end.

Definition all_gone (ws : list Task) : bool :=
  forallb (fun w => match w with Gone => true | _ => false end) ws.

(** one shared operation of the goroutine [op] around a channel of capacity
    [capacity]; [None] when that goroutine is blocked or gone.  The ticker
    is taken to fire at any time. *)
Definition op_step (capacity : Z) (fl : Flags) (op : Op) (s : Grain) : option Grain :=
  match ended s with
  | Running =>
      match op with
      | OpProducer =>
          match source s with
          | Producing z (t :: pending) =>
              if (Z.of_nat (length (chan s)) <? capacity)%Z then
                Some (with_source (Producing z pending) (chan s ++ [t]) s)
              else None
          | Producing z [] =>
              Some (with_source
                      (fst (producer_loop GenerateTiles (maxZoom fl) (Word.w64 (z + 1))))
                      (chan s) s)
          | ProducerDone => None
          end
      | OpWorker j =>
          match tasks s !! j with
          | Some w => task_step fl j w s
          | None => None
          end
      | OpReporter =>
          match reporter s with
          | AtTicker =>
              Some (after (LoadUint64 Deletes (shared s))
                      (fun d s' => with_reporter (AtLoadErrors d) s') s)
          | AtLoadErrors d =>
              Some (after (LoadUint64 Errors (shared s))
                      (fun e s' => with_reporter (AtPrintf d e) s') s)
          | AtPrintf d e =>
              Some (after (logPrintf (Progress d e) (shared s))
                      (fun _ s' => with_reporter AtTicker s') s)
          end
      | OpMain =>
          match maintask s with
          | AtSourceWait =>
              match source s with
              | ProducerDone => Some (with_maintask AtSinkWait true s)
              | Producing _ _ => None
              end
          | AtSinkWait =>
              if all_gone (tasks s) then
                Some (after
                        (bind (LoadUint64 Deletes)
                           (fun d => bind (LoadUint64 Errors)
                                       (fun e => logPrintf (Done d e)))
                           (shared s))
                        (fun _ s' => with_maintask AtReturn (chan_closed s') s') s)
              else None
          | AtReturn => Some (with_ended (Exited 0) s)
          end
      end
  | _ => None
  end.

(** the operations of a schedule, one after the other *)
Fixpoint op_run (capacity : Z) (fl : Flags) (ops : list Op) (s : Grain) : option Grain :=
  match ops with
  | [] => Some s
  | op :: ops' =>
      match op_step capacity fl op s with
      | Some s' => op_run capacity fl ops' s'
      | None => None
      end
  end.

(** the state once [main] has started the producer, the reporter and the
    workers *)
Definition start (svc0 : S3) (fl : Flags) : Grain :=
  mkGrain (mkProc svc0 0 0 [StartedSource; StartingWorkers (concurrency fl)] [])
          Running (fst (producer_loop GenerateTiles (maxZoom fl) 0)) [] false []
          (replicate (Z.to_nat (concurrency fl)) (AtRange None)) AtTicker AtSourceWait.

Definition comes_to (capacity : Z) (fl : Flags) (svc0 : S3) (s : Grain) : Prop :=
  exists ops, op_run capacity fl ops (start svc0 fl) = Some s.

(** the process after a line was written to the log, after a call of
    [svc.DeleteObjects] was answered, and after an addition to a counter *)
Definition logged (l : LogLine) (p : @Proc S3) : Proc :=
  mkProc (svc p) (deletes p) (errors p) (logs p ++ [l]) (calls p).

Definition called (svc' : S3) (input : s3.DeleteObjectsInput)
    (answer : s3.DeleteObjectsOutput + error) (p : @Proc S3) : Proc :=
  mkProc svc' (deletes p) (errors p) (logs p) (calls p ++ [(input, answer)]).

Definition added (c : Counter) (n : Z) (p : @Proc S3) : Proc :=
  match c with
  | Deletes => mkProc (svc p) (Word.w64 (deletes p + n)) (errors p) (logs p) (calls p)
  | Errors => mkProc (svc p) (deletes p) (Word.w64 (errors p + n)) (logs p) (calls p)
  end.

(** the operations of [op_step] as a relation, one rule for each way
    through the code *)
Inductive moves (capacity : Z) (fl : Flags) : Op -> Grain -> Grain -> Prop :=
| M_send s z t pending :
    ended s = Running ->
    source s = Producing z (t :: pending) ->
    (Z.of_nat (length (chan s)) < capacity)%Z ->
    moves capacity fl OpProducer s
      (with_source (Producing z pending) (chan s ++ [t]) s)
| M_next_zoom s z :
    ended s = Running ->
    source s = Producing z [] ->
    moves capacity fl OpProducer s
      (with_source (fst (producer_loop GenerateTiles (maxZoom fl) (Word.w64 (z + 1))))
         (chan s) s)
| M_keep s j input t rest :
    ended s = Running ->
    tasks s !! j = Some (AtRange input) ->
    chan s = t :: rest ->
    batch_size (filled fl input t) <> maxDeleteKeys ->
    moves capacity fl (OpWorker j) s
      (with_task j (AtRange (Some (filled fl input t))) (with_taken t rest s))
| M_full s j input t rest :
    ended s = Running ->
    tasks s !! j = Some (AtRange input) ->
    chan s = t :: rest ->
    batch_size (filled fl input t) = maxDeleteKeys ->
    moves capacity fl (OpWorker j) s
      (with_task j (AtDeleteObjects (filled fl input t) InLoop) (with_taken t rest s))
| M_last s j i :
    ended s = Running ->
    tasks s !! j = Some (AtRange (Some i)) ->
    chan s = [] ->
    chan_closed s = true ->
    (0 < batch_size i)%Z ->
    moves capacity fl (OpWorker j) s (with_task j (AtDeleteObjects i AfterLoop) s)
| M_leave s j input :
    ended s = Running ->
    tasks s !! j = Some (AtRange input) ->
    chan s = [] ->
    chan_closed s = true ->
    (forall i, input = Some i -> batch_size i = 0%Z) ->
    moves capacity fl (OpWorker j) s (with_task j Gone s)
| M_answer s j input path svc' result :
    ended s = Running ->
    tasks s !! j = Some (AtDeleteObjects input path) ->
    DeleteObjects (svc (shared s)) input = (svc', inl result) ->
    moves capacity fl (OpWorker j) s
      (with_task j (answer_task result path)
         (with_shared (called svc' input (inl result) (shared s)) s))
| M_refuse s j input path svc' err :
    ended s = Running ->
    tasks s !! j = Some (AtDeleteObjects input path) ->
    DeleteObjects (svc (shared s)) input = (svc', inr err) ->
    moves capacity fl (OpWorker j) s
      (with_task j (AtFatalf err)
         (with_shared (called svc' input (inr err) (shared s)) s))
| M_fatalf s j err :
    ended s = Running ->
    tasks s !! j = Some (AtFatalf err) ->
    moves capacity fl (OpWorker j) s
      (with_task j AtExit
         (with_shared
            (logged (Fatalf ("Couldn't delete objects: " ++ Error_text err)) (shared s))
            s))
| M_exit s j :
    ended s = Running ->
    tasks s !! j = Some AtExit ->
    moves capacity fl (OpWorker j) s (with_ended (Exited 1) s)
| M_sample s j result e es :
    ended s = Running ->
    tasks s !! j = Some (AtSample result) ->
    s3.Errors result = e :: es ->
    moves capacity fl (OpWorker j) s
      (with_task j (AtAddDeletes result InLoop)
         (with_shared (logged (SampleError e) (shared s)) s))
| M_no_sample s j result :
    ended s = Running ->
    tasks s !! j = Some (AtSample result) ->
    s3.Errors result = [] ->
    moves capacity fl (OpWorker j) s (with_ended Panicked s)
| M_add_deletes s j result path :
    ended s = Running ->
    tasks s !! j = Some (AtAddDeletes result path) ->
    moves capacity fl (OpWorker j) s
      (with_task j (AtAddErrors result path)
         (with_shared
            (added Deletes (Z.of_nat (length (s3.Deleted result))) (shared s)) s))
| M_add_errors s j result path :
    ended s = Running ->
    tasks s !! j = Some (AtAddErrors result path) ->
    moves capacity fl (OpWorker j) s
      (with_task j (added_task path)
         (with_shared
            (added Errors (Z.of_nat (length (s3.Errors result))) (shared s)) s))
| M_load_deletes s :
    ended s = Running ->
    reporter s = AtTicker ->
    moves capacity fl OpReporter s (with_reporter (AtLoadErrors (deletes (shared s))) s)
| M_load_errors s d :
    ended s = Running ->
    reporter s = AtLoadErrors d ->
    moves capacity fl OpReporter s (with_reporter (AtPrintf d (errors (shared s))) s)
| M_printf s d e :
    ended s = Running ->
    reporter s = AtPrintf d e ->
    moves capacity fl OpReporter s
      (with_reporter AtTicker (with_shared (logged (Progress d e) (shared s)) s))
| M_close s :
    ended s = Running ->
    maintask s = AtSourceWait ->
    source s = ProducerDone ->
    moves capacity fl OpMain s (with_maintask AtSinkWait true s)
| M_done s :
    ended s = Running ->
    maintask s = AtSinkWait ->
    all_gone (tasks s) = true ->
    moves capacity fl OpMain s
      (with_maintask AtReturn (chan_closed s)
         (with_shared
            (logged (Done (deletes (shared s)) (errors (shared s))) (shared s)) s))
| M_return s :
    ended s = Running ->
    maintask s = AtReturn ->
    moves capacity fl OpMain s (with_ended (Exited 0) s).

End Grain.

Arguments Grain : clear implicits.

(** what a worker has yet to add to the counter [deletes] and to the
    counter [errors] for the answer it holds *)
Definition owed_deletes (w : Task) : Z :=
  match w with
  | AtSample result | AtAddDeletes result _ => Z.of_nat (length (s3.Deleted result))
  | _ => 0%Z
  end.

Definition owed_errors (w : Task) : Z :=
  match w with
  | AtSample result | AtAddDeletes result _ | AtAddErrors result _ =>
      Z.of_nat (length (s3.Errors result))
  | _ => 0%Z
  end.

(** the sample error a worker is about to log *)
Definition owed_sample (w : Task) : list s3.Error :=
  match w with
  | AtSample result =>
      match s3.Errors result with
      | e :: _ => [e]
      | [] => []
      end
  | _ => []
  end.

(** 1 for a worker whose request was refused, and 1 for one that has
    written its diagnostic *)
Definition failing (w : Task) : Z :=
  match w with
  | AtFatalf _ | AtExit => 1%Z
  | _ => 0%Z
  end.

Definition exiting (w : Task) : Z :=
  match w with
  | AtExit => 1%Z
  | _ => 0%Z
  end.

Definition refusal (c : call) : Z := if succeeded c then 0%Z else 1%Z.

Definition fatal_line (l : LogLine) : Z :=
  match l with
  | Fatalf _ => 1%Z
  | _ => 0%Z
  end.

Definition done_line (l : LogLine) : Z :=
  match l with
  | Done _ _ => 1%Z
  | _ => 0%Z
  end.

(** what a worker may hold at each place of its code *)
Definition task_ok (w : Task) : Prop :=
  match w with
  | AtRange (Some i) => (0 < batch_size i < maxDeleteKeys)%Z
  | AtDeleteObjects i InLoop => batch_size i = maxDeleteKeys
  | AtDeleteObjects i AfterLoop => (0 < batch_size i < maxDeleteKeys)%Z
  | AtSample result => (10 < Z.of_nat (length (s3.Errors result)))%Z
  | _ => True
  end.

(** *** The two interleavings

    A state of [step] is a state of [op_step] in which every worker is at
    the head of its loop or gone and the reporter waits for the ticker. *)

Definition task_of (w : Worker) : Task :=
  match w with
  | Receiving input => AtRange input
  | Returned => Gone
  end.

Definition main_of (m : MainPc) : MainTask :=
  match m with
  | WaitSource => AtSourceWait
  | WaitSink => AtSinkWait
  end.

Definition grain_of {S3} (s : Sys S3) : Grain S3 :=
  mkGrain (proc s) (status s) (producer s) (tileChan s) (closed s) (received s)
          (map task_of (workers s)) AtTicker (main_of (mainpc s)).

(** [g] shows [s]: what the goroutines share is the same, and while the
    process runs every goroutine is at the same place *)
Definition shows {S3} (g : Grain S3) (s : Sys S3) : Prop :=
  shared g = proc s /\ ended g = status s /\ source g = producer s
  /\ chan g = tileChan s /\ chan_closed g = closed s /\ taken g = received s
  /\ (status s = Running -> g = grain_of s).

Module Interleaved.

(** the run of [Demo.schedule] operation by operation: the five tiles of
    zooms 0 and 1 through a channel of capacity 2 to one worker, which
    sends them in one request after its loop; the reporter loads the
    counter [deletes] before the worker adds to it, and the counter
    [errors] after *)
Definition ops : list Op :=
  [OpProducer; OpProducer; OpProducer; OpWorker 0; OpProducer; OpWorker 0;
   OpProducer; OpWorker 0; OpProducer; OpProducer; OpMain; OpWorker 0;
   OpWorker 0; OpWorker 0; OpWorker 0;
   OpReporter; OpWorker 0; OpReporter; OpWorker 0; OpReporter; OpMain; OpMain].

(** the state the first [n] operations lead to, with a given service *)
Definition at_op {S3} (DeleteObjects : S3 -> s3.DeleteObjectsInput ->
                                        S3 * (s3.DeleteObjectsOutput + error))
    (st : S3) (n : nat) : Grain S3 :=
  match op_run DeleteObjects Demo.world_tiles 2 Demo.flags (take n ops)
          (start Demo.world_tiles st Demo.flags) with
  | Some s => s
  | None => start Demo.world_tiles st Demo.flags
  end.

End Interleaved.

(** * Properties *)

(** ** Test vectors *)

Example md5_empty :
  Hex.EncodeToString (MD5.Sum (bytes_of "")) = "d41d8cd98f00b204e9800998ecf8427e"%string.
Proof. vm_compute. reflexivity. Qed.

Example md5_abc :
  Hex.EncodeToString (MD5.Sum (bytes_of "abc")) = "900150983cd24fb0d6963f7d28e17f72"%string.
Proof. vm_compute. reflexivity. Qed.

Example md5_two_blocks :
  Hex.EncodeToString
    (MD5.Sum (bytes_of "aaaaaaaaaaaaaaaaaaaaaaaaaaaaaaaaaaaaaaaaaaaaaaaaaaaaaaaaaaaaaaaaaaaaaa"))
  = "0f5c6c4e740bfcc08c3c26ccb2673d46"%string.
Proof. vm_compute. reflexivity. Qed.

Example computeKey_root :
  computeKey "abc123" (mkTile 0 0 0) = "df4c9/abc123/0/0/0.zip".
Proof. vm_compute. reflexivity. Qed.

Example computeKey_z13 :
  computeKey "20190101" (mkTile 13 4095 2730) = "ce042/20190101/13/4095/2730.zip".
Proof. vm_compute. reflexivity. Qed.

(** ** Strings *)

Section Strings.

Lemma append_length_inj (a1 a2 r1 r2 : string) :
  String.length a1 = String.length a2 ->
  a1 ++ r1 = a2 ++ r2 -> a1 = a2 /\ r1 = r2.
Proof.
  revert a2; induction a1 as [|c a1 IH]; intros [|c2 a2]; simpl; try discriminate.
  - auto.
  - intros Hlen Heq. injection Hlen as Hlen. injection Heq as -> Heq.
    destruct (IH _ Hlen Heq) as [-> ->]. auto.
Qed.

Lemma append_cancel_l (a r1 r2 : string) : a ++ r1 = a ++ r2 -> r1 = r2.
Proof. intros H. now destruct (append_length_inj a a r1 r2 eq_refl H). Qed.

Lemma substring_prefix (a r : string) :
  substring 0 (String.length a) (a ++ r) = a.
Proof.
  induction a as [|c a IH]; simpl.
  - now destruct r.
  - now rewrite IH.
Qed.

Lemma substring_length (n : nat) (s : string) :
  (n <= String.length s)%nat -> String.length (substring 0 n s) = n.
Proof.
  revert s; induction n as [|n IH]; intros [|c s]; simpl; intros H; try lia.
  rewrite IH; lia.
Qed.

Lemma substring_all_chars (p : ascii -> bool) (n : nat) (s : string) :
  all_chars p s = true -> all_chars p (substring 0 n s) = true.
Proof.
  revert s; induction n as [|n IH]; intros [|c s]; simpl; auto.
  intros [Hc Hs]%andb_prop. rewrite Hc. simpl. auto.
Qed.

(** a run of digits followed by a character that is not a digit ends where
    that character stands *)
Lemma digits_then_sep (c : ascii) (d1 d2 r1 r2 : string) :
  is_digit c = false ->
  all_chars is_digit d1 = true -> all_chars is_digit d2 = true ->
  d1 ++ String c r1 = d2 ++ String c r2 -> d1 = d2 /\ r1 = r2.
Proof.
  intros Hc. revert d2.
  induction d1 as [|x d1 IH]; intros [|y d2]; simpl; intros H1 H2 Heq.
  - injection Heq as ->. auto.
  - injection Heq as -> _. apply andb_prop in H2 as [H2 _]. congruence.
  - injection Heq as -> _. apply andb_prop in H1 as [H1 _]. congruence.
  - injection Heq as -> Heq.
    apply andb_prop in H1 as [_ H1]. apply andb_prop in H2 as [_ H2].
    destruct (IH _ H1 H2 Heq) as [-> ->]. auto.
Qed.

End Strings.

(** ** Decimal rendering *)

Section Decimal.

Lemma string_of_uint_digits (d : Decimal.uint) :
  all_chars is_digit (NilEmpty.string_of_uint d) = true.
Proof. induction d; simpl; auto. Qed.

Lemma format_uint_digits (n : N) : all_chars is_digit (format_uint n) = true.
Proof.
  unfold format_uint, NilZero.string_of_uint.
  destruct (N.to_uint n); try apply string_of_uint_digits. reflexivity.
Qed.

Lemma to_uint_nonnil (n : N) : N.to_uint n <> Decimal.Nil.
Proof.
  destruct n as [|p]; simpl; [discriminate|].
  intros H. generalize (DecimalPos.Unsigned.to_uint_nonnil p). congruence.
Qed.

(** the rendering read back as a decimal numeral is the number *)
Lemma format_uint_parse (n : N) :
  option_map N.of_uint (NilZero.uint_of_string (format_uint n)) = Some n.
Proof.
  unfold format_uint. rewrite NilZero.usu by apply to_uint_nonnil.
  simpl. now rewrite DecimalN.Unsigned.of_to.
Qed.

Lemma format_uint_inj (n m : N) : format_uint n = format_uint m -> n = m.
Proof.
  intros H. generalize (format_uint_parse n). rewrite H, format_uint_parse.
  congruence.
Qed.

End Decimal.

(** ** Digest and hexadecimal encoding *)

Section Digest.

Lemma Sum_length (msg : list Z) : length (MD5.Sum msg) = 16%nat.
Proof.
  unfold MD5.Sum.
  generalize (fold_left MD5.block (MD5.blocks (length (MD5.pad msg)) (MD5.pad msg)) MD5.init).
  intros d. reflexivity.
Qed.

Lemma hex_digit_lower (n : Z) : Hex.is_lower_hex (Hex.digit n) = true.
Proof.
  unfold Hex.digit. generalize (Z.to_nat n) as k. intros k.
  do 16 (destruct k as [|k]; [reflexivity|]). reflexivity.
Qed.

Lemma EncodeToString_length (src : list Z) :
  String.length (Hex.EncodeToString src) = (2 * length src)%nat.
Proof. induction src as [|v src IH]; simpl; [reflexivity|]. rewrite IH. lia. Qed.

Lemma EncodeToString_lower (src : list Z) :
  all_chars Hex.is_lower_hex (Hex.EncodeToString src) = true.
Proof.
  induction src as [|v src IH]; [reflexivity|].
  cbn [Hex.EncodeToString all_chars]. now rewrite !hex_digit_lower, IH.
Qed.

(** the five characters [computeKey] cuts from the encoded digest *)
Lemma hashPrefix_length (key : string) :
  String.length (substring 0 5 (Hex.EncodeToString (MD5.Sum (bytes_of key)))) = 5%nat.
Proof.
  apply substring_length. rewrite EncodeToString_length, Sum_length. lia.
Qed.

End Digest.

(** ** The storage key *)

Section Key.

Lemma tile_path_inj (t1 t2 : Tile) : tile_path t1 = tile_path t2 -> t1 = t2.
Proof.
  destruct t1 as [z1 x1 y1], t2 as [z2 x2 y2]. unfold tile_path. cbn.
  intros H.
  apply digits_then_sep in H as [Hz H]; auto using format_uint_digits.
  apply digits_then_sep in H as [Hx H]; auto using format_uint_digits.
  apply (digits_then_sep "."%char _ _ "zip" "zip") in H as [Hy _];
    auto using format_uint_digits.
  apply format_uint_inj in Hz, Hx, Hy. congruence.
Qed.

(** C1: the key is "{hash5}/{buildId}/{z}/{x}/{y}.zip": [hash5] is the
    first five characters, all lowercase hexadecimal, of the encoded MD5
    digest of the path "{z}/{x}/{y}.zip", and z, x and y are written as
    decimal numerals that read back as the three numbers. *)
Theorem computeKey_format (buildID : string) (t : Tile) :
  let path := format_uint (Tile_Z t) ++ "/" ++ format_uint (Tile_X t) ++ "/"
                ++ format_uint (Tile_Y t) ++ ".zip" in
  let hash5 := substring 0 5 (Hex.EncodeToString (MD5.Sum (bytes_of path))) in
  computeKey buildID t = hash5 ++ "/" ++ buildID ++ "/" ++ path
  /\ String.length hash5 = 5%nat
  /\ all_chars Hex.is_lower_hex hash5 = true
  /\ option_map N.of_uint (NilZero.uint_of_string (format_uint (Tile_Z t))) = Some (Tile_Z t)
  /\ option_map N.of_uint (NilZero.uint_of_string (format_uint (Tile_X t))) = Some (Tile_X t)
  /\ option_map N.of_uint (NilZero.uint_of_string (format_uint (Tile_Y t))) = Some (Tile_Y t).
Proof.
  intros path hash5.
  split; [reflexivity|].
  split; [apply hashPrefix_length|].
  split; [apply substring_all_chars, EncodeToString_lower|].
  repeat split; apply format_uint_parse.
Qed.

(** C5: the first five characters of the key of a tile are the same under
    any two build identifiers; they are the prefix of the digest of the
    path of the tile, in which the build identifier does not occur. *)
Theorem shard_prefix_ignores_build (t : Tile) (b1 b2 : string) :
  substring 0 5 (computeKey b1 t) = substring 0 5 (computeKey b2 t)
  /\ substring 0 5 (computeKey b1 t)
     = substring 0 5 (Hex.EncodeToString (MD5.Sum (bytes_of (tile_path t)))).
Proof.
  assert (Hp : forall b, substring 0 5 (computeKey b t)
    = substring 0 5 (Hex.EncodeToString (MD5.Sum (bytes_of (tile_path t))))).
  { intros b. unfold computeKey. cbv zeta.
    rewrite <- (hashPrefix_length (tile_path t)) at 1.
    apply substring_prefix. }
  split; [now rewrite !Hp | apply Hp].
Qed.

(** C6: the key is a function of the build identifier and the tile, and
    under one build identifier two tiles have the same key only when they
    are the same tile. *)
Theorem computeKey_injective (buildID : string) (t1 t2 : Tile) :
  computeKey buildID t1 = computeKey buildID t2 <-> t1 = t2.
Proof.
  split; [|now intros ->].
  unfold computeKey. cbv zeta. intros H.
  apply append_length_inj in H as [_ H]; [|now rewrite !hashPrefix_length].
  change ("/" ++ ?s) with (String "/" s) in H. injection H as H.
  apply append_cancel_l in H. injection H as H.
  now apply tile_path_inj.
Qed.

Lemma computeKey_injective_witness :
  computeKey "abc123" (mkTile 1 0 0) <> computeKey "abc123" (mkTile 1 0 1).
Proof.
  intros H. apply (computeKey_injective "abc123" (mkTile 1 0 0) (mkTile 1 0 1)) in H.
  discriminate H.
Defined.

End Key.

(** ** The worker *)

Section WorkerProps.

Local Open Scope list_scope.

Context {S3 : Type}.
Variable DeleteObjects :
  S3 -> s3.DeleteObjectsInput -> S3 * (s3.DeleteObjectsOutput + error).

Lemma Zsum_app (l k : list Z) : Zsum (l ++ k) = (Zsum l + Zsum k)%Z.
Proof. unfold Zsum. induction l as [|x l IH]; simpl; lia. Qed.

Lemma sendDeleteObjects_ok input (p : Proc) svc' result :
  DeleteObjects (svc p) input = (svc', inl result) ->
  sendDeleteObjects DeleteObjects input p
  = Ret (Some result, None)
        (mkProc svc' (deletes p) (errors p) (logs p) (calls p ++ [(input, inl result)])).
Proof.
  intros H. unfold sendDeleteObjects, bind, svc_DeleteObjects. now rewrite H.
Qed.

Lemma sendDeleteObjects_error input (p : Proc) svc' err :
  DeleteObjects (svc p) input = (svc', inr err) ->
  sendDeleteObjects DeleteObjects input p
  = Exit (refused p input svc' err).
Proof.
  intros H. unfold sendDeleteObjects, bind, svc_DeleteObjects. rewrite H.
  now destruct err.
Qed.

(** below [maxDeleteKeys] the key is kept and nothing else happens *)
Lemma worker_receive_keep bucket build input t (p : Proc) :
  Z.of_nat (length (pending input)) + 1 <> maxDeleteKeys ->
  worker_receive DeleteObjects bucket build input t p
  = Ret (Some (append_object (current_input bucket input)
                 (s3.mkObjectIdentifier (computeKey build t)))) p.
Proof.
  intros Hn. unfold worker_receive. cbv zeta.
  fold (current_input bucket input).
  destruct (Z.eqb_spec
    (Z.of_nat (length (s3.Objects (s3.Delete_
       (append_object (current_input bucket input)
          (s3.mkObjectIdentifier (computeKey build t)))))))
    maxDeleteKeys) as [E|E]; [|reflexivity].
  exfalso. apply Hn. rewrite <- E. simpl. rewrite length_app. simpl.
  destruct input; simpl; lia.
Qed.

Lemma worker_receive_flush bucket build input t (p : Proc) svc' result :
  let i := append_object (current_input bucket input)
             (s3.mkObjectIdentifier (computeKey build t)) in
  Z.of_nat (length (pending input)) + 1 = maxDeleteKeys ->
  DeleteObjects (svc p) i = (svc', inl result) ->
  worker_receive DeleteObjects bucket build input t p
  = Ret None (answered p i svc' result true).
Proof.
  intros i Hn Hcall. unfold worker_receive. cbv zeta.
  fold (current_input bucket input). fold i.
  destruct (Z.eqb_spec (Z.of_nat (length (s3.Objects (s3.Delete_ i)))) maxDeleteKeys)
    as [E|E].
  - unfold bind. rewrite (sendDeleteObjects_ok _ _ _ _ Hcall). cbn.
    destruct (Z.ltb_spec 10 (Z.of_nat (length (s3.Errors result)))) as [L|L].
    + unfold answered. cbn.
      destruct (Z.ltb_spec 10 (Z.of_nat (length (s3.Errors result)))); [|lia].
      destruct (s3.Errors result) as [|e es]; [simpl in L; lia|].
      reflexivity.
    + unfold answered. cbn.
      destruct (Z.ltb_spec 10 (Z.of_nat (length (s3.Errors result)))); [lia|].
      now rewrite app_nil_r.
  - exfalso. apply E. rewrite <- Hn. subst i. simpl. rewrite length_app. simpl.
    destruct input; simpl; lia.
Qed.

Lemma worker_receive_fatal bucket build input t (p : Proc) svc' err :
  let i := append_object (current_input bucket input)
             (s3.mkObjectIdentifier (computeKey build t)) in
  Z.of_nat (length (pending input)) + 1 = maxDeleteKeys ->
  DeleteObjects (svc p) i = (svc', inr err) ->
  worker_receive DeleteObjects bucket build input t p
  = Exit (refused p i svc' err).
Proof.
  intros i Hn Hcall. unfold worker_receive. cbv zeta.
  fold (current_input bucket input). fold i.
  destruct (Z.eqb_spec (Z.of_nat (length (s3.Objects (s3.Delete_ i)))) maxDeleteKeys)
    as [E|E].
  - unfold bind. now rewrite (sendDeleteObjects_error _ _ _ _ Hcall).
  - exfalso. apply E. rewrite <- Hn. subst i. simpl. rewrite length_app. simpl.
    destruct input; simpl; lia.
Qed.

Lemma worker_finish_idle input (p : Proc) :
  pending input = [] -> worker_finish DeleteObjects input p = Ret tt p.
Proof.
  destruct input as [i|]; simpl; [|reflexivity].
  intros ->. reflexivity.
Qed.

Lemma worker_finish_flush i (p : Proc) svc' result :
  s3.Objects (s3.Delete_ i) <> [] ->
  DeleteObjects (svc p) i = (svc', inl result) ->
  worker_finish DeleteObjects (Some i) p
  = Ret tt (answered p i svc' result false).
Proof.
  intros Hne Hcall. unfold worker_finish.
  destruct (Z.ltb_spec 0 (Z.of_nat (length (s3.Objects (s3.Delete_ i))))) as [L|L].
  - unfold bind. rewrite (sendDeleteObjects_ok _ _ _ _ Hcall). cbn.
    unfold answered. cbn. now rewrite app_nil_r.
  - destruct (s3.Objects (s3.Delete_ i)); [congruence | simpl in L; lia].
Qed.

Lemma worker_finish_fatal i (p : Proc) svc' err :
  s3.Objects (s3.Delete_ i) <> [] ->
  DeleteObjects (svc p) i = (svc', inr err) ->
  worker_finish DeleteObjects (Some i) p
  = Exit (refused p i svc' err).
Proof.
  intros Hne Hcall. unfold worker_finish.
  destruct (Z.ltb_spec 0 (Z.of_nat (length (s3.Objects (s3.Delete_ i))))) as [L|L].
  - unfold bind. now rewrite (sendDeleteObjects_error _ _ _ _ Hcall).
  - destruct (s3.Objects (s3.Delete_ i)); [congruence | simpl in L; lia].
Qed.

Lemma pending_append bucket input o :
  pending (Some (append_object (current_input bucket input) o)) = pending input ++ [o].
Proof. now destruct input. Qed.

Lemma keys_of_append bucket input o :
  keys_of (append_object (current_input bucket input) o)
  = map s3.Key (pending input) ++ [s3.Key o].
Proof. unfold keys_of. destruct input; cbn; now rewrite ?map_app. Qed.

Lemma batch_size_append bucket input o :
  batch_size (append_object (current_input bucket input) o)
  = (Z.of_nat (length (pending input)) + 1)%Z.
Proof.
  unfold batch_size. destruct input; cbn; rewrite ?length_app; cbn; lia.
Qed.

Lemma length_concat_keys (bs : list s3.DeleteObjectsInput) :
  Z.of_nat (length (concat (map keys_of bs))) = Zsum (map batch_size bs).
Proof.
  induction bs as [|b bs IH]; [reflexivity|].
  cbn [map concat]. rewrite length_app, Nat2Z.inj_add, IH.
  unfold keys_of, batch_size. rewrite length_map. reflexivity.
Qed.

Lemma Zsum_full (bs : list s3.DeleteObjectsInput) :
  Forall (fun b => batch_size b = maxDeleteKeys) bs ->
  Zsum (map batch_size bs) = (maxDeleteKeys * Z.of_nat (length bs))%Z.
Proof.
  induction 1 as [|b bs Hb _ IH]; [reflexivity|].
  cbn [map length]. change (Zsum (?x :: ?l)) with (x + Zsum l)%Z.
  rewrite IH, Hb. lia.
Qed.

(** the loop of a worker sends full batches only, in the order of the keys,
    and keeps fewer than [maxDeleteKeys] keys; the process exits from it
    only when the service answered with an error, and it does not panic *)
Lemma worker_range_outcome bucket build ts :
  forall input (p : Proc),
    (Z.of_nat (length (pending input)) < maxDeleteKeys)%Z ->
    (forall i, input = Some i -> s3.Bucket i = bucket) ->
    match worker_range DeleteObjects bucket build input ts p with
    | Ret input' p' =>
        exists new,
          calls p' = calls p ++ new
          /\ Forall (fun b => batch_size b = maxDeleteKeys /\ s3.Bucket b = bucket)
               (map fst new)
          /\ concat (map keys_of (map fst new)) ++ map s3.Key (pending input')
             = map s3.Key (pending input) ++ map (computeKey build) ts
          /\ (Z.of_nat (length (pending input')) < maxDeleteKeys)%Z
          /\ (forall i, input' = Some i -> s3.Bucket i = bucket)
    | Exit _ => exists st i st' err, DeleteObjects st i = (st', inr err)
    | Panic _ => False
    end.
Proof.
  induction ts as [|t ts IH]; intros input p Hlt Hb.
  - exists []. cbn. rewrite !app_nil_r. repeat split; auto.
  - cbn [worker_range]. unfold bind.
    set (o := s3.mkObjectIdentifier (computeKey build t)).
    set (i := append_object (current_input bucket input) o).
    assert (Hbi : s3.Bucket i = bucket).
    { subst i. destruct input as [i0|]; cbn; auto. }
    destruct (Z.eq_dec (Z.of_nat (length (pending input)) + 1) maxDeleteKeys) as [E|E].
    + destruct (DeleteObjects (svc p) i) as [svc' [result|err]] eqn:Hcall.
      * rewrite (worker_receive_flush bucket build input t p svc' result E Hcall).
        fold o. fold i.
        specialize (IH None (answered p i svc' result true)).
        destruct (worker_range DeleteObjects bucket build None ts
                    (answered p i svc' result true)) as [input' p'|p'|p'];
          [|apply IH; [cbn; unfold maxDeleteKeys; lia | discriminate]..].
        destruct IH as (new & Hcalls & Hfull & Hkeys & Hlt' & Hb');
          [cbn; unfold maxDeleteKeys; lia | discriminate |].
        exists ((i, inl result) :: new).
        split; [rewrite Hcalls; cbn; now rewrite <- app_assoc|].
        split.
        { cbn [map fst]. constructor; [|exact Hfull]. split; [|exact Hbi].
          subst i. now rewrite batch_size_append. }
        split; [|auto].
        cbn [map fst concat]. rewrite <- app_assoc, Hkeys.
        subst i. rewrite keys_of_append. cbn. now rewrite <- app_assoc.
      * rewrite (worker_receive_fatal bucket build input t p svc' err E Hcall). eauto.
    + rewrite (worker_receive_keep bucket build input t p E). fold o. fold i.
      specialize (IH (Some i) p).
      assert (Hlt1 : (Z.of_nat (length (pending (Some i))) < maxDeleteKeys)%Z).
      { subst i. rewrite pending_append, length_app, Nat2Z.inj_add. cbn. lia. }
      assert (Hb1 : forall i0, Some i = Some i0 -> s3.Bucket i0 = bucket).
      { intros i0 [= <-]. exact Hbi. }
      destruct (worker_range DeleteObjects bucket build (Some i) ts p)
        as [input' p'|p'|p']; [|now apply IH..].
      destruct (IH Hlt1 Hb1) as (new & Hcalls & Hfull & Hkeys & Hlt' & Hb').
      exists new. repeat split; auto.
      rewrite Hkeys. subst i. rewrite pending_append, map_app. cbn.
      now rewrite <- app_assoc.
Qed.

(** C2: a worker that receives [N] tiles and returns has sent
    [ceil (N / 500)] requests; their sizes add up to [N]; every request but
    the last has exactly 500 keys and the last has between 1 and 500; the
    keys are the keys of the tiles, in order.  The worker does not return
    only when the service answered a request with an error, which ends the
    process; with a service that answers every request it returns. *)
Theorem worker_batches bucket build (ts : list Tile) (p : Proc) :
  match worker DeleteObjects bucket build ts p with
  | Ret _ p' =>
      exists new,
        calls p' = calls p ++ new
        /\ Z.of_nat (length new) = ceil_div (Z.of_nat (length ts)) 500
        /\ Zsum (map batch_size (map fst new)) = Z.of_nat (length ts)
        /\ (forall k b, map fst new !! k = Some b -> (S k < length new)%nat ->
             batch_size b = 500%Z)
        /\ (forall b, last (map fst new) = Some b -> (0 < batch_size b <= 500)%Z)
        /\ concat (map keys_of (map fst new)) = map (computeKey build) ts
        /\ Forall (fun b => s3.Bucket b = bucket) (map fst new)
  | Exit _ => exists st i st' err, DeleteObjects st i = (st', inr err)
  | Panic _ => False
  end
  /\ ((forall st i, exists st' result, DeleteObjects st i = (st', inl result)) ->
      exists p', worker DeleteObjects bucket build ts p = Ret tt p').
Proof.
  assert (Hmain :
    match worker DeleteObjects bucket build ts p with
    | Ret _ p' =>
        exists new,
          calls p' = calls p ++ new
          /\ Z.of_nat (length new) = ceil_div (Z.of_nat (length ts)) 500
          /\ Zsum (map batch_size (map fst new)) = Z.of_nat (length ts)
          /\ (forall k b, map fst new !! k = Some b -> (S k < length new)%nat ->
               batch_size b = 500%Z)
          /\ (forall b, last (map fst new) = Some b -> (0 < batch_size b <= 500)%Z)
          /\ concat (map keys_of (map fst new)) = map (computeKey build) ts
          /\ Forall (fun b => s3.Bucket b = bucket) (map fst new)
    | Exit _ => exists st i st' err, DeleteObjects st i = (st', inr err)
    | Panic _ => False
    end).
  { unfold worker, bind.
    pose proof (worker_range_outcome bucket build ts None p) as Hrange.
    destruct (worker_range DeleteObjects bucket build None ts p)
      as [input' p1|p1|p1];
      [|apply Hrange; [cbn; unfold maxDeleteKeys; lia | discriminate]..].
    destruct Hrange as (new1 & Hcalls & Hfull & Hkeys & Hlt & Hb);
      [cbn; unfold maxDeleteKeys; lia | discriminate |].
    cbn [pending map app] in Hkeys.
    assert (Hsize : Forall (fun b => batch_size b = maxDeleteKeys) (map fst new1)).
    { eapply Forall_impl; [exact Hfull|]. now intros b [? _]. }
    assert (Hbucket : Forall (fun b => s3.Bucket b = bucket) (map fst new1)).
    { eapply Forall_impl; [exact Hfull|]. now intros b [_ ?]. }
    assert (Hlen : (maxDeleteKeys * Z.of_nat (length new1)
                    + Z.of_nat (length (pending input')) = Z.of_nat (length ts))%Z).
    { apply (f_equal (fun l => Z.of_nat (length l))) in Hkeys.
      rewrite length_app, Nat2Z.inj_add, length_concat_keys, !length_map in Hkeys.
      rewrite Zsum_full in Hkeys by exact Hsize. now rewrite length_map in Hkeys. }
    destruct (pending input') as [|o rest] eqn:Hpend.
    - rewrite worker_finish_idle by exact Hpend.
      cbn in Hkeys, Hlen. rewrite app_nil_r in Hkeys.
      exists new1. split; [exact Hcalls|].
      split.
      { unfold ceil_div. rewrite <- Hlen. unfold maxDeleteKeys.
        apply (Z.div_unique _ 500 _ 499); lia. }
      split.
      { rewrite <- length_concat_keys, Hkeys, length_map. reflexivity. }
      split.
      { intros k b Hk _. apply (proj1 (Forall_lookup _ _) Hsize k b Hk). }
      split.
      { intros b Hlast. rewrite last_lookup in Hlast.
        rewrite (proj1 (Forall_lookup _ _) Hsize _ b Hlast).
        unfold maxDeleteKeys. lia. }
      split; [exact Hkeys | exact Hbucket].
    - destruct input' as [i|]; [|discriminate Hpend]. cbn in Hpend.
      assert (Hne : s3.Objects (s3.Delete_ i) <> []) by (rewrite Hpend; discriminate).
      destruct (DeleteObjects (svc p1) i) as [svc' [result|err]] eqn:Hcall;
        [|rewrite (worker_finish_fatal i p1 svc' err Hne Hcall); eauto].
      rewrite (worker_finish_flush i p1 svc' result Hne Hcall).
      assert (Hbs : batch_size i = Z.of_nat (length (o :: rest))).
      { unfold batch_size. now rewrite Hpend. }
      exists (new1 ++ [(i, inl result)]).
      split; [cbn; now rewrite Hcalls, <- app_assoc|].
      rewrite !map_app. cbn [map fst].
      split.
      { rewrite length_app, Nat2Z.inj_add. cbn [length].
        unfold ceil_div. rewrite <- Hlen. unfold maxDeleteKeys in *.
        apply (Z.div_unique _ 500 _ (Z.of_nat (length (o :: rest)) - 1));
          cbn [length] in *; lia. }
      split.
      { rewrite Zsum_app, Zsum_full by exact Hsize. cbn. rewrite length_map, Hbs. lia. }
      split.
      { intros k b Hk Hlt'. rewrite length_app in Hlt'. cbn in Hlt'.
        rewrite lookup_app_l in Hk by (rewrite length_map; lia).
        apply (proj1 (Forall_lookup _ _) Hsize k b Hk). }
      split.
      { intros b Hlast. rewrite last_snoc in Hlast. injection Hlast as <-.
        rewrite Hbs. unfold maxDeleteKeys in Hlt. cbn [length] in *. lia. }
      split.
      { rewrite concat_app. cbn. rewrite app_nil_r. unfold keys_of at 2.
        rewrite Hpend. cbn in Hkeys. exact Hkeys. }
      apply Forall_app. split; [exact Hbucket|]. constructor; [|constructor].
      now apply Hb. }
  split; [exact Hmain|].
  intros Hstore.
  destruct (worker DeleteObjects bucket build ts p) as [[] p'|p'|p'].
  - now exists p'.
  - destruct Hmain as (st & i & st' & err & Herr).
    destruct (Hstore st i) as (? & ? & Hok). congruence.
  - contradiction.
Qed.

End WorkerProps.

(** ** The pipeline: steps and reachable states *)

Section PipelineProps.

Local Open Scope list_scope.

Context {S3 : Type}.
Variable DeleteObjects :
  S3 -> s3.DeleteObjectsInput -> S3 * (s3.DeleteObjectsOutput + error).
Variable GenerateTiles : GenerateTilesOptions -> list Tile.
Variable capacity : Z.
Variable fl : Flags.
Variable svc0 : S3.

Local Abbreviation sys_step := (step DeleteObjects GenerateTiles capacity fl).
Local Abbreviation sys_run := (run DeleteObjects GenerateTiles capacity fl).
Local Abbreviation sys_transition := (transition DeleteObjects GenerateTiles capacity fl).
Local Abbreviation sys_reachable := (reachable DeleteObjects GenerateTiles capacity fl svc0).
Local Abbreviation sys_boot := (boot GenerateTiles svc0 fl).

(** every step of the function is a step of the relation *)
Lemma step_transition ev s s' : sys_step ev s = Some s' -> sys_transition ev s s'.
Proof.
  unfold step. destruct (status s) eqn:Hst; [|discriminate..].
  destruct ev as [|j| | |].
  - destruct (producer s) as [z [|t pending]|] eqn:Hpr; [| |discriminate].
    + unfold producer_loop.
      destruct (Z.leb_spec (Word.w64 (z + 1)) (maxZoom fl)); intros [= <-].
      * now apply (T_next_zoom _ _ _ _ z).
      * now apply (T_source_done _ _ _ _ z).
    + destruct (Z.ltb_spec (Z.of_nat (length (tileChan s))) capacity); intros [= <-].
      now apply T_send.
  - destruct (workers s !! j) as [[input|]|] eqn:Hw; [|discriminate..].
    destruct (tileChan s) as [|t rest] eqn:Hch.
    + destruct (closed s) eqn:Hcl; [|discriminate].
      destruct (pending input) as [|o os] eqn:Hpend.
      * rewrite worker_finish_idle by exact Hpend. intros [= <-].
        now apply (T_return _ _ _ _ j input).
      * destruct input as [i|]; [|discriminate Hpend]. cbn in Hpend.
        assert (Hne : s3.Objects (s3.Delete_ i) <> []) by (rewrite Hpend; discriminate).
        destruct (DeleteObjects (svc (proc s)) i) as [svc' [result|err]] eqn:Hcall.
        -- rewrite (worker_finish_flush DeleteObjects i (proc s) svc' result Hne Hcall).
           intros [= <-]. now apply (T_last _ _ _ _ j i svc' result).
        -- rewrite (worker_finish_fatal DeleteObjects i (proc s) svc' err Hne Hcall).
           intros [= <-]. now apply (T_last_fatal _ _ _ _ j i svc' err).
    + destruct (Z.eq_dec (Z.of_nat (length (pending input)) + 1) maxDeleteKeys) as [E|E].
      * destruct (DeleteObjects (svc (proc s)) (filled fl input t))
          as [svc' [result|err]] eqn:Hcall.
        -- cbn [proc with_received with_chan].
           rewrite (worker_receive_flush DeleteObjects (bucketName fl) (buildID fl)
                      input t (proc s) svc' result E Hcall).
           intros [= <-]. now apply (T_flush _ _ _ _ j input t rest svc' result).
        -- cbn [proc with_received with_chan].
           rewrite (worker_receive_fatal DeleteObjects (bucketName fl) (buildID fl)
                      input t (proc s) svc' err E Hcall).
           intros [= <-]. now apply (T_flush_fatal _ _ _ _ j input t rest svc' err).
      * cbn [proc with_received with_chan].
        rewrite (worker_receive_keep DeleteObjects (bucketName fl) (buildID fl)
                   input t (proc s) E).
        intros [= <-]. now apply T_keep.
  - destruct (mainpc s) eqn:Hpc; [|discriminate].
    destruct (producer s) eqn:Hpr; [discriminate|]. intros [= <-].
    now apply T_close.
  - intros [= <-]. now apply T_tick.
  - destruct (mainpc s) eqn:Hpc; [discriminate|].
    destruct (all_returned (workers s)) eqn:Hall; [|discriminate]. intros [= <-].
    now apply T_finish.
Qed.

Lemma run_snoc sched ev s :
  sys_run (sched ++ [ev]) s
  = match sys_run sched s with Some s' => sys_step ev s' | None => None end.
Proof.
  revert s. induction sched as [|e sched IH]; intros s; cbn.
  - now destruct (sys_step ev s).
  - destruct (sys_step e s); [apply IH | reflexivity].
Qed.

(** induction over the sys_reachable states *)
Lemma reachable_ind (P : Sys S3 -> Prop) :
  P sys_boot ->
  (forall ev s s', sys_reachable s -> P s -> sys_transition ev s s' -> P s') ->
  forall s, sys_reachable s -> P s.
Proof.
  intros Hboot Hstep s [sched Hrun]. revert s Hrun.
  induction sched as [|ev sched IH] using rev_ind; intros s Hrun.
  - cbn in Hrun. now injection Hrun as <-.
  - rewrite run_snoc in Hrun.
    destruct (sys_run sched _) as [s1|] eqn:H1; [|discriminate].
    apply (Hstep ev s1 s); [now exists sched | now apply IH | now apply step_transition].
Qed.

Ltac reachable_induction :=
  let s := fresh "s" in
  let Hs := fresh "Hs" in
  intros s Hs; pattern s; revert s Hs; apply reachable_ind; cbv beta.

Lemma reachable_step ev s s' : sys_reachable s -> sys_step ev s = Some s' -> sys_reachable s'.
Proof.
  intros [sched Hrun] Hstep. exists (sched ++ [ev]). now rewrite run_snoc, Hrun.
Qed.

(** *** The counters *)

Lemma w64_add_l (a b : Z) : Word.w64 (Word.w64 a + b) = Word.w64 (a + b).
Proof. unfold Word.w64, Word.wrap. now rewrite Z.add_mod_idemp_l. Qed.

Lemma w64_idem (a : Z) : Word.w64 (Word.w64 a) = Word.w64 a.
Proof. unfold Word.w64, Word.wrap. now rewrite Z.mod_mod. Qed.

Lemma w64_small (a : Z) : (0 <= a < 2 ^ 64)%Z -> Word.w64 a = a.
Proof. intros H. unfold Word.w64, Word.wrap. now apply Z.mod_small. Qed.

Lemma answered_counters (p : @Proc S3) i svc' result b :
  counters_ok p -> counters_ok (answered p i svc' result b).
Proof.
  intros [Hd He]. unfold counters_ok, answered. cbn [deletes errors calls].
  rewrite !map_app, !Zsum_app, Hd, He, !w64_add_l. cbn. now rewrite !Z.add_0_r.
Qed.

Lemma refused_counters (p : @Proc S3) i svc' err :
  counters_ok p -> counters_ok (refused p i svc' err).
Proof.
  intros [Hd He]. unfold counters_ok, refused. cbn [deletes errors calls].
  rewrite !map_app, !Zsum_app. cbn. now rewrite !Z.add_0_r.
Qed.

Lemma reachable_counters s : sys_reachable s -> counters_ok (proc s).
Proof.
  revert s. reachable_induction.
  - unfold boot. destruct (producer_loop _ _ _). now split.
  - intros ev s s' _ IH Ht.
    destruct Ht; cbn [proc with_proc with_worker with_status with_chan
                      with_producer with_received close_chan];
      auto using answered_counters, refused_counters.
Qed.

Lemma Zsum_nonneg (l : list Z) : Forall (fun x => 0 <= x)%Z l -> (0 <= Zsum l)%Z.
Proof. induction 1; cbn; [lia|]. unfold Zsum in *. cbn. lia. Qed.

Lemma deleted_count_nonneg cs : (0 <= Zsum (map deleted_count cs))%Z.
Proof.
  apply Zsum_nonneg, Forall_map, Forall_true. intros [i [r|e]]; cbn; lia.
Qed.

Lemma error_count_nonneg cs : (0 <= Zsum (map error_count cs))%Z.
Proof.
  apply Zsum_nonneg, Forall_map, Forall_true. intros [i [r|e]]; cbn; lia.
Qed.

(** nothing runs once the process has exited or panicked *)
Lemma stopped_is_final s ev : status s <> Running -> sys_step ev s = None.
Proof. unfold step. now destruct (status s). Qed.

(** *** The producer *)

Lemma zrange_nil (a b : Z) : (b <= a)%Z -> zrange a b = [].
Proof. intros H. unfold zrange. now replace (Z.to_nat (b - a)) with 0%nat by lia. Qed.

Lemma zrange_cons (a b : Z) : (a < b)%Z -> zrange a b = a :: zrange (a + 1) b.
Proof.
  intros H. unfold zrange.
  replace (Z.to_nat (b - a)) with (S (Z.to_nat (b - (a + 1)))) by lia.
  cbn [seq map]. f_equal; [lia|].
  rewrite <- seq_shift, map_map. apply map_ext. intros k. lia.
Qed.

Lemma zrange_snoc (a b : Z) : (a <= b)%Z -> zrange a (b + 1) = zrange a b ++ [b].
Proof.
  intros H. unfold zrange.
  replace (Z.to_nat (b + 1 - a)) with (S (Z.to_nat (b - a))) by lia.
  rewrite seq_S, map_app. cbn. do 2 f_equal. lia.
Qed.

Lemma tiles_of_zooms_cons (a b : Z) :
  (a < b)%Z ->
  tiles_of_zooms GenerateTiles a b
  = GenerateTiles (world_options a) ++ tiles_of_zooms GenerateTiles (a + 1) b.
Proof. intros H. unfold tiles_of_zooms. now rewrite zrange_cons. Qed.

(** the tiles sent and the tiles of the call in progress are the tiles of
    the calls of [tile.GenerateTiles] made so far *)
Lemma reachable_generated s :
  sys_reachable s ->
  received s ++ tileChan s
    ++ match producer s with Producing _ pending => pending | ProducerDone => [] end
  = flat_map GenerateTiles (generated s).
Proof.
  revert s. reachable_induction.
  - unfold boot, producer_loop. destruct (Z.leb_spec 0 (maxZoom fl)); cbn;
      now rewrite ?app_nil_r.
  - intros ev s s' _ IH Ht.
    destruct Ht; cbn [proc with_proc with_worker with_status with_chan status
                      with_producer with_received close_chan producer generated
                      received tileChan];
      rewrite ?flat_map_app, <- ?IH;
      repeat match goal with
             | H : producer _ = _ |- _ => rewrite !H
             | H : tileChan _ = _ |- _ => rewrite !H
             end;
      cbn; rewrite ?app_nil_r, <- ?app_assoc; auto.
Qed.

Lemma reachable_world s :
  sys_reachable s ->
  Forall (fun o => Bounds o = mkBbox (-180) (-90) 180 90 /\ InvertedY o = false)
    (generated s).
Proof.
  revert s. reachable_induction.
  - unfold boot, producer_loop. destruct (Z.leb_spec 0 (maxZoom fl)); cbn; auto.
  - intros ev s s' _ IH Ht.
    destruct Ht; cbn [with_proc with_worker with_status with_chan
                      with_producer with_received close_chan generated];
      rewrite ?app_nil_r; auto.
    apply Forall_app. split; [exact IH|]. constructor; [|constructor]. now split.
Qed.

Section ZoomInRange.

(** the loop variable [z] does not wrap around *)
Hypothesis maxZoom_range : (0 <= maxZoom fl < 2 ^ 64 - 1)%Z.

Lemma w64_succ z : (0 <= z <= maxZoom fl)%Z -> Word.w64 (z + 1) = (z + 1)%Z.
Proof. intros H. apply w64_small. lia. Qed.

Lemma reachable_producer s :
  sys_reachable s ->
  (forall z pending, producer s = Producing z pending -> (0 <= z <= maxZoom fl)%Z)
  /\ generated s = map world_options (zrange 0 (zooms_begun fl (producer s)))
  /\ received s ++ tileChan s ++ remaining GenerateTiles fl (producer s)
     = tiles_of_zooms GenerateTiles 0 (maxZoom fl + 1).
Proof.
  revert s. reachable_induction.
  - unfold boot, producer_loop.
    destruct (Z.leb_spec 0 (maxZoom fl)) as [_|]; [|lia]. cbn.
    split; [intros z pending [= <- _]; lia|]. split; [reflexivity|].
    rewrite (tiles_of_zooms_cons 0) by lia. reflexivity.
  - intros ev s s' _ (Hz & Hgen & Hall) Ht.
    destruct Ht; cbn [proc with_proc with_worker with_status with_chan status
                      with_producer with_received close_chan producer generated
                      received tileChan];
      try (split; [exact Hz|]; split; [exact Hgen|];
           first [ exact Hall
                 | match goal with
                   | H : tileChan _ = _ |- _ => rewrite H in Hall
                   end;
                   rewrite <- Hall, <- ?app_assoc; reflexivity ]).
    all: match goal with
         | H : producer _ = _ |- _ => rewrite H in Hgen, Hall
         end;
         cbn [remaining zooms_begun] in *; rewrite ?app_nil_r.
    + split; [intros z' p' [= <- _]; eapply Hz; eassumption|].
      split; [exact Hgen|]. rewrite <- Hall, <- !app_assoc. reflexivity.
    + assert (Hr : (0 <= z <= maxZoom fl)%Z) by (eapply Hz; eassumption).
      rewrite (w64_succ z Hr) in *.
      split; [intros z' p' [= <- _]; lia|].
      split; [rewrite (zrange_snoc 0 (z + 1)), map_app, Hgen by lia; reflexivity|].
      rewrite <- Hall. cbn. now rewrite (tiles_of_zooms_cons (z + 1)) by lia.
    + assert (Hr : (0 <= z <= maxZoom fl)%Z) by (eapply Hz; eassumption).
      rewrite (w64_succ z Hr) in *.
      assert (z = maxZoom fl) as -> by lia.
      split; [discriminate|]. split; [exact Hgen|].
      rewrite <- Hall. unfold tiles_of_zooms. rewrite zrange_nil by lia.
      cbn. now rewrite ?app_nil_r.
Qed.

End ZoomInRange.

(** *** Shutdown and the account of the tiles *)

Lemma all_returned_lookup ws j w :
  all_returned ws = true -> ws !! j = Some w -> w = Returned.
Proof.
  unfold all_returned. rewrite forallb_forall. intros Hall Hj.
  apply list_elem_of_lookup_2, list_elem_of_In in Hj.
  specialize (Hall w Hj). now destruct w.
Qed.

Lemma all_returned_held ws :
  all_returned ws = true ->
  Zsum (map held_count ws) = 0%Z.
Proof.
  induction ws as [|w ws IH]; [reflexivity|]. cbn.
  intros [Hw Hws]%andb_prop. destruct w; [discriminate|].
  unfold Zsum in *. cbn. rewrite IH by exact Hws. reflexivity.
Qed.

Lemma key_count_ok i result : key_count (i, inl result) = batch_size i.
Proof. reflexivity. Qed.

Lemma Zsum_single (x : Z) : Zsum [x] = x.
Proof. unfold Zsum. cbn. lia. Qed.

Lemma Zsum_insert {A} (f : A -> Z) (ws : list A) j w w' :
  ws !! j = Some w ->
  Zsum (map f (<[j := w']> ws)) = (Zsum (map f ws) - f w + f w')%Z.
Proof.
  revert j. induction ws as [|x ws IH]; intros [|j] Hj; try discriminate Hj.
  - cbn in Hj. injection Hj as ->. unfold Zsum. cbn. lia.
  - change (Zsum (map f (<[S j := w']> (x :: ws))))
      with (f x + Zsum (map f (<[j := w']> ws)))%Z.
    rewrite (IH j Hj). unfold Zsum. cbn. lia.
Qed.

(** the channel is closed after the producer has returned, the main
    goroutine waits for the workers after it closed the channel, and a
    worker returns only from a closed and empty channel *)
Lemma reachable_shutdown s :
  sys_reachable s ->
  (closed s = true -> producer s = ProducerDone)
  /\ (mainpc s = WaitSink -> closed s = true)
  /\ (forall j, workers s !! j = Some Returned -> closed s = true /\ tileChan s = [])
  /\ length (workers s) = Z.to_nat (concurrency fl)
  /\ (status s = Exited 0 -> mainpc s = WaitSink /\ all_returned (workers s) = true).
Proof.
  revert s. reachable_induction.
  - unfold boot. destruct (producer_loop _ _ _). cbn.
    rewrite length_replicate.
    split; [discriminate|]. split; [discriminate|].
    split; [|split; [reflexivity | discriminate]].
    intros j [H _]%lookup_replicate_1. discriminate H.
  - intros ev s s' _ (Hcl & Hpc & Hret & Hlen & Hex) Ht.
    destruct Ht; cbn [proc with_proc with_worker with_status with_chan status
                      with_producer with_received close_chan producer generated
                      received tileChan closed mainpc workers];
      (split; [|split; [|split; [|split]]]).
    all: try exact Hcl; try exact Hpc; try exact Hret.
    all: try (rewrite ?length_insert; exact Hlen).
    all: try (intros Hst'; first [congruence | split; assumption]).
    all: try (intros Hc; first [reflexivity | assumption | specialize (Hcl Hc); congruence]).
    all: intros j' Hj';
      try (apply list_lookup_insert_Some in Hj' as [(_ & Hw & _)|(_ & Hj')];
           [try discriminate Hw|]);
      first [ split; assumption
            | destruct (Hret j' Hj') as [Hc Hch];
              first [ split; congruence | specialize (Hcl Hc); congruence ] ].
Qed.

(** while the process has not failed, the keys of the completed requests
    and the keys the workers hold are the keys of the tiles received *)
Lemma reachable_account s :
  sys_reachable s ->
  status s = Running \/ status s = Exited 0 ->
  (Zsum (map key_count (calls (proc s)))
   + Zsum (map held_count (workers s))
   = Z.of_nat (length (received s)))%Z.
Proof.
  revert s. reachable_induction.
  - unfold boot. destruct (producer_loop _ _ _). cbn. intros _.
    generalize (Z.to_nat (concurrency fl)). intros n.
    induction n as [|n IH]; [reflexivity|]. cbn [replicate map length].
    cbn [fold_right]. change (held_count (Receiving None)) with 0%Z. lia.
  - intros ev s s' _ IH Ht Hst.
    destruct Ht;
      match goal with H : status _ = Running |- _ => specialize (IH (or_introl H)) end;
      cbn [proc with_proc with_worker with_status with_chan status
           with_producer with_received close_chan answered refused
           received calls workers] in *;
      try (destruct Hst; discriminate);
      try exact IH;
      try (erewrite Zsum_insert by eassumption);
      rewrite ?map_app, ?Zsum_app, ?length_app, ?Nat2Z.inj_add;
      change (held_count (Receiving ?i)) with (Z.of_nat (length (pending i)));
      change (held_count Returned) with 0%Z;
      cbn [map length];
      rewrite ?key_count_ok, ?Zsum_single;
      unfold filled; rewrite ?batch_size_append, ?pending_append, ?length_app, ?Nat2Z.inj_add;
      cbn [length pending]; unfold batch_size;
      try match goal with H : pending _ = [] |- _ => rewrite H end;
      cbn [length]; unfold call in *; lia.
Qed.

Section Contract.

(** the service reports every key of a request it answers, as deleted or
    with an error *)
Hypothesis store_reports_each_key :
  forall st i st' result,
    DeleteObjects st i = (st', inl result) ->
    (length (s3.Deleted result) + length (s3.Errors result))%nat
    = length (s3.Objects (s3.Delete_ i)).

Lemma reachable_contract s :
  sys_reachable s ->
  (Zsum (map deleted_count (calls (proc s))) + Zsum (map error_count (calls (proc s)))
   = Zsum (map key_count (calls (proc s))))%Z.
Proof.
  revert s. reachable_induction.
  - unfold boot. destruct (producer_loop _ _ _). reflexivity.
  - intros ev s s' _ IH Ht.
    destruct Ht; cbn [proc with_proc with_worker with_status with_chan status
                      with_producer with_received close_chan answered refused
                      calls];
      try exact IH;
      rewrite !map_app, !Zsum_app; cbn [map]; rewrite !Zsum_single;
      change (deleted_count (?i, inl ?r)) with (Z.of_nat (length (s3.Deleted r)));
      change (error_count (?i, inl ?r)) with (Z.of_nat (length (s3.Errors r)));
      change (key_count (?i, inl ?r)) with (Z.of_nat (length (s3.Objects (s3.Delete_ i))));
      change (deleted_count (?i, inr ?e)) with 0%Z;
      change (error_count (?i, inr ?e)) with 0%Z;
      change (key_count (?i, inr ?e)) with 0%Z;
      try match goal with
          | H : DeleteObjects _ _ = (_, inl _) |- _ =>
              apply store_reports_each_key in H
          end;
      unfold call in *; lia.
Qed.

End Contract.

(** *** Every run comes to an end *)

Lemma receiving_nonneg ws : (0 <= Zsum (map receiving ws))%Z.
Proof. apply Zsum_nonneg, Forall_map, Forall_true. intros [i|]; cbn; lia. Qed.

Lemma receiving_all_returned ws :
  all_returned ws = false -> exists j input, ws !! j = Some (Receiving input).
Proof.
  induction ws as [|w ws IH]; [discriminate|]. cbn.
  destruct w as [input|]; cbn.
  - intros _. now exists 0%nat, input.
  - intros H. destruct (IH H) as (j & input & Hj). now exists (S j), input.
Qed.

(** a step of a goroutine other than the reporter uses up the bound *)
Lemma transition_steps_left ev s s' :
  (0 <= maxZoom fl < 2 ^ 64 - 1)%Z ->
  (forall z pending, producer s = Producing z pending -> (0 <= z <= maxZoom fl)%Z) ->
  sys_transition ev s s' ->
  ev <> EvTick ->
  (0 <= steps_left GenerateTiles fl s' < steps_left GenerateTiles fl s)%Z.
Proof.
  intros Hmax Hz Ht Hev. unfold steps_left.
  pose proof (receiving_nonneg (workers s)) as Hw.
  destruct Ht; try congruence;
    cbn [proc with_proc with_worker with_status with_chan status
         with_producer with_received close_chan producer generated
         received tileChan closed mainpc workers];
    repeat match goal with
           | H : status _ = _ |- _ => rewrite !H
           | H : tileChan _ = _ |- _ => rewrite !H
           | H : workers _ !! _ = Some _ |- _ =>
               rewrite (Zsum_insert receiving _ _ _ _ H)
           end;
    cbn [receiving length].
  - pose proof (Hz _ _ H0). rewrite H0. cbn [remaining].
    rewrite !length_app. cbn [length]. destruct (mainpc s); lia.
  - pose proof (Hz _ _ H0) as Hr. rewrite H0. rewrite (w64_succ Hmax z Hr) in *.
    cbn [remaining app]. rewrite (tiles_of_zooms_cons (z + 1)) by lia.
    rewrite !length_app. destruct (mainpc s); lia.
  - pose proof (Hz _ _ H0) as Hr. rewrite H0. cbn [remaining app length].
    destruct (mainpc s); lia.
  - destruct (producer s) as [z pending|]; [pose proof (Hz _ _ eq_refl)|];
      destruct (mainpc s); lia.
  - destruct (producer s) as [z pending|]; [pose proof (Hz _ _ eq_refl)|];
      destruct (mainpc s); lia.
  - destruct (producer s) as [z pending|]; [pose proof (Hz _ _ eq_refl)|];
      destruct (mainpc s); lia.
  - destruct (producer s) as [z pending|]; [pose proof (Hz _ _ eq_refl)|];
      destruct (mainpc s); cbn [length]; lia.
  - destruct (producer s) as [z pending|]; [pose proof (Hz _ _ eq_refl)|];
      destruct (mainpc s); cbn [length]; lia.
  - destruct (producer s) as [z pending|]; [pose proof (Hz _ _ eq_refl)|];
      destruct (mainpc s); cbn [length]; lia.
  - rewrite H0, H1. cbn [remaining length]. lia.
  - rewrite H0. destruct (producer s) as [z pending|]; [pose proof (Hz _ _ eq_refl)|]; lia.
Qed.

Section Liveness.

Hypothesis maxZoom_range : (0 <= maxZoom fl < 2 ^ 64 - 1)%Z.
Hypothesis some_worker : (1 <= concurrency fl)%Z.
Hypothesis some_room : (1 <= capacity)%Z.

(** while the process runs, some goroutine other than the reporter can take
    a step *)
Lemma running_can_step s :
  sys_reachable s -> status s = Running ->
  exists ev s', ev <> EvTick /\ sys_step ev s = Some s'.
Proof.
  intros Hs Hrun.
  destruct (reachable_shutdown s Hs) as (Hcl & Hpc & Hret & Hlen & _).
  assert (Hworker : forall t rest, tileChan s = t :: rest ->
            exists s', sys_step (EvWorker 0) s = Some s').
  { intros t rest Hch.
    destruct (lookup_lt_is_Some_2 (workers s) 0%nat) as [w Hw]; [lia|].
    destruct w as [input|]; [|destruct (Hret _ Hw) as [_ He]; congruence].
    unfold step. rewrite Hrun, Hw, Hch. eauto. }
  destruct (producer s) as [z [|t pending]|] eqn:Hpr.
  - exists EvProducer. unfold step. rewrite Hrun, Hpr.
    destruct (producer_loop _ _ _). eexists. split; [discriminate|reflexivity].
  - destruct (Z.ltb_spec (Z.of_nat (length (tileChan s))) capacity) as [Hroom|Hfull].
    + exists EvProducer. unfold step. rewrite Hrun, Hpr.
      destruct (Z.ltb_spec (Z.of_nat (length (tileChan s))) capacity); [|lia].
      eexists. split; [discriminate|reflexivity].
    + destruct (tileChan s) as [|t' rest] eqn:Hch; [cbn in Hfull; lia|].
      destruct (Hworker _ _ eq_refl) as [s' Hstep].
      exists (EvWorker 0), s'. split; [discriminate|exact Hstep].
  - destruct (mainpc s) eqn:Hmain.
    + exists EvClose. unfold step. rewrite Hrun, Hmain, Hpr.
      eexists. split; [discriminate|reflexivity].
    + destruct (all_returned (workers s)) eqn:Hall.
      * exists EvFinish. unfold step. rewrite Hrun, Hmain, Hall.
        eexists. split; [discriminate|reflexivity].
      * destruct (receiving_all_returned _ Hall) as (j & input & Hj).
        exists (EvWorker j). unfold step. rewrite Hrun, Hj, (Hpc eq_refl).
        destruct (tileChan s); eexists; (split; [discriminate|reflexivity]).
Qed.

(** from every reachable state some schedule leads to the end of the
    process *)
Lemma run_comes_to_an_end s :
  sys_reachable s -> status s = Running ->
  exists sched s', sys_run sched s = Some s' /\ status s' <> Running.
Proof.
  intros Hs Hrun.
  remember (Z.to_nat (steps_left GenerateTiles fl s)) as n eqn:Hn.
  revert s Hs Hrun Hn. induction n as [n IH] using lt_wf_ind. intros s Hs Hrun Hn.
  destruct (running_can_step s Hs Hrun) as (ev & s1 & Hev & Hstep).
  destruct (reachable_producer maxZoom_range s Hs) as (Hz & _).
  pose proof (transition_steps_left ev s s1 maxZoom_range Hz
                (step_transition ev s s1 Hstep) Hev) as Hless.
  destruct (status s1) eqn:Hst1.
  - destruct (IH (Z.to_nat (steps_left GenerateTiles fl s1))) with (s := s1)
      as (sched & s' & Hrun' & Hend); auto; [lia | now apply (reachable_step ev s) |].
    exists (ev :: sched), s'. cbn. rewrite Hstep. auto.
  - exists [ev], s1. cbn. rewrite Hstep, Hst1. split; [reflexivity|discriminate].
  - exists [ev], s1. cbn. rewrite Hstep, Hst1. split; [reflexivity|discriminate].
Qed.

(** the process ends in a call of [log.Fatalf] only after the service
    answered a request with an error *)
Lemma reachable_answers s :
  sys_reachable s ->
  match status s with
  | Running | Exited 0 => True
  | Exited _ => exists i err, In (i, inr err) (calls (proc s))
  | Panicked => False
  end.
Proof.
  revert s. reachable_induction.
  - unfold boot. destruct (producer_loop _ _ _). exact I.
  - intros ev s s' _ IH Ht.
    destruct Ht; cbn [proc with_proc with_worker with_status with_chan status
                      with_producer with_received close_chan refused calls];
      repeat match goal with
             | H : status _ = Running |- _ => rewrite H in IH |- *
             end;
      auto;
      eexists _, _; apply in_or_app; right; left; reflexivity.
Qed.

(** the requests the service answered with an error all ended the process *)
Lemma reachable_failed s i err :
  sys_reachable s -> In (i, inr err) (calls (proc s)) -> status s = Exited 1.
Proof.
  intros Hs. revert s Hs i err. reachable_induction.
  - unfold boot. destruct (producer_loop _ _ _). intros i err [].
  - intros ev s s' _ IH Ht i err.
    destruct Ht; cbn [proc with_proc with_worker with_status with_chan status
                      with_producer with_received close_chan answered refused calls];
      rewrite ?in_app_iff; cbn [In]; auto;
      try (intros Hin; specialize (IH i err Hin); congruence);
      intros [Hin|[Heq|[]]]; try discriminate Heq;
      specialize (IH i err Hin); congruence.
Qed.

Lemma reachable_run sched s s' :
  sys_reachable s -> sys_run sched s = Some s' -> sys_reachable s'.
Proof.
  revert s. induction sched as [|ev sched IH]; intros s Hs; cbn.
  - now intros [= <-].
  - destruct (sys_step ev s) as [s1|] eqn:Hstep; [|discriminate].
    apply IH. now apply (reachable_step ev s).
Qed.

(** a service that answers every request leaves no error in the calls *)
Lemma reachable_no_error s :
  (forall st i, exists st' result, DeleteObjects st i = (st', inl result)) ->
  sys_reachable s ->
  forall i err, ~ In (i, inr err) (calls (proc s)).
Proof.
  intros Hstore. revert s. reachable_induction.
  - unfold boot. destruct (producer_loop _ _ _). intros i err [].
  - intros ev s s' _ IH Ht i err.
    destruct Ht; cbn [proc with_proc with_worker with_status with_chan status
                      with_producer with_received close_chan answered refused calls];
      try apply IH;
      try (rewrite in_app_iff; cbn [In];
           intros [Hin|[Heq|[]]]; [now apply (IH i err) | discriminate Heq]);
      match goal with
      | H : DeleteObjects ?st ?i = (_, inr _) |- _ =>
          destruct (Hstore st i) as (? & ? & Hok); congruence
      end.
Qed.

(** with a service that answers every request, the run can always go on
    until [main] returns *)
Lemma run_completes s :
  (forall st i, exists st' result, DeleteObjects st i = (st', inl result)) ->
  sys_reachable s -> status s = Running ->
  exists sched s', sys_run sched s = Some s' /\ status s' = Exited 0.
Proof.
  intros Hstore Hs Hrun.
  destruct (run_comes_to_an_end s Hs Hrun) as (sched & s' & Hsched & Hend).
  exists sched, s'. split; [exact Hsched|].
  pose proof (reachable_run sched s s' Hs Hsched) as Hs'.
  pose proof (reachable_answers s' Hs') as Hans.
  destruct (status s') as [|code|]; [congruence| |contradiction].
  destruct code as [|c|c]; [reflexivity| |];
    destruct Hans as (i & err & Hin); now apply (reachable_no_error s' Hstore Hs') in Hin.
Qed.

End Liveness.

(** *** The stream of tiles and the account of a run *)



Lemma reachable_bounded s :
  sys_reachable s -> (0 <= capacity)%Z -> (Z.of_nat (length (tileChan s)) <= capacity)%Z.
Proof.
  intros Hs Hcap. revert s Hs. reachable_induction.
  - unfold boot. destruct (producer_loop _ _ _). cbn. lia.
  - intros ev s s' _ IH Ht.
    destruct Ht; cbn [with_proc with_worker with_status with_chan
                      with_producer with_received close_chan tileChan];
      try exact IH;
      try (match goal with H : tileChan _ = _ |- _ => rewrite H in IH end;
           cbn [length] in IH; lia).
    rewrite length_app. cbn [length]. lia.
Qed.


(** a run that ends with [main] returning has sent a request for every
    tile, when there is at least one worker *)
Lemma completed_run_total s :
  (0 <= maxZoom fl < 2 ^ 64 - 1)%Z ->
  (1 <= concurrency fl)%Z ->
  (forall st i st' result,
      DeleteObjects st i = (st', inl result) ->
      (length (s3.Deleted result) + length (s3.Errors result))%nat
      = length (s3.Objects (s3.Delete_ i))) ->
  sys_reachable s ->
  status s = Exited 0 ->
  (Zsum (map deleted_count (calls (proc s))) + Zsum (map error_count (calls (proc s)))
   = Z.of_nat (length (tiles_of_zooms GenerateTiles 0 (maxZoom fl + 1))))%Z.
Proof.
  intros Hmax Hconc Hstore Hs Hexit.
  destruct (reachable_shutdown s Hs) as (Hcl & Hpc & Hret & Hlen & Hex).
  destruct (Hex Hexit) as [Hsink Hall].
  pose proof (Hcl (Hpc Hsink)) as Hdone.
  destruct (lookup_lt_is_Some_2 (workers s) 0%nat) as [w Hw]; [lia|].
  pose proof (all_returned_lookup _ _ _ Hall Hw) as ->.
  destruct (Hret _ Hw) as [_ Hempty].
  destruct (reachable_producer Hmax s Hs) as (_ & _ & Htiles).
  rewrite Hdone, Hempty in Htiles. cbn in Htiles. rewrite app_nil_r in Htiles.
  pose proof (reachable_account s Hs (or_intror Hexit)) as Hacc.
  rewrite (all_returned_held _ Hall), Z.add_0_r, Htiles in Hacc.
  now rewrite (reachable_contract Hstore s Hs).
Qed.

(** C10: with one worker and a channel that holds fewer tiles than there
    are, the channel never holds more than its capacity; the producer
    cannot take its step while the channel is full, and no tile is lost:
    those received, those in the channel and those yet to be sent are all
    the tiles, in order; and when [main] has returned, the two counters
    add up to the number of tiles.  With a service that answers every
    request, every running state has a schedule to the return of [main].
    The service reports each key of a request it answers, and the number
    of tiles is below 2^64. *)
Theorem backpressure_loses_no_tile s :
  let tiles := flat_map (fun z => GenerateTiles (world_options z))
                 (zrange 0 (maxZoom fl + 1)) in
  (0 <= maxZoom fl < 2 ^ 64 - 1)%Z ->
  concurrency fl = 1%Z ->
  (0 <= capacity < Z.of_nat (length tiles))%Z ->
  (Z.of_nat (length tiles) < 2 ^ 64)%Z ->
  (forall st i st' result,
      DeleteObjects st i = (st', inl result) ->
      (length (s3.Deleted result) + length (s3.Errors result))%nat
      = length (s3.Objects (s3.Delete_ i))) ->
  sys_reachable s ->
  (Z.of_nat (length (tileChan s)) <= capacity)%Z
  /\ (Z.of_nat (length (tileChan s)) = capacity ->
      forall z t pending, producer s = Producing z (t :: pending) ->
      sys_step EvProducer s = None)
  /\ received s ++ tileChan s ++ remaining GenerateTiles fl (producer s) = tiles
  /\ (status s = Exited 0 ->
      (deletes (proc s) + errors (proc s))%Z = Z.of_nat (length tiles))
  /\ ((1 <= capacity)%Z ->
      (forall st i, exists st' result, DeleteObjects st i = (st', inl result)) ->
      status s = Running ->
      exists sched s',
        sys_run sched s = Some s' /\ status s' = Exited 0
        /\ (deletes (proc s') + errors (proc s'))%Z = Z.of_nat (length tiles)).
Proof.
  intros tiles Hmax Hconc Hcap Hsmall Hstore Hs.
  destruct (reachable_producer Hmax s Hs) as (_ & _ & Htiles).
  split; [apply reachable_bounded; [exact Hs | lia]|].
  split.
  { intros Hfull z t pending Hpr. unfold step.
    destruct (status s); [|reflexivity..]. rewrite Hpr.
    destruct (Z.ltb_spec (Z.of_nat (length (tileChan s))) capacity); [lia|reflexivity]. }
  split; [exact Htiles|].
  assert (Hone : (1 <= concurrency fl)%Z) by lia.
  assert (Hfinal : forall s1, sys_reachable s1 -> status s1 = Exited 0 ->
            (deletes (proc s1) + errors (proc s1))%Z = Z.of_nat (length tiles)).
  { intros s1 Hs1 Hexit.
    pose proof (completed_run_total s1 Hmax Hone Hstore Hs1 Hexit) as Htotal.
    destruct (reachable_counters s1 Hs1) as [Hd He].
    pose proof (deleted_count_nonneg (calls (proc s1))) as Hd0.
    pose proof (error_count_nonneg (calls (proc s1))) as He0.
    fold (tiles_of_zooms GenerateTiles 0 (maxZoom fl + 1)) in tiles.
    rewrite Hd, He, !w64_small; [exact Htotal | |]; subst tiles; unfold call in *; lia. }
  split; [now apply Hfinal|].
  intros Hroom Hanswers Hrun.
  destruct (run_completes Hmax Hone Hroom s Hanswers Hs Hrun)
    as (sched & s' & Hsched & Hend).
  exists sched, s'. split; [exact Hsched|]. split; [exact Hend|].
  apply Hfinal; [|exact Hend]. now apply (reachable_run sched s).
Qed.

End PipelineProps.

(** ** [main] and its flags *)

Section MainProps.

Local Open Scope list_scope.

Context {S3 : Type}.
Variable DeleteObjects :
  S3 -> s3.DeleteObjectsInput -> S3 * (s3.DeleteObjectsOutput + error).
Variable GenerateTiles : GenerateTilesOptions -> list Tile.

(** C9: whatever the flags, in every state of a run that [main] started,
    each call of [tile.GenerateTiles] made so far was for the bounds
    (-180, -90, 180, 90) with [InvertedY] false, and the tiles sent and
    about to be sent are the tiles of those calls. *)
Theorem enumeration_is_whole_world (fl : Flags) (sess : S3 + error)
    (capacity : Z) (s0 s : Sys S3) (sched : list Event) :
  main_start GenerateTiles fl sess = Started capacity s0 ->
  run DeleteObjects GenerateTiles capacity fl sched s0 = Some s ->
  Forall (fun o => Bounds o = mkBbox (-180) (-90) 180 90 /\ InvertedY o = false)
    (generated s)
  /\ received s ++ tileChan s
       ++ match producer s with Producing _ pending => pending | ProducerDone => [] end
     = flat_map GenerateTiles (generated s).
Proof.
  unfold main_start.
  destruct (buildID fl =? "")%string; [discriminate|].
  destruct (bucketName fl =? "")%string; [discriminate|].
  destruct sess as [svc0|err]; [|discriminate].
  destruct (concurrency fl <? 0)%Z; [discriminate|].
  intros [= <- <-] Hrun.
  assert (Hs : reachable DeleteObjects GenerateTiles tileChanCap fl svc0 s)
    by (now exists sched).
  split; [now apply (reachable_world DeleteObjects GenerateTiles tileChanCap fl svc0)|].
  now apply (reachable_generated DeleteObjects GenerateTiles tileChanCap fl svc0).
Qed.

End MainProps.

(** ** The sample error of the last batch *)

(** the place that sends a full batch logs one sample error when the answer
    has more than ten errors *)
Lemma full_batch_logs_sample {S3} DeleteObjects bucket build input t
    (p : @Proc S3) svc' result :
  (Z.of_nat (length (pending input)) + 1 = maxDeleteKeys)%Z ->
  DeleteObjects (svc p)
    (append_object (current_input bucket input)
       (s3.mkObjectIdentifier (computeKey build t)))
  = (svc', inl result) ->
  (10 < Z.of_nat (length (s3.Errors result)))%Z ->
  exists p' e,
    worker_receive DeleteObjects bucket build input t p = Ret None p'
    /\ sample_errors (logs p') = (sample_errors (logs p) ++ [e])%list
    /\ head (s3.Errors result) = Some e.
Proof.
  intros Hn Hcall Hmany.
  rewrite (worker_receive_flush DeleteObjects bucket build input t p svc' result Hn Hcall).
  unfold answered. cbn [andb].
  destruct (Z.ltb_spec 10 (Z.of_nat (length (s3.Errors result)))) as [_|]; [|lia].
  destruct (s3.Errors result) as [|e es]; [cbn in Hmany; lia|].
  eexists _, e. split; [reflexivity|]. cbn [logs].
  unfold sample_errors. rewrite omap_app. split; reflexivity.
Qed.

(** C3: a worker receives eleven tiles and the channel is closed; the
    service answers the one request with an error for each of the eleven
    keys.  The errors are counted and the worker returns, but no sample
    error is logged: the place that sends the last batch has no such
    statement, where the place that sends a full batch has one. *)
Theorem last_batch_logs_no_sample :
  exists p',
    worker Demo.refuses_keys "tiles" "abc123" (Demo.row 11) (Demo.proc0 tt) = Ret tt p'
    /\ map error_count (calls p') = [11%Z]
    /\ errors p' = 11%Z
    /\ deletes p' = 0%Z
    /\ sample_errors (logs p') = [].
Proof. eexists. vm_compute. repeat split. Qed.

(** ** Runs of the examples *)

Example full_batch_sample_logged :
  exists p',
    worker Demo.refuses_keys "tiles" "abc123" (Demo.row 500) (Demo.proc0 tt) = Ret tt p'
    /\ errors p' = 500%Z
    /\ length (sample_errors (logs p')) = 1%nat.
Proof. eexists. vm_compute. repeat split. Qed.

Example five_tiles_one_request :
  let s := Demo.final Demo.deletes_all 2 tt Demo.schedule in
  status s = Exited 0
  /\ map (fun c => length (keys_of (fst c))) (calls (proc s)) = [5%nat]
  /\ logs (proc s) = [StartedSource; StartingWorkers 1; Progress 0 0; Done 5 0].
Proof. vm_compute. repeat split. Qed.

Lemma worker_batches_witness :
  exists p' new,
    worker Demo.deletes_all "tiles" "abc123" (Demo.row 501) (Demo.proc0 tt) = Ret tt p'
    /\ calls p' = new
    /\ length new = 2%nat.
Proof.
  destruct (worker_batches Demo.deletes_all "tiles" "abc123" (Demo.row 501) (Demo.proc0 tt))
    as [Hmain Hreturns].
  destruct (Hreturns (fun st i => ex_intro _ tt (ex_intro _ _ eq_refl))) as [p' Hrun].
  rewrite Hrun in Hmain. destruct Hmain as (new & Hcalls & Hlen & _).
  exists p', new. split; [exact Hrun|]. split; [exact Hcalls|].
  apply Nat2Z.inj. rewrite Hlen. vm_compute. reflexivity.
Defined.


Lemma enumeration_is_whole_world_witness :
  let s := Demo.final Demo.deletes_all tileChanCap tt Demo.schedule in
  Forall (fun o => Bounds o = mkBbox (-180) (-90) 180 90 /\ InvertedY o = false)
    (generated s).
Proof.
  intros s.
  apply (enumeration_is_whole_world Demo.deletes_all Demo.world_tiles Demo.flags
           (inl tt) tileChanCap (boot Demo.world_tiles tt Demo.flags) s Demo.schedule).
  - reflexivity.
  - vm_compute. reflexivity.
Defined.

Lemma backpressure_loses_no_tile_witness :
  let s := Demo.final Demo.deletes_all 2 tt Demo.schedule in
  (deletes (proc s) + errors (proc s))%Z = 5%Z.
Proof.
  intros s.
  destruct (backpressure_loses_no_tile Demo.deletes_all Demo.world_tiles 2 Demo.flags tt s)
    as (_ & _ & _ & Hsum & _).
  - cbn. lia.
  - reflexivity.
  - vm_compute. split; [discriminate | reflexivity].
  - vm_compute. reflexivity.
  - intros [] i [] result [= <-]. cbn [s3.Deleted s3.Errors length].
    unfold keys_of. rewrite length_map. lia.
  - exists Demo.schedule. vm_compute. reflexivity.
  - rewrite Hsum by (vm_compute; reflexivity). vm_compute. reflexivity.
Defined.

(** * Further properties *)

(** ** Keys of different builds *)

Section KeyOfBuild.

Lemma all_chars_append p (a b : string) :
  all_chars p (a ++ b) = all_chars p a && all_chars p b.
Proof. induction a as [|c a IH]; cbn; [reflexivity|]. now rewrite IH, andb_assoc. Qed.

Lemma all_chars_impl (p q : ascii -> bool) (s : string) :
  (forall c, p c = true -> q c = true) ->
  all_chars p s = true -> all_chars q s = true.
Proof.
  intros Hpq. induction s as [|c s IH]; cbn; [reflexivity|].
  intros [Hc Hs]%andb_prop. now rewrite (Hpq c Hc), IH.
Qed.

Lemma digit_not_slash (c : ascii) : is_digit c = true -> not_slash c = true.
Proof. destruct c as [[] [] [] [] [] [] [] []]; intros H; try reflexivity; discriminate H. Qed.

Lemma append_cons_assoc (a b r : string) (c : ascii) :
  a ++ String c (b ++ r) = (a ++ String c b) ++ r.
Proof. induction a as [|x a IH]; cbn; [reflexivity|]. now rewrite IH. Qed.

(** a string is cut in one way only at its last separator *)
Lemma split_at_last (p : ascii -> bool) (c : ascii) (a1 a2 r1 r2 : string) :
  p c = false ->
  all_chars p r1 = true -> all_chars p r2 = true ->
  a1 ++ String c r1 = a2 ++ String c r2 -> a1 = a2 /\ r1 = r2.
Proof.
  intros Hc. revert a2.
  induction a1 as [|x a1 IH]; intros [|y a2] H1 H2 Heq; cbn in Heq.
  - injection Heq as ->. auto.
  - injection Heq as _ ->. rewrite all_chars_append in H1. cbn in H1.
    rewrite Hc, andb_false_r in H1. discriminate H1.
  - injection Heq as _ <-. rewrite all_chars_append in H2. cbn in H2.
    rewrite Hc, andb_false_r in H2. discriminate H2.
  - injection Heq as -> Heq. destruct (IH _ H1 H2 Heq) as [-> ->]. auto.
Qed.

Lemma format_uint_no_slash (n : N) : all_chars not_slash (format_uint n) = true.
Proof. apply (all_chars_impl is_digit), format_uint_digits. apply digit_not_slash. Qed.

Lemma regroup_path (b dz dx r : string) :
  b ++ String "/" (dz ++ String "/" (dx ++ String "/" r))
  = ((b ++ String "/" dz) ++ String "/" dx) ++ String "/" r.
Proof.
  rewrite (append_cons_assoc dz dx (String "/" r)).
  rewrite (append_cons_assoc b (dz ++ String "/" dx) (String "/" r)).
  now rewrite (append_cons_assoc b dz (String "/" dx)).
Qed.

(** X1: two keys are equal only for the same build identifier and the same
    tile, whatever the build identifiers are: the key of a tile of one
    build is never the key of a tile of another build. *)
Theorem computeKey_build_and_tile (b1 b2 : string) (t1 t2 : Tile) :
  computeKey b1 t1 = computeKey b2 t2 <-> b1 = b2 /\ t1 = t2.
Proof.
  split; [|now intros [-> ->]].
  unfold computeKey. cbv zeta. intros H.
  apply append_length_inj in H as [_ H]; [|now rewrite !hashPrefix_length].
  change ("/" ++ ?s) with (String "/" s) in H. injection H as H.
  destruct t1 as [z1 x1 y1], t2 as [z2 x2 y2]. unfold tile_path in H.
  cbn [Tile_Z Tile_X Tile_Y append] in H.
  rewrite !regroup_path in H.
  assert (Hlast : forall n, all_chars not_slash (format_uint n ++ ".zip") = true).
  { intros n. now rewrite all_chars_append, format_uint_no_slash. }
  apply (split_at_last not_slash) in H as [H Hy]; auto.
  apply (split_at_last not_slash) in H as [H Hx]; auto using format_uint_no_slash.
  apply (split_at_last not_slash) in H as [Hb Hz]; auto using format_uint_no_slash.
  apply (digits_then_sep "."%char _ _ "zip" "zip") in Hy as [Hy _];
    auto using format_uint_digits.
  apply format_uint_inj in Hz, Hx, Hy. split; congruence.
Qed.

Lemma computeKey_build_and_tile_witness :
  computeKey "b/1" (mkTile 2 3 4) <> computeKey "b" (mkTile 1 2 3).
Proof.
  intros H.
  apply (computeKey_build_and_tile "b/1" "b" (mkTile 2 3 4) (mkTile 1 2 3)) in H.
  destruct H as [H _]. discriminate H.
Defined.

End KeyOfBuild.

(** ** The requests of a run *)

Section Requests.

Local Open Scope list_scope.

Context {S3 : Type}.
Variable DeleteObjects :
  S3 -> s3.DeleteObjectsInput -> S3 * (s3.DeleteObjectsOutput + error).
Variable GenerateTiles : GenerateTilesOptions -> list Tile.
Variable capacity : Z.
Variable fl : Flags.
Variable svc0 : S3.

Local Abbreviation sys_step := (step DeleteObjects GenerateTiles capacity fl).
Local Abbreviation sys_run := (run DeleteObjects GenerateTiles capacity fl).
Local Abbreviation sys_transition := (transition DeleteObjects GenerateTiles capacity fl).
Local Abbreviation sys_reachable := (reachable DeleteObjects GenerateTiles capacity fl svc0).
Local Abbreviation sys_boot := (boot GenerateTiles svc0 fl).

Ltac reachable_induction :=
  let s := fresh "s" in
  let Hs := fresh "Hs" in
  intros s Hs; pattern s; revert s Hs;
  apply (reachable_ind DeleteObjects GenerateTiles capacity fl svc0); cbv beta.

Ltac step_fields :=
  cbn [proc with_proc with_worker with_status with_chan status
       with_producer with_received close_chan producer generated
       received tileChan closed mainpc workers answered refused
       svc deletes errors logs calls].

Lemma batch_size_filled input t :
  batch_size (filled fl input t) = (Z.of_nat (length (pending input)) + 1)%Z.
Proof. unfold filled. apply batch_size_append. Qed.

Lemma bucket_filled input t :
  (forall i, input = Some i -> s3.Bucket i = bucketName fl) ->
  s3.Bucket (filled fl input t) = bucketName fl.
Proof. intros H. unfold filled. destruct input as [i|]; cbn; auto. Qed.

Lemma worker_ok_pending w input :
  worker_ok (bucketName fl) w -> w = Receiving input ->
  (forall i, input = Some i -> s3.Bucket i = bucketName fl)
  /\ (Z.of_nat (length (pending input)) < maxDeleteKeys)%Z.
Proof.
  intros Hok ->. destruct input as [i|]; cbn in *.
  - destruct Hok as [Hb Hn]. unfold batch_size in Hn.
    split; [now intros ? [= <-] | lia].
  - split; [discriminate | unfold maxDeleteKeys; lia].
Qed.

(** the requests the workers hold are for the bucket of the flags and have
    at least one and fewer than [maxDeleteKeys] keys *)
Lemma reachable_workers_ok s :
  sys_reachable s -> Forall (worker_ok (bucketName fl)) (workers s).
Proof.
  revert s. reachable_induction.
  - unfold boot. destruct (producer_loop _ _ _). cbn.
    apply Forall_replicate. exact I.
  - intros ev s s' _ IH Ht.
    destruct Ht; step_fields; auto; apply Forall_insert; auto; try exact I.
    match goal with
    | H : workers _ !! _ = Some (Receiving ?input) |- _ =>
        destruct (worker_ok_pending _ input (Forall_lookup_1 _ _ _ _ IH H) eq_refl)
          as [Hb Hn]
    end.
    cbn [worker_ok]. split; [now apply bucket_filled|].
    rewrite batch_size_filled. lia.
Qed.

(** the requests sent name the bucket of the flags and have from 1 to 500
    keys *)
Lemma reachable_requests s :
  sys_reachable s ->
  Forall (fun c => s3.Bucket (fst c) = bucketName fl
                   /\ (1 <= batch_size (fst c) <= 500)%Z)
    (calls (proc s)).
Proof.
  revert s. reachable_induction.
  - unfold boot. destruct (producer_loop _ _ _). constructor.
  - intros ev s s' Hs IH Ht.
    pose proof (reachable_workers_ok s Hs) as Hws.
    destruct Ht; step_fields; auto; apply Forall_app; (split; [exact IH|]);
      (constructor 2; [|constructor 1]);
      match goal with
      | H : workers _ !! _ = Some (Receiving ?input) |- _ =>
          pose proof (Forall_lookup_1 _ _ _ _ Hws H) as Hok;
          destruct (worker_ok_pending _ input Hok eq_refl) as [Hb Hn]
      end;
      cbn [fst];
      try (split; [now apply bucket_filled|];
           rewrite batch_size_filled; unfold maxDeleteKeys in *; lia);
      cbn in Hok; destruct Hok as [Hbi Hni]; unfold maxDeleteKeys in *;
      (split; [exact Hbi | lia]).
Qed.


(** *** The keys of the requests *)

Lemma occurrences_app k (l1 l2 : list string) :
  occurrences k (l1 ++ l2) = (occurrences k l1 + occurrences k l2)%nat.
Proof. unfold occurrences. apply count_occ_app. Qed.

Lemma sent_keys_snoc cs (c : call) : sent_keys (cs ++ [c]) = sent_keys cs ++ call_keys c.
Proof. unfold sent_keys. rewrite map_app, concat_app. cbn. now rewrite app_nil_r. Qed.

Lemma held_keys_insert (ws : list Worker) j w w' k :
  ws !! j = Some w ->
  (occurrences k (held_keys (<[j := w']> ws)) + occurrences k (worker_keys w)
   = occurrences k (held_keys ws) + occurrences k (worker_keys w'))%nat.
Proof.
  revert j. induction ws as [|x ws IH]; intros [|j] Hj; try discriminate Hj.
  - cbn in Hj. injection Hj as ->. unfold held_keys. cbn [map concat insert list_insert].
    rewrite !occurrences_app. lia.
  - specialize (IH j Hj). unfold held_keys in *.
    change (<[S j := w']> (x :: ws)) with (x :: <[j := w']> ws).
    cbn [map concat]. rewrite !occurrences_app. lia.
Qed.

Lemma worker_keys_filled input t :
  call_keys (filled fl input t, inl (s3.mkOutput [] []))
  = worker_keys (Receiving input) ++ [computeKey (buildID fl) t].
Proof. unfold call_keys, filled, worker_keys. cbn [fst held]. apply keys_of_append. Qed.

Lemma keys_of_filled input t :
  keys_of (filled fl input t) = map s3.Key (pending input) ++ [computeKey (buildID fl) t].
Proof. unfold filled. apply keys_of_append. Qed.

Lemma objects_filled input t :
  s3.Objects (s3.Delete_ (filled fl input t))
  = pending input ++ [s3.mkObjectIdentifier (computeKey (buildID fl) t)].
Proof. unfold filled. now destruct input. Qed.

(** while the process has not failed, the keys sent and the keys held are
    the keys of the tiles received; in any case no key was sent more often
    than its tiles were received *)
Lemma reachable_keys s :
  sys_reachable s ->
  (status s = Running \/ status s = Exited 0 ->
   forall k, (occurrences k (sent_keys (calls (proc s)))
              + occurrences k (held_keys (workers s))
              = occurrences k (map (computeKey (buildID fl)) (received s)))%nat)
  /\ (forall k, (occurrences k (sent_keys (calls (proc s)))
                 <= occurrences k (map (computeKey (buildID fl)) (received s)))%nat).
Proof.
  revert s. reachable_induction.
  - unfold boot. destruct (producer_loop _ _ _). cbn.
    split; [|intros k; cbn; lia]. intros _ k.
    generalize (Z.to_nat (concurrency fl)). intros n.
    induction n as [|n IH]; [reflexivity|]. exact IH.
  - intros ev s s' _ [IHeq IHle] Ht.
    destruct Ht;
      match goal with
      | H : status _ = Running |- _ => specialize (IHeq (or_introl H))
      end;
      step_fields;
      try (split; [intros _|]; assumption);
      try (split; [intros [Hst|Hst]; discriminate Hst|]);
      try (split; [intros _|]); intros k; specialize (IHeq k); specialize (IHle k);
      rewrite ?sent_keys_snoc, ?map_app, ?occurrences_app;
      unfold call_keys; cbn [fst map];
      rewrite ?keys_of_filled, ?occurrences_app;
      try match goal with
          | H : workers _ !! _ = Some ?w |- context [<[_ := ?w']> _] =>
              pose proof (held_keys_insert _ _ _ w' k H) as Hins
          end;
      try match goal with
          | H : workers _ !! _ = Some ?w |- _ =>
              pose proof (held_keys_insert _ _ _ Returned k H) as Hret
          end;
      unfold worker_keys in *; cbn [held pending map] in *;
      try match goal with
          | H : pending _ = [] |- _ => rewrite H in *
          end;
      unfold keys_of in *; cbn [map occurrences count_occ] in *;
      rewrite ?objects_filled, ?map_app, ?occurrences_app in *;
      cbn [map s3.Key occurrences count_occ] in *; unfold call in *; lia.
Qed.

(** X3: while the process has not failed, the keys of the requests sent
    together with the keys the workers hold are, up to their order, the
    keys under the build of the flags of the tiles received from the
    channel.  In every state each key sent is the key of a received tile,
    and no key was sent more often than tiles with that key were
    received. *)
Theorem sent_keys_are_tile_keys s :
  sys_reachable s ->
  (status s = Running \/ status s = Exited 0 ->
   Permutation (sent_keys (calls (proc s)) ++ held_keys (workers s))
     (map (computeKey (buildID fl)) (received s)))
  /\ (forall k, In k (sent_keys (calls (proc s))) ->
        exists t, In t (received s) /\ k = computeKey (buildID fl) t)
  /\ (forall k, (count_occ string_dec (sent_keys (calls (proc s))) k
                 <= count_occ string_dec (map (computeKey (buildID fl)) (received s)) k)%nat).
Proof.
  intros Hs. destruct (reachable_keys s Hs) as [Heq Hle].
  split.
  { intros Halive. apply (Permutation.Permutation_count_occ string_dec).
    intros k. rewrite count_occ_app. apply (Heq Halive k). }
  split; [|exact Hle].
  intros k Hin. apply (count_occ_In string_dec) in Hin.
  specialize (Hle k). unfold occurrences in Hle.
  assert (Hin' : In k (map (computeKey (buildID fl)) (received s))).
  { apply (count_occ_In string_dec). lia. }
  apply in_map_iff in Hin' as (t & <- & Ht). eauto.
Qed.

Lemma all_returned_held_keys ws : all_returned ws = true -> held_keys ws = [].
Proof.
  induction ws as [|w ws IH]; [reflexivity|]. cbn.
  intros [Hw Hws]%andb_prop. destruct w; [discriminate|].
  unfold held_keys in *. cbn. now apply IH.
Qed.

(** when [main] has returned, all tiles were received, the workers hold
    nothing and no request failed *)
Lemma completed_run s :
  (0 <= maxZoom fl < 2 ^ 64 - 1)%Z ->
  (1 <= concurrency fl)%Z ->
  sys_reachable s -> status s = Exited 0 ->
  received s = tiles_of_zooms GenerateTiles 0 (maxZoom fl + 1)
  /\ all_returned (workers s) = true
  /\ Forall (fun c => succeeded c = true) (calls (proc s)).
Proof.
  intros Hmax Hconc Hs Hexit.
  destruct (reachable_shutdown DeleteObjects GenerateTiles capacity fl svc0 s Hs)
    as (Hcl & Hpc & Hret & Hlen & Hex).
  destruct (Hex Hexit) as [Hsink Hall].
  pose proof (Hcl (Hpc Hsink)) as Hdone.
  destruct (lookup_lt_is_Some_2 (workers s) 0%nat) as [w Hw]; [lia|].
  pose proof (all_returned_lookup _ _ _ Hall Hw) as ->.
  destruct (Hret _ Hw) as [_ Hempty].
  destruct (reachable_producer DeleteObjects GenerateTiles capacity fl svc0 Hmax s Hs)
    as (_ & _ & Htiles).
  rewrite Hdone, Hempty in Htiles. cbn in Htiles. rewrite app_nil_r in Htiles.
  split; [exact Htiles|]. split; [exact Hall|].
  apply Forall_forall. intros [i [result|err]] Hin; [reflexivity|].
  apply list_elem_of_In in Hin.
  pose proof (reachable_failed DeleteObjects GenerateTiles capacity fl svc0 s i err Hs Hin).
  congruence.
Qed.

(** X4: when [main] has returned from a run with at least one worker, the
    keys of the requests sent are, up to their order, the keys under the
    build of the flags of all the tiles of the zooms 0 to [maxZoom], one
    key for each tile enumerated, and every request was answered. *)
Theorem completed_run_sends_every_key s :
  (0 <= maxZoom fl < 2 ^ 64 - 1)%Z ->
  (1 <= concurrency fl)%Z ->
  sys_reachable s ->
  status s = Exited 0 ->
  Permutation (sent_keys (calls (proc s)))
    (map (computeKey (buildID fl))
       (flat_map (fun z => GenerateTiles (world_options z)) (zrange 0 (maxZoom fl + 1))))
  /\ Forall (fun c => succeeded c = true) (calls (proc s)).
Proof.
  intros Hmax Hconc Hs Hexit.
  destruct (completed_run s Hmax Hconc Hs Hexit) as (Hrec & Hall & Hok).
  split; [|exact Hok].
  destruct (reachable_keys s Hs) as [Heq _].
  apply (Permutation.Permutation_count_occ string_dec). intros k.
  specialize (Heq (or_intror Hexit) k).
  rewrite (all_returned_held_keys _ Hall), Hrec in Heq.
  unfold occurrences in Heq. cbn in Heq. unfold tiles_of_zooms in Heq. lia.
Qed.

(** with one worker the keys are sent in the order of the tiles *)
Lemma reachable_single_worker s :
  concurrency fl = 1%Z ->
  sys_reachable s ->
  exists w, workers s = [w]
    /\ (status s = Running \/ status s = Exited 0 ->
        sent_keys (calls (proc s)) ++ worker_keys w
        = map (computeKey (buildID fl)) (received s)).
Proof.
  intros Hone. revert s. reachable_induction.
  - unfold boot. destruct (producer_loop _ _ _). cbn. rewrite Hone.
    exists (Receiving None). split; reflexivity.
  - intros ev s s' _ (w & Hw & IH) Ht.
    destruct Ht;
      match goal with
      | H : status _ = Running |- _ => specialize (IH (or_introl H))
      end;
      step_fields; rewrite ?Hw in *;
      try (exists w; split; [reflexivity|]; intros _; exact IH);
      try match goal with
          | H : [w] !! ?j = Some _ |- _ =>
              destruct j as [|j]; [cbn in H; injection H as -> | discriminate H]
          end;
      try (eexists; split; [reflexivity|]; intros [Hst|Hst]; discriminate Hst);
      (eexists; split; [reflexivity|]); intros _;
      unfold worker_keys in *; cbn [held pending map] in *;
      rewrite ?sent_keys_snoc, ?map_app; unfold call_keys; cbn [fst map];
      rewrite ?objects_filled, ?keys_of_filled, ?map_app, ?app_nil_r;
      cbn [map s3.Key]; rewrite <- ?IH, <- ?app_assoc; try reflexivity.
    + match goal with H : pending _ = [] |- _ => rewrite H end.
      cbn. now rewrite app_nil_r.
Qed.

(** X5: with one worker, while the process has not failed, the keys of the
    requests sent followed by the keys the worker holds are the keys of
    the tiles received, in the order in which they were received; and when
    [main] has returned, the requests list the keys of all the tiles in the
    order of the enumeration, zoom after zoom. *)
Theorem single_worker_keeps_order s :
  concurrency fl = 1%Z ->
  sys_reachable s ->
  (status s = Running \/ status s = Exited 0 ->
   sent_keys (calls (proc s)) ++ held_keys (workers s)
   = map (computeKey (buildID fl)) (received s))
  /\ ((0 <= maxZoom fl < 2 ^ 64 - 1)%Z -> status s = Exited 0 ->
      sent_keys (calls (proc s))
      = map (computeKey (buildID fl))
          (flat_map (fun z => GenerateTiles (world_options z))
             (zrange 0 (maxZoom fl + 1)))).
Proof.
  intros Hone Hs.
  destruct (reachable_single_worker s Hone Hs) as (w & Hw & Hkeys).
  assert (Hheld : held_keys (workers s) = worker_keys w).
  { rewrite Hw. unfold held_keys. cbn. now rewrite app_nil_r. }
  split; [now rewrite Hheld|].
  intros Hmax Hexit.
  destruct (completed_run s Hmax ltac:(lia) Hs Hexit) as (Hrec & Hall & _).
  specialize (Hkeys (or_intror Hexit)).
  rewrite <- Hheld, (all_returned_held_keys _ Hall), app_nil_r, Hrec in Hkeys.
  exact Hkeys.
Qed.

End Requests.


Lemma sent_keys_are_tile_keys_witness :
  let s := Demo.final Demo.deletes_all 2 tt (take 13 Demo.schedule) in
  Permutation (sent_keys (calls (proc s)) ++ held_keys (workers s))
    (map (computeKey "abc123") (received s)).
Proof.
  intros s.
  destruct (sent_keys_are_tile_keys Demo.deletes_all Demo.world_tiles 2 Demo.flags tt s)
    as (Hperm & _).
  - exists (take 13 Demo.schedule). vm_compute. reflexivity.
  - apply Hperm. left. vm_compute. reflexivity.
Defined.

Lemma completed_run_sends_every_key_witness :
  let s := Demo.final Demo.deletes_all 2 tt Demo.schedule in
  Permutation (sent_keys (calls (proc s)))
    (map (computeKey "abc123")
       (flat_map (fun z => Demo.world_tiles (world_options z)) (zrange 0 2))).
Proof.
  intros s.
  destruct (completed_run_sends_every_key
              Demo.deletes_all Demo.world_tiles 2 Demo.flags tt s) as (Hperm & _).
  - cbn. lia.
  - cbn. lia.
  - exists Demo.schedule. vm_compute. reflexivity.
  - vm_compute. reflexivity.
  - exact Hperm.
Defined.

Lemma single_worker_keeps_order_witness :
  let s := Demo.final Demo.deletes_all 2 tt Demo.schedule in
  sent_keys (calls (proc s))
  = map (computeKey "abc123")
      (flat_map (fun z => Demo.world_tiles (world_options z)) (zrange 0 2)).
Proof.
  intros s.
  destruct (single_worker_keeps_order Demo.deletes_all Demo.world_tiles 2 Demo.flags tt s)
    as (_ & Hdone).
  - reflexivity.
  - exists Demo.schedule. vm_compute. reflexivity.
  - apply Hdone; [cbn; lia | vm_compute; reflexivity].
Defined.

(** ** How a run ends, and what it logs *)

Section Endings.

Local Open Scope list_scope.

Context {S3 : Type}.
Variable DeleteObjects :
  S3 -> s3.DeleteObjectsInput -> S3 * (s3.DeleteObjectsOutput + error).
Variable GenerateTiles : GenerateTilesOptions -> list Tile.
Variable capacity : Z.
Variable fl : Flags.
Variable svc0 : S3.

Local Abbreviation sys_step := (step DeleteObjects GenerateTiles capacity fl).
Local Abbreviation sys_run := (run DeleteObjects GenerateTiles capacity fl).
Local Abbreviation sys_transition := (transition DeleteObjects GenerateTiles capacity fl).
Local Abbreviation sys_reachable := (reachable DeleteObjects GenerateTiles capacity fl svc0).

Ltac reachable_induction :=
  let s := fresh "s" in
  let Hs := fresh "Hs" in
  intros s Hs; pattern s; revert s Hs;
  apply (reachable_ind DeleteObjects GenerateTiles capacity fl svc0); cbv beta.

Ltac step_fields :=
  cbn [proc with_proc with_worker with_status with_chan status
       with_producer with_received close_chan producer generated
       received tileChan closed mainpc workers answered refused
       svc deletes errors logs calls].




Lemma sample_errors_app (l l' : list LogLine) :
  sample_errors (l ++ l') = sample_errors l ++ sample_errors l'.
Proof. unfold sample_errors. apply omap_app. Qed.

Lemma omap_sample_single (c : call) :
  omap sample_of [c] = match sample_of c with Some e => [e] | None => [] end.
Proof. reflexivity. Qed.

(** *** The number of requests *)

Lemma receiving_le_length ws : (Zsum (map receiving ws) <= Z.of_nat (length ws))%Z.
Proof.
  induction ws as [|w ws IH]; [cbn; lia|].
  cbn [map length]. change (Zsum (?x :: ?l)) with (x + Zsum l)%Z.
  destruct w; cbn [receiving]; lia.
Qed.

Lemma all_returned_receiving ws : all_returned ws = true -> Zsum (map receiving ws) = 0%Z.
Proof.
  induction ws as [|w ws IH]; [reflexivity|]. cbn [all_returned forallb].
  intros [Hw Hws]%andb_prop. destruct w; [discriminate|].
  cbn [map]. change (Zsum (?x :: ?l)) with (x + Zsum l)%Z.
  fold (all_returned ws) in Hws. rewrite (IH Hws). reflexivity.
Qed.

Lemma partial_pair i r :
  partial (i, r) = if (batch_size i <? maxDeleteKeys)%Z then 1%Z else 0%Z.
Proof. reflexivity. Qed.

(** while the process has not failed, the requests with fewer than
    [maxDeleteKeys] keys are at most as many as the workers that have
    returned *)
Lemma reachable_partial s :
  sys_reachable s ->
  status s = Running \/ status s = Exited 0 ->
  (Zsum (map partial (calls (proc s))) + Zsum (map receiving (workers s))
   <= Z.of_nat (length (workers s)))%Z.
Proof.
  revert s. reachable_induction.
  - unfold boot. destruct (producer_loop _ _ _). cbn [proc calls workers map].
    intros _. pose proof (receiving_le_length
      (replicate (Z.to_nat (concurrency fl)) (Receiving None))) as H.
    change (Zsum []) with 0%Z. lia.
  - intros ev s s' Hs IH Ht Hst.
    pose proof (reachable_workers_ok DeleteObjects GenerateTiles capacity fl svc0 s Hs)
      as Hws.
    destruct Ht;
      match goal with
      | H : status _ = Running |- _ => specialize (IH (or_introl H))
      end;
      step_fields;
      cbn [status with_status with_proc with_worker with_chan with_received
           with_producer close_chan] in Hst;
      try (destruct Hst as [Hst|Hst]; discriminate Hst);
      try exact IH;
      rewrite ?length_insert, ?map_app, ?Zsum_app; cbn [map];
      rewrite ?Zsum_single;
      match goal with
      | H : workers _ !! _ = Some _ |- _ =>
          rewrite (Zsum_insert receiving _ _ _ _ H);
          pose proof (Forall_lookup_1 _ _ _ _ Hws H) as Hok
      end;
      cbn [receiving]; rewrite ?partial_pair, ?batch_size_filled.
    + unfold call in *. lia.
    + destruct (Z.ltb_spec (Z.of_nat (length (pending input)) + 1) maxDeleteKeys);
        unfold call in *; lia.
    + unfold call in *. lia.
    + cbn in Hok. destruct Hok as [_ Hn].
      destruct (Z.ltb_spec (batch_size i) maxDeleteKeys); unfold call in *; lia.
Qed.

Lemma call_sizes cs :
  Forall (fun c : call => s3.Bucket (fst c) = bucketName fl
                          /\ (1 <= batch_size (fst c) <= 500)%Z) cs ->
  (500 * (Z.of_nat (length cs) - Zsum (map partial cs)) <= Zsum (map call_size cs)
   <= 500 * Z.of_nat (length cs))%Z.
Proof.
  induction 1 as [|c cs [_ Hc] _ IH]; [cbn; lia|].
  cbn [map length]. change (Zsum (?x :: ?l)) with (x + Zsum l)%Z.
  change (partial c) with (if (call_size c <? maxDeleteKeys)%Z then 1 else 0)%Z.
  change (batch_size (fst c)) with (call_size c) in Hc.
  destruct (Z.ltb_spec (call_size c) maxDeleteKeys);
    unfold maxDeleteKeys in *; unfold call in *; lia.
Qed.

Lemma key_count_succeeded cs :
  Forall (fun c => succeeded c = true) cs ->
  Zsum (map key_count cs) = Zsum (map call_size cs).
Proof.
  induction 1 as [|[i [r|e]] cs Hc _ IH]; [reflexivity| |discriminate Hc].
  cbn [map]. change (Zsum (?x :: ?l)) with (x + Zsum l)%Z. now rewrite IH.
Qed.

Lemma count_bounds (n p l c : Z) :
  (500 * (l - p) <= n)%Z -> (n <= 500 * l)%Z -> (p <= c)%Z ->
  (ceil_div n 500 <= l <= n / 500 + c)%Z.
Proof.
  intros Hlow Hhigh Hp. unfold ceil_div. split.
  - assert (H : ((n + 500 - 1) / 500 < l + 1)%Z)
      by (apply Z.div_lt_upper_bound; lia).
    lia.
  - assert (H : (l - p <= n / 500)%Z) by (apply Z.div_le_lower_bound; lia).
    lia.
Qed.

(** X8: when [main] has returned from a run with at least one worker that
    enumerated [N] tiles, the number of requests sent is at least
    [ceil (N / 500)] and at most [N / 500] plus the number of workers: each
    worker sends at most one request with fewer than 500 keys. *)
Theorem request_count_bounds s :
  let tiles := flat_map (fun z => GenerateTiles (world_options z))
                 (zrange 0 (maxZoom fl + 1)) in
  (0 <= maxZoom fl < 2 ^ 64 - 1)%Z ->
  (1 <= concurrency fl)%Z ->
  sys_reachable s ->
  status s = Exited 0 ->
  (ceil_div (Z.of_nat (length tiles)) 500 <= Z.of_nat (length (calls (proc s)))
   <= Z.of_nat (length tiles) / 500 + concurrency fl)%Z
  /\ (Zsum (map partial (calls (proc s))) <= concurrency fl)%Z.
Proof.
  intros tiles Hmax Hconc Hs Hexit.
  destruct (completed_run DeleteObjects GenerateTiles capacity fl svc0 s Hmax Hconc Hs Hexit)
    as (Hrec & Hall & Hok).
  pose proof (reachable_account DeleteObjects GenerateTiles capacity fl svc0 s Hs
                (or_intror Hexit)) as Hacc.
  rewrite (all_returned_held _ Hall), Z.add_0_r, Hrec, (key_count_succeeded _ Hok) in Hacc.
  fold tiles in Hacc. unfold tiles_of_zooms in Hacc. fold tiles in Hacc.
  pose proof (reachable_partial s Hs (or_intror Hexit)) as Hpart.
  rewrite (all_returned_receiving _ Hall), Z.add_0_r in Hpart.
  destruct (reachable_shutdown DeleteObjects GenerateTiles capacity fl svc0 s Hs)
    as (_ & _ & _ & Hlen & _).
  rewrite Hlen, Z2Nat.id in Hpart by lia.
  pose proof (call_sizes _ (reachable_requests DeleteObjects GenerateTiles capacity
                              fl svc0 s Hs)) as [Hlow Hhigh].
  rewrite Hacc in Hlow, Hhigh.
  split; [|exact Hpart].
  exact (count_bounds _ _ _ _ Hlow Hhigh Hpart).
Qed.

(** *** The largest zoom *)

Lemma w64_range (x : Z) : (0 <= Word.w64 x < 2 ^ 64)%Z.
Proof. unfold Word.w64, Word.wrap. apply Z.mod_pos_bound. lia. Qed.

(** X9: with [-max-zoom] at the largest [uint], 2^64 - 1, the test
    [z <= *maxZoom] of the producer never fails: in no state of the run has
    the producer returned, the channel is never closed and [main] never
    returns. *)
Theorem largest_zoom_never_ends s :
  maxZoom fl = (2 ^ 64 - 1)%Z ->
  sys_reachable s ->
  (exists z pending, producer s = Producing z pending /\ (0 <= z < 2 ^ 64)%Z)
  /\ closed s = false
  /\ status s <> Exited 0.
Proof.
  intros Hmax Hs.
  assert (Hpr : exists z pending, producer s = Producing z pending /\ (0 <= z < 2 ^ 64)%Z).
  { revert s Hs. reachable_induction.
    - unfold boot, producer_loop. rewrite Hmax. cbn. eexists _, _. split; [reflexivity|lia].
    - intros ev s s' _ (z0 & p0 & Hp & Hz) Ht.
      destruct Ht; step_fields; eauto;
        try (eexists _, _; split; [reflexivity|]; congruence).
      + eexists _, _. split; [reflexivity|]. apply w64_range.
      + pose proof (w64_range (z + 1)). lia. }
  destruct (reachable_shutdown DeleteObjects GenerateTiles capacity fl svc0 s Hs)
    as (Hcl & Hpc & _ & _ & Hex).
  destruct Hpr as (z & pending & Hp & Hz).
  assert (Hopen : closed s = false).
  { destruct (closed s); [|reflexivity]. specialize (Hcl eq_refl). congruence. }
  split; [eauto|]. split; [exact Hopen|].
  intros Hexit. destruct (Hex Hexit) as [Hsink _]. specialize (Hpc Hsink). congruence.
Qed.

(** *** No worker *)


End Endings.

Lemma request_count_bounds_witness :
  let s := Demo.final Demo.deletes_all 2 tt Demo.schedule in
  (1 <= Z.of_nat (length (calls (proc s))) <= 1)%Z.
Proof.
  intros s.
  destruct (request_count_bounds Demo.deletes_all Demo.world_tiles 2 Demo.flags tt s)
    as (Hn & _).
  - cbn. lia.
  - cbn. lia.
  - exists Demo.schedule. vm_compute. reflexivity.
  - vm_compute. reflexivity.
  - exact Hn.
Defined.

Lemma largest_zoom_never_ends_witness :
  let fl := mkFlags "abc123" "tiles" 1 (2 ^ 64 - 1) in
  let sched := [EvProducer; EvWorker 0; EvProducer; EvProducer] in
  let s := match run Demo.deletes_all Demo.world_tiles 2 fl sched
                   (boot Demo.world_tiles tt fl) with
           | Some s => s
           | None => boot Demo.world_tiles tt fl
           end in
  length (received s) = 1%nat /\ closed s = false /\ status s <> Exited 0.
Proof.
  intros fl sched s.
  destruct (largest_zoom_never_ends Demo.deletes_all Demo.world_tiles 2 fl tt s)
    as (_ & Hopen & Hrunning).
  - reflexivity.
  - exists sched. vm_compute. reflexivity.
  - split; [vm_compute; reflexivity|]. split; [exact Hopen | exact Hrunning].
Defined.


(** ** The reporter *)

Section Reporter.

Local Open Scope list_scope.

Context {S3 : Type}.
Variable DeleteObjects :
  S3 -> s3.DeleteObjectsInput -> S3 * (s3.DeleteObjectsOutput + error).
Variable GenerateTiles : GenerateTilesOptions -> list Tile.
Variable capacity : Z.
Variable fl : Flags.
Variable svc0 : S3.

Local Abbreviation sys_step := (step DeleteObjects GenerateTiles capacity fl).
Local Abbreviation sys_run := (run DeleteObjects GenerateTiles capacity fl).

Lemma without_progress_snoc ls l :
  is_progress l = false -> without_progress (ls ++ [l]) = without_progress ls ++ [l].
Proof.
  intros Hl. unfold without_progress. rewrite List.filter_app. cbn. now rewrite Hl.
Qed.

Lemma oblivious_ret {A} (a : A) : oblivious (S3 := S3) (ret a).
Proof. intros p. reflexivity. Qed.

Lemma oblivious_panic {A} : oblivious (S3 := S3) (A := A) panic.
Proof. intros p. reflexivity. Qed.

Lemma oblivious_bind {A B} (m : M A) (k : A -> M B) :
  oblivious (S3 := S3) m -> (forall a, oblivious (k a)) -> oblivious (bind m k).
Proof.
  intros Hm Hk p. unfold bind. rewrite Hm. destruct (m p); cbn; [apply Hk| |]; reflexivity.
Qed.

Lemma oblivious_logPrintf l : is_progress l = false -> oblivious (S3 := S3) (logPrintf l).
Proof.
  intros Hl p. unfold logPrintf, quiet_outcome, quiet_proc. cbn.
  now rewrite without_progress_snoc.
Qed.

Lemma oblivious_logFatalf text : oblivious (S3 := S3) (logFatalf text).
Proof.
  intros p. unfold logFatalf, quiet_outcome, quiet_proc. cbn.
  now rewrite without_progress_snoc.
Qed.

Lemma oblivious_AddUint64 c delta : oblivious (S3 := S3) (AddUint64 c delta).
Proof. intros p. destruct c; reflexivity. Qed.

Lemma oblivious_svc_DeleteObjects input : oblivious (svc_DeleteObjects DeleteObjects input).
Proof.
  intros p. unfold svc_DeleteObjects. cbn. destruct (DeleteObjects (svc p) input).
  reflexivity.
Qed.

Ltac oblivious_steps :=
  repeat first
    [ apply oblivious_ret
    | apply oblivious_panic
    | apply oblivious_logFatalf
    | apply oblivious_logPrintf; reflexivity
    | apply oblivious_AddUint64
    | apply oblivious_svc_DeleteObjects
    | apply oblivious_bind; [|intros ?]
    | match goal with
      | |- oblivious (match ?x with _ => _ end) => destruct x
      end ].

Lemma oblivious_sendDeleteObjects input : oblivious (sendDeleteObjects DeleteObjects input).
Proof. unfold sendDeleteObjects. oblivious_steps. Qed.

Lemma oblivious_worker_receive input t :
  oblivious (worker_receive DeleteObjects (bucketName fl) (buildID fl) input t).
Proof.
  unfold worker_receive.
  destruct (_ =? _)%Z; [|apply oblivious_ret].
  apply oblivious_bind; [apply oblivious_sendDeleteObjects|intros ?].
  oblivious_steps.
Qed.

Lemma oblivious_worker_finish input : oblivious (worker_finish DeleteObjects input).
Proof.
  unfold worker_finish. destruct input as [i|]; [|apply oblivious_ret].
  destruct (_ <? _)%Z; [|apply oblivious_ret].
  apply oblivious_bind; [apply oblivious_sendDeleteObjects|intros ?].
  oblivious_steps.
Qed.

Lemma quiet_settle {A} j (o : Outcome A) (k : A -> Worker) (s : Sys S3) :
  settle j (quiet_outcome o) k (quiet s) = quiet (settle j o k s).
Proof. destruct o; reflexivity. Qed.

(** a goroutine other than the reporter takes the same step whether or not
    the log holds lines of the reporter *)
Lemma step_quiet ev s :
  is_tick ev = false ->
  sys_step ev (quiet s) = option_map quiet (sys_step ev s).
Proof.
  intros Hev. unfold step.
  change (status (quiet s)) with (status s).
  change (producer (quiet s)) with (producer s).
  change (workers (quiet s)) with (workers s).
  change (tileChan (quiet s)) with (tileChan s).
  change (closed (quiet s)) with (closed s).
  change (mainpc (quiet s)) with (mainpc s).
  change (proc (quiet s)) with (quiet_proc (proc s)).
  destruct (status s); [|reflexivity|reflexivity].
  destruct ev as [|j| | |]; [| | |discriminate Hev|].
  - destruct (producer s) as [z [|t pending]|]; [| |reflexivity].
    + destruct (producer_loop _ _ _). reflexivity.
    + destruct (_ <? _)%Z; reflexivity.
  - destruct (workers s !! j) as [[input|]|]; [|reflexivity|reflexivity].
    destruct (tileChan s) as [|t rest].
    + destruct (closed s); [|reflexivity]. cbn [option_map].
      rewrite oblivious_worker_finish. f_equal. apply quiet_settle.
    + cbn [option_map]. rewrite oblivious_worker_receive. f_equal.
      apply (quiet_settle j _ Receiving (with_received t (with_chan rest s))).
  - destruct (mainpc s), (producer s); reflexivity.
  - destruct (mainpc s); [reflexivity|].
    destruct (all_returned (workers s)); [|reflexivity].
    cbn [option_map]. f_equal. unfold quiet, quiet_proc, with_status, with_proc. cbn.
    now rewrite without_progress_snoc.
Qed.

(** a step of the reporter adds a line of its own to the log and changes
    nothing else *)
Lemma tick_quiet s s' : sys_step EvTick s = Some s' -> quiet s' = quiet s.
Proof.
  unfold step. destruct (status s); [|discriminate|discriminate].
  intros [= <-]. unfold quiet, quiet_proc, with_proc, without_progress. cbn.
  rewrite List.filter_app. cbn. now rewrite app_nil_r.
Qed.

Lemma run_quiet sched s s' :
  sys_run sched s = Some s' ->
  sys_run (without_ticks sched) (quiet s) = Some (quiet s').
Proof.
  revert s. induction sched as [|ev sched IH]; intros s.
  - intros [= <-]. reflexivity.
  - cbn [run]. destruct (sys_step ev s) as [s1|] eqn:Hstep; [|discriminate].
    intros Hrun. specialize (IH s1 Hrun).
    unfold without_ticks. cbn [List.filter]. fold (without_ticks sched).
    destruct (is_tick ev) eqn:Hev; cbn [negb].
    + destruct ev; try discriminate Hev. now rewrite <- (tick_quiet s s1 Hstep).
    + cbn [run]. rewrite (step_quiet ev s Hev), Hstep. exact IH.
Qed.

Lemma quiet_boot : quiet (boot GenerateTiles svc0 fl) = boot GenerateTiles svc0 fl.
Proof. unfold boot. destruct (producer_loop _ _ _). reflexivity. Qed.

(** X11: the reporter has no influence on a run: when a schedule leads to a
    state, the schedule without the steps of the reporter leads to the same
    state but for the log, which is the same log without the lines of the
    reporter; the service, the requests sent, the two counters, the tiles
    received and the state of every goroutine are the same. *)
Theorem reporter_changes_only_the_log sched s :
  sys_run sched (boot GenerateTiles svc0 fl) = Some s ->
  let s' := with_proc
              (mkProc (svc (proc s)) (deletes (proc s)) (errors (proc s))
                 (without_progress (logs (proc s))) (calls (proc s))) s in
  sys_run (without_ticks sched) (boot GenerateTiles svc0 fl) = Some s'.
Proof.
  intros Hrun. rewrite <- quiet_boot. exact (run_quiet sched _ s Hrun).
Qed.

End Reporter.

Lemma reporter_changes_only_the_log_witness :
  let s := Demo.final Demo.deletes_all 2 tt Demo.schedule in
  run Demo.deletes_all Demo.world_tiles 2 Demo.flags (without_ticks Demo.schedule)
    (boot Demo.world_tiles tt Demo.flags)
  = Some (with_proc
            (mkProc (svc (proc s)) (deletes (proc s)) (errors (proc s))
               (without_progress (logs (proc s))) (calls (proc s))) s).
Proof.
  intros s.
  apply (reporter_changes_only_the_log
           Demo.deletes_all Demo.world_tiles 2 Demo.flags tt Demo.schedule s).
  vm_compute. reflexivity.
Defined.

(** ** Every run ends *)

Section Termination.

Local Open Scope list_scope.

Context {S3 : Type}.
Variable DeleteObjects :
  S3 -> s3.DeleteObjectsInput -> S3 * (s3.DeleteObjectsOutput + error).
Variable GenerateTiles : GenerateTilesOptions -> list Tile.
Variable capacity : Z.
Variable fl : Flags.
Variable svc0 : S3.

Local Abbreviation sys_step := (step DeleteObjects GenerateTiles capacity fl).
Local Abbreviation sys_run := (run DeleteObjects GenerateTiles capacity fl).
Local Abbreviation sys_reachable := (reachable DeleteObjects GenerateTiles capacity fl svc0).
Local Abbreviation sys_steps_left := (steps_left GenerateTiles fl).

Hypothesis maxZoom_range : (0 <= maxZoom fl < 2 ^ 64 - 1)%Z.

Lemma steps_left_nonneg s : sys_reachable s -> (0 <= sys_steps_left s)%Z.
Proof.
  intros Hs.
  destruct (reachable_producer DeleteObjects GenerateTiles capacity fl svc0
              maxZoom_range s Hs) as (Hz & _).
  pose proof (receiving_nonneg (workers s)) as Hw.
  unfold steps_left.
  destruct (producer s) as [z pending|] eqn:Hpr.
  - specialize (Hz z pending eq_refl).
    destruct (mainpc s), (status s); lia.
  - destruct (mainpc s), (status s); cbn [remaining length]; lia.
Qed.

Lemma tick_steps_left s s' : sys_step EvTick s = Some s' -> sys_steps_left s' = sys_steps_left s.
Proof.
  unfold step. destruct (status s) eqn:Hst; [|discriminate|discriminate].
  intros [= <-]. unfold steps_left. cbn. now rewrite Hst.
Qed.

Lemma run_steps_left sched s s' :
  sys_reachable s ->
  sys_run sched s = Some s' ->
  (Z.of_nat (length (without_ticks sched)) + sys_steps_left s' <= sys_steps_left s)%Z.
Proof.
  revert s. induction sched as [|ev sched IH]; intros s Hs.
  - intros [= <-]. cbn. lia.
  - cbn [run]. destruct (sys_step ev s) as [s1|] eqn:Hstep; [|discriminate].
    intros Hrun.
    pose proof (reachable_step DeleteObjects GenerateTiles capacity fl svc0 ev s s1
                  Hs Hstep) as Hs1.
    specialize (IH s1 Hs1 Hrun).
    unfold without_ticks. cbn [List.filter]. fold (without_ticks sched).
    destruct (is_tick ev) eqn:Hev; cbn [negb].
    + destruct ev; try discriminate Hev. rewrite <- (tick_steps_left s s1 Hstep). exact IH.
    + destruct (reachable_producer DeleteObjects GenerateTiles capacity fl svc0
                  maxZoom_range s Hs) as (Hz & _).
      assert (Hne : ev <> EvTick) by (intros ->; discriminate Hev).
      pose proof (transition_steps_left DeleteObjects GenerateTiles capacity fl ev s s1
                    maxZoom_range Hz
                    (step_transition DeleteObjects GenerateTiles capacity fl ev s s1 Hstep)
                    Hne) as Hless.
      cbn [length]. lia.
Qed.

Lemma receiving_replicate n input :
  Zsum (map receiving (replicate n (Receiving input))) = Z.of_nat n.
Proof.
  induction n as [|n IH]; [reflexivity|].
  cbn [replicate map]. change (Zsum (?x :: ?l)) with (x + Zsum l)%Z.
  rewrite IH. cbn [receiving]. lia.
Qed.

Lemma steps_left_boot :
  sys_steps_left (boot GenerateTiles svc0 fl)
  = (2 * Z.of_nat (length (tiles_of_zooms GenerateTiles 0 (maxZoom fl + 1)))
     + maxZoom fl + Z.max 0 (concurrency fl) + 3)%Z.
Proof.
  unfold boot, producer_loop.
  destruct (Z.leb_spec 0 (maxZoom fl)) as [_|]; [|lia].
  unfold steps_left. cbn [producer tileChan mainpc workers status remaining length].
  rewrite receiving_replicate.
  rewrite (tiles_of_zooms_cons GenerateTiles 0 (maxZoom fl + 1)) by lia.
  change (0 + 1)%Z with 1%Z. unfold world_options. lia.
Qed.

(** X12: with [-max-zoom] below 2^64 - 1 every run ends, whatever the
    interleaving: with [N] tiles to enumerate, the goroutines other than
    the reporter take at most [2 N + maxZoom + concurrency + 3] steps in
    all; and with at least one worker and room in the channel the process
    is never stuck while it is running, some goroutine other than the
    reporter can take a step. *)
Theorem every_run_ends sched s :
  let N := Z.of_nat (length (tiles_of_zooms GenerateTiles 0 (maxZoom fl + 1))) in
  sys_run sched (boot GenerateTiles svc0 fl) = Some s ->
  (Z.of_nat (length (without_ticks sched))
   <= 2 * N + maxZoom fl + Z.max 0 (concurrency fl) + 3)%Z
  /\ ((1 <= concurrency fl)%Z -> (1 <= capacity)%Z -> status s = Running ->
      exists ev s', ev <> EvTick /\ sys_step ev s = Some s').
Proof.
  intros N Hrun.
  assert (Hboot : sys_reachable (boot GenerateTiles svc0 fl)) by (now exists []).
  assert (Hs : sys_reachable s) by (now exists sched).
  split.
  - pose proof (run_steps_left sched _ s Hboot Hrun) as Hleft.
    pose proof (steps_left_nonneg s Hs) as Hpos.
    rewrite steps_left_boot in Hleft. fold N in Hleft. lia.
  - intros Hconc Hcap Hst.
    exact (running_can_step DeleteObjects GenerateTiles capacity fl svc0 Hconc Hcap s Hs Hst).
Qed.

End Termination.

Lemma every_run_ends_witness :
  (Z.of_nat (length (without_ticks Demo.schedule)) <= 2 * 5 + 1 + 1 + 3)%Z.
Proof.
  destruct (every_run_ends Demo.deletes_all Demo.world_tiles 2 Demo.flags tt
              ltac:(cbn; lia) Demo.schedule
              (Demo.final Demo.deletes_all 2 tt Demo.schedule)) as (Hbound & _).
  - vm_compute. reflexivity.
  - exact Hbound.
Defined.

(** ** The run at the grain of the shared operations *)

Section GrainProps.

Local Open Scope list_scope.

Context {S3 : Type}.
Variable DeleteObjects :
  S3 -> s3.DeleteObjectsInput -> S3 * (s3.DeleteObjectsOutput + error).
Variable GenerateTiles : GenerateTilesOptions -> list Tile.
Variable capacity : Z.
Variable fl : Flags.
Variable svc0 : S3.

Local Abbreviation g_step := (op_step DeleteObjects GenerateTiles capacity fl).
Local Abbreviation g_run := (op_run DeleteObjects GenerateTiles capacity fl).
Local Abbreviation g_moves := (moves DeleteObjects GenerateTiles capacity fl).
Local Abbreviation g_start := (start GenerateTiles svc0 fl).
Local Abbreviation g_comes_to := (comes_to DeleteObjects GenerateTiles capacity fl svc0).

(** every step of [op_step] is one of the rules of [moves] *)
Lemma op_step_moves op s s' : g_step op s = Some s' -> g_moves op s s'.
Proof.
  unfold op_step. destruct (ended s) eqn:Hrun; [|discriminate|discriminate].
  destruct op as [|j| |].
  - destruct (source s) as [z [|t pending]|] eqn:Hsrc; [| |discriminate].
    + intros [= <-]. now apply M_next_zoom.
    + destruct (Z.ltb_spec (Z.of_nat (length (chan s))) capacity); [|discriminate].
      intros [= <-]. now apply M_send.
  - destruct (tasks s !! j) as [w|] eqn:Hj; [|discriminate].
    destruct w as [input|input path|err| |result|result path|result path|];
      cbn [task_step].
    + destruct (chan s) as [|t rest] eqn:Hch.
      * destruct (chan_closed s) eqn:Hcl; [|discriminate].
        intros [= <-]. destruct input as [i|].
        -- destruct (Z.ltb_spec 0 (Z.of_nat (length (s3.Objects (s3.Delete_ i))))).
           ++ now apply M_last.
           ++ apply M_leave with (input := Some i); auto.
              intros i' [= <-]. unfold batch_size. lia.
        -- apply M_leave with (input := None); auto. discriminate.
      * change (Some (with_task j
                        (if (batch_size (filled fl input t) =? maxDeleteKeys)%Z
                         then AtDeleteObjects (filled fl input t) InLoop
                         else AtRange (Some (filled fl input t)))
                        (with_taken t rest s)) = Some s' -> g_moves (OpWorker j) s s').
        destruct (Z.eqb_spec (batch_size (filled fl input t)) maxDeleteKeys)
          as [Hfull|Hfull];
          intros [= <-]; [now apply M_full with (rest := rest)
                         | now apply M_keep with (rest := rest)].
    + unfold svc_DeleteObjects.
      destruct (DeleteObjects (svc (shared s)) input) as [svc' [result|err]] eqn:Hcall;
        cbn [after]; intros [= <-].
      * now apply M_answer with (path := path).
      * now apply M_refuse with (path := path).
    + intros [= <-]. now apply M_fatalf.
    + intros [= <-]. now apply M_exit.
    + destruct (s3.Errors result) as [|e es] eqn:Herr; intros [= <-].
      * now apply M_no_sample with (result := result).
      * now apply M_sample with (es := es).
    + intros [= <-]. now apply M_add_deletes.
    + intros [= <-]. now apply M_add_errors.
    + discriminate.
  - destruct (reporter s) as [|d|d e] eqn:Hrep; intros [= <-].
    + destruct s. now apply M_load_deletes.
    + destruct s. now apply M_load_errors.
    + now apply M_printf.
  - destruct (maintask s) eqn:Hmain.
    + destruct (source s) eqn:Hsrc; [discriminate|]. intros [= <-]. now apply M_close.
    + destruct (all_gone (tasks s)) eqn:Hall; [|discriminate]. intros [= <-].
      now apply M_done.
    + intros [= <-]. now apply M_return.
Qed.

(** and every rule of [moves] is a step of [op_step] *)
Lemma moves_op_step op s s' : g_moves op s s' -> g_step op s = Some s'.
Proof.
  intros Hm.
  destruct Hm as [s z t pending Hrun Hsrc Hroom | s z Hrun Hsrc
                 | s j input t rest Hrun Hj Hch Hsize | s j input t rest Hrun Hj Hch Hsize
                 | s j i Hrun Hj Hch Hcl Hsize | s j input Hrun Hj Hch Hcl Hsize
                 | s j input path svc' result Hrun Hj Hcall
                 | s j input path svc' err Hrun Hj Hcall
                 | s j err Hrun Hj | s j Hrun Hj
                 | s j result e es Hrun Hj Herr | s j result Hrun Hj Herr
                 | s j result path Hrun Hj | s j result path Hrun Hj
                 | s Hrun Hrep | s d Hrun Hrep | s d e Hrun Hrep
                 | s Hrun Hmain Hsrc | s Hrun Hmain Hall | s Hrun Hmain];
    unfold op_step; rewrite Hrun;
    rewrite ?Hsrc, ?Hj, ?Hrep, ?Hmain; cbn [task_step]; rewrite ?Hch, ?Hcl, ?Herr, ?Hall;
    try reflexivity.
  - apply Z.ltb_lt in Hroom. now rewrite Hroom.
  - change (Some (with_task j
                    (if (batch_size (filled fl input t) =? maxDeleteKeys)%Z
                     then AtDeleteObjects (filled fl input t) InLoop
                     else AtRange (Some (filled fl input t)))
                    (with_taken t rest s))
            = Some (with_task j (AtRange (Some (filled fl input t))) (with_taken t rest s))).
    apply Z.eqb_neq in Hsize. now rewrite Hsize.
  - change (Some (with_task j
                    (if (batch_size (filled fl input t) =? maxDeleteKeys)%Z
                     then AtDeleteObjects (filled fl input t) InLoop
                     else AtRange (Some (filled fl input t)))
                    (with_taken t rest s))
            = Some (with_task j (AtDeleteObjects (filled fl input t) InLoop)
                      (with_taken t rest s))).
    apply Z.eqb_eq in Hsize. now rewrite Hsize.
  - fold (batch_size i). apply Z.ltb_lt in Hsize. now rewrite Hsize.
  - destruct input as [i|]; [|reflexivity].
    fold (batch_size i). rewrite (Hsize i eq_refl). reflexivity.
  - unfold svc_DeleteObjects. rewrite Hcall. reflexivity.
  - unfold svc_DeleteObjects. rewrite Hcall. reflexivity.
Qed.

Lemma op_run_snoc ops op s :
  g_run (ops ++ [op]) s
  = match g_run ops s with Some s' => g_step op s' | None => None end.
Proof.
  revert s. induction ops as [|o ops IH]; intros s; cbn.
  - now destruct (g_step op s).
  - destruct (g_step o s); [apply IH | reflexivity].
Qed.

(** induction on the states a run comes to *)
Lemma comes_to_ind (P : Grain S3 -> Prop) :
  P g_start ->
  (forall op s s', g_comes_to s -> P s -> g_moves op s s' -> P s') ->
  forall s, g_comes_to s -> P s.
Proof.
  intros Hstart Hstep s [ops Hrun]. revert s Hrun.
  induction ops as [|op ops IH] using rev_ind; intros s.
  - cbn. now intros [= <-].
  - rewrite op_run_snoc. destruct (g_run ops g_start) as [s1|] eqn:Hrun; [|discriminate].
    intros Hop. apply (Hstep op s1 s); [now exists ops | now apply IH | now apply op_step_moves].
Qed.

Ltac grain_fields :=
  cbn [shared ended source chan chan_closed taken tasks reporter maintask
       with_shared with_ended with_source with_taken with_task with_reporter
       with_maintask logged called added svc deletes errors logs calls].

Ltac task_of_rule IH Hok :=
  match goal with
  | H : tasks _ !! _ = Some _ |- _ => pose proof (Forall_lookup_1 _ _ _ _ IH H) as Hok
  end.

(** *** What a worker holds *)

Lemma answer_task_ok result path : task_ok (answer_task result path).
Proof.
  destruct path; cbn; [|exact I].
  destruct (Z.ltb_spec 10 (Z.of_nat (length (s3.Errors result)))); cbn; [lia|exact I].
Qed.

Lemma added_task_ok path : task_ok (added_task path).
Proof. destruct path; exact I. Qed.

(** a worker at the head of its loop holds fewer than [maxDeleteKeys] keys,
    it sends [maxDeleteKeys] keys from inside the loop and fewer, but not
    none, after it; and it is about to log a sample error only with more
    than ten errors at hand *)
Lemma comes_to_tasks_ok s : g_comes_to s -> Forall task_ok (tasks s).
Proof.
  revert s. apply comes_to_ind.
  - cbn. apply Forall_replicate. exact I.
  - intros op s s' Hs IH Hm.
    destruct Hm; grain_fields; try exact IH;
      task_of_rule IH Hok; apply Forall_insert; try exact IH;
      try exact I; try apply answer_task_ok; try apply added_task_ok;
      try assumption.
    destruct input as [i|]; cbn [task_ok] in *;
      rewrite batch_size_filled in *; cbn [pending] in *;
      unfold batch_size, maxDeleteKeys in *; cbn [length] in *; lia.
Qed.

(** *** The counters *)

Lemma Zsum_replicate_zero {A} (f : A -> Z) (n : nat) (x : A) :
  f x = 0%Z -> Zsum (map f (replicate n x)) = 0%Z.
Proof.
  intros Hx. induction n as [|n IH]; [reflexivity|].
  cbn [replicate map]. change (Zsum (?y :: ?l)) with (y + Zsum l)%Z. lia.
Qed.

Lemma owed_deletes_answer result path :
  owed_deletes (answer_task result path) = Z.of_nat (length (s3.Deleted result)).
Proof. destruct path; cbn; [|reflexivity]. now destruct (_ <? _)%Z. Qed.

Lemma owed_errors_answer result path :
  owed_errors (answer_task result path) = Z.of_nat (length (s3.Errors result)).
Proof. destruct path; cbn; [|reflexivity]. now destruct (_ <? _)%Z. Qed.

Lemma owed_deletes_added path : owed_deletes (added_task path) = 0%Z.
Proof. now destruct path. Qed.

Lemma owed_errors_added path : owed_errors (added_task path) = 0%Z.
Proof. now destruct path. Qed.

Lemma owed_nonneg (ws : list Task) :
  (0 <= Zsum (map owed_deletes ws))%Z /\ (0 <= Zsum (map owed_errors ws))%Z.
Proof.
  split; apply Zsum_nonneg, Forall_map, Forall_true; intros []; cbn; lia.
Qed.

Lemma all_gone_lookup ws j w : all_gone ws = true -> ws !! j = Some w -> w = Gone.
Proof.
  unfold all_gone. rewrite forallb_forall. intros Hall Hj.
  apply list_elem_of_lookup_2, list_elem_of_In in Hj.
  specialize (Hall w Hj). now destruct w.
Qed.

Lemma all_gone_owed ws :
  all_gone ws = true ->
  Zsum (map owed_deletes ws) = 0%Z /\ Zsum (map owed_errors ws) = 0%Z.
Proof.
  induction ws as [|w ws IH]; [now split|]. cbn [all_gone forallb].
  intros [Hw Hws]%andb_prop. destruct w; try discriminate Hw.
  cbn [map]. change (Zsum (?y :: ?l)) with (y + Zsum l)%Z.
  destruct (IH Hws) as [-> ->]. now split.
Qed.

(** each counter is, as a 64-bit unsigned number, the total of the counts
    of the calls answered so far less what the workers have yet to add *)
Lemma comes_to_counters s :
  g_comes_to s ->
  deletes (shared s)
  = Word.w64 (Zsum (map deleted_count (calls (shared s)))
              - Zsum (map owed_deletes (tasks s)))
  /\ errors (shared s)
     = Word.w64 (Zsum (map error_count (calls (shared s)))
                 - Zsum (map owed_errors (tasks s))).
Proof.
  revert s. apply comes_to_ind.
  - cbn [start shared tasks deletes errors calls map].
    now rewrite !Zsum_replicate_zero by reflexivity.
  - intros op s s' Hs [IHd IHe] Hm.
    destruct Hm; grain_fields; try (split; assumption);
      match goal with
      | H : tasks _ !! _ = Some _ |- _ =>
          rewrite (Zsum_insert owed_deletes _ _ _ _ H),
                  (Zsum_insert owed_errors _ _ _ _ H)
      end;
      rewrite ?map_app, ?Zsum_app; cbn [map];
      rewrite ?Zsum_single, ?owed_deletes_answer, ?owed_errors_answer,
              ?owed_deletes_added, ?owed_errors_added;
      cbn [owed_deletes owed_errors deleted_count error_count snd];
      rewrite ?IHd, ?IHe, ?w64_add_l;
      split; f_equal; unfold call in *; lia.
Qed.

(** *** How a run ends *)

(** once [main] is past [sinkWaitGroup.Wait()], every worker has returned *)
Lemma comes_to_gone s : g_comes_to s -> maintask s = AtReturn -> all_gone (tasks s) = true.
Proof.
  revert s.
  apply (comes_to_ind (fun s => maintask s = AtReturn -> all_gone (tasks s) = true)).
  - discriminate.
  - intros op s s' Hs IH Hm.
    destruct Hm; grain_fields; intros Hret; try (now apply IH); try discriminate Hret;
      try assumption;
      match goal with
      | H : tasks _ !! _ = Some _ |- _ =>
          pose proof (all_gone_lookup _ _ _ (IH Hret) H) as Hw; discriminate Hw
      end.
Qed.

(** the process does not panic; it has exited with code 1 only through the
    [os.Exit(1)] of a worker, and with code 0 only through the return of
    [main] *)
Lemma comes_to_ended s :
  g_comes_to s ->
  ended s <> Panicked
  /\ (ended s = Exited 1 -> exists j, tasks s !! j = Some AtExit)
  /\ (ended s = Exited 0 -> maintask s = AtReturn)
  /\ (forall code, ended s = Exited code -> code = 0%Z \/ code = 1%Z).
Proof.
  revert s. apply comes_to_ind.
  - cbn. split; [discriminate|]. split; [discriminate|]. split; [discriminate|].
    intros code. discriminate.
  - intros op s s' Hs IH Hm.
    pose proof (comes_to_tasks_ok s Hs) as Hok.
    destruct Hm; grain_fields;
      match goal with
      | H : ended _ = Running |- _ =>
          try (rewrite H; split; [discriminate|];
               split; [discriminate|]; split; [discriminate|]; intros code; discriminate)
      end.
    + split; [discriminate|]. split; [intros _; now exists j|].
      split; [discriminate|]. intros code [= <-]. now right.
    + task_of_rule Hok Hw. cbn [task_ok] in Hw.
      match goal with H : s3.Errors _ = [] |- _ => rewrite H in Hw end.
      cbn in Hw. lia.
    + split; [discriminate|]. split; [discriminate|].
      split; [intros _; assumption|]. intros code [= <-]. now left.
Qed.

Lemma failing_answer result path : failing (answer_task result path) = 0%Z.
Proof. destruct path; cbn; [|reflexivity]. now destruct (_ <? _)%Z. Qed.

Lemma failing_added path : failing (added_task path) = 0%Z.
Proof. now destruct path. Qed.

Lemma exiting_answer result path : exiting (answer_task result path) = 0%Z.
Proof. destruct path; cbn; [|reflexivity]. now destruct (_ <? _)%Z. Qed.

Lemma exiting_added path : exiting (added_task path) = 0%Z.
Proof. now destruct path. Qed.

(** the calls that were refused are as many as the workers inside
    [log.Fatalf], and the diagnostics in the log as many as the workers
    that have written theirs *)
Lemma comes_to_failures s :
  g_comes_to s ->
  Zsum (map refusal (calls (shared s))) = Zsum (map failing (tasks s))
  /\ Zsum (map fatal_line (logs (shared s))) = Zsum (map exiting (tasks s)).
Proof.
  revert s. apply comes_to_ind.
  - cbn [start shared tasks logs calls map].
    now rewrite !Zsum_replicate_zero by reflexivity.
  - intros op s s' Hs [IHr IHf] Hm.
    destruct Hm; grain_fields; try (split; assumption);
      try match goal with
      | H : tasks _ !! _ = Some _ |- context [<[_ := _]> _] =>
          rewrite (Zsum_insert failing _ _ _ _ H), (Zsum_insert exiting _ _ _ _ H)
      end;
      rewrite ?map_app, ?Zsum_app; cbn [map];
      rewrite ?Zsum_single, ?failing_answer, ?failing_added, ?exiting_answer,
              ?exiting_added;
      cbn [failing exiting refusal succeeded snd fatal_line];
      split; unfold call in *; lia.
Qed.

Lemma zero_one_nonneg {A} (f : A -> Z) (l : list A) :
  (forall x, 0 <= f x)%Z -> (0 <= Zsum (map f l))%Z.
Proof. intros Hf. apply Zsum_nonneg, Forall_map, Forall_true, Hf. Qed.

Lemma Zsum_in_pos {A} (f : A -> Z) (l : list A) x :
  (forall y, 0 <= f y)%Z -> In x l -> (f x <= Zsum (map f l))%Z.
Proof.
  intros Hf. induction l as [|y l IH]; [contradiction|].
  cbn [map]. change (Zsum (?a :: ?b)) with (a + Zsum b)%Z.
  pose proof (zero_one_nonneg f l Hf). pose proof (Hf y).
  intros [->|Hin]; [lia|]. specialize (IH Hin). lia.
Qed.

Lemma Zsum_zero_in {A} (f : A -> Z) (l : list A) x :
  (forall y, 0 <= f y)%Z -> Zsum (map f l) = 0%Z -> In x l -> f x = 0%Z.
Proof.
  intros Hf Hz Hin. pose proof (Zsum_in_pos f l x Hf Hin). pose proof (Hf x). lia.
Qed.

(** the line [Done] is written once, by [main] after all the workers have
    returned, with the two counters as they are from then on *)
Lemma comes_to_done s :
  g_comes_to s ->
  Zsum (map done_line (logs (shared s)))
  = match maintask s with AtReturn => 1%Z | _ => 0%Z end
  /\ (forall d e, In (Done d e) (logs (shared s)) ->
        maintask s = AtReturn /\ d = deletes (shared s) /\ e = errors (shared s)).
Proof.
  revert s. apply comes_to_ind.
  - cbn. split; [reflexivity|]. intros d e [H|[H|[]]]; discriminate H.
  - intros op s s' Hs [IHn IHd] Hm.
    pose proof (comes_to_gone s Hs) as Hgone.
    assert (Htask : forall j w d e, tasks s !! j = Some w -> w <> Gone ->
                      ~ In (Done d e) (logs (shared s))).
    { intros j w d e Hj Hw Hin. destruct (IHd d e Hin) as (Hret & _).
      apply Hw. exact (all_gone_lookup _ _ _ (Hgone Hret) Hj). }
    destruct Hm; grain_fields;
      rewrite ?map_app, ?Zsum_app; cbn [map done_line]; rewrite ?Zsum_single;
      try (split; [assumption|exact IHd]);
      try (split; [lia|];
           intros d0 e0 Hin; try (apply in_app_or in Hin as [Hin|[Hin|[]]];
                                  [|discriminate Hin]);
           exfalso;
           match goal with
           | H : tasks _ !! _ = Some _ |- _ => now apply (Htask _ _ d0 e0 H)
           end).
    + split; [lia|]. intros d0 e0 Hin.
      apply in_app_or in Hin as [Hin|[Hin|[]]]; [|discriminate Hin].
      now destruct (IHd d0 e0 Hin) as (-> & -> & ->).
    + match goal with H : maintask _ = _ |- _ => rewrite H in IHn end.
      split; [exact IHn|]. intros d e Hin. destruct (IHd d e Hin) as (Hret & _). congruence.
    + match goal with H : maintask _ = _ |- _ => rewrite H in IHn end.
      split; [lia|]. intros d e Hin.
      apply in_app_or in Hin as [Hin|[Hin|[]]].
      * destruct (IHd d e Hin) as (Hret & _). congruence.
      * injection Hin as <- <-. auto.
Qed.

(** *** The sample errors *)

Lemma concat_insert_perm {A B} (f : A -> list B) (ws : list A) j w w' :
  ws !! j = Some w ->
  Permutation (f w ++ concat (map f (<[j := w']> ws))) (f w' ++ concat (map f ws)).
Proof.
  revert j. induction ws as [|x ws IH]; intros [|j] Hj; try discriminate Hj.
  - cbn in Hj. injection Hj as ->. cbn. apply Permutation_app_swap_app.
  - cbn in Hj. cbn [list_insert map concat].
    change (<[S j := w']> (x :: ws)) with (x :: <[j := w']> ws).
    cbn [map concat].
    rewrite Permutation_app_swap_app, (IH j Hj). apply Permutation_app_swap_app.
Qed.

(** one step of a worker keeps the sample errors logged and about to be
    logged in line with the calls *)
Lemma samples_step (S dS cs dC : list s3.Error) (ws : list Task) j w w' :
  ws !! j = Some w ->
  Permutation (S ++ concat (map owed_sample ws)) cs ->
  Permutation (dS ++ owed_sample w') (owed_sample w ++ dC) ->
  Permutation ((S ++ dS) ++ concat (map owed_sample (<[j := w']> ws))) (cs ++ dC).
Proof.
  intros Hj IH Hstep.
  apply (Permutation_app_inv_l (owed_sample w)).
  rewrite <- IH.
  transitivity ((S ++ dS) ++ owed_sample w ++ concat (map owed_sample (<[j := w']> ws))).
  { rewrite (Permutation_app_swap_app (owed_sample w)). reflexivity. }
  rewrite (concat_insert_perm owed_sample ws j w w' Hj).
  transitivity ((dS ++ owed_sample w') ++ S ++ concat (map owed_sample ws)).
  { rewrite <- !app_assoc. rewrite (Permutation_app_swap_app S dS).
    apply Permutation_app_head. apply Permutation_app_swap_app. }
  rewrite Hstep, <- !app_assoc. apply Permutation_app_head.
  rewrite (Permutation_app_comm dC). now rewrite <- app_assoc.
Qed.

Lemma samples_move (S S' dS cs cs' dC : list s3.Error) (ws : list Task) j w w' :
  ws !! j = Some w ->
  Permutation (S ++ concat (map owed_sample ws)) cs ->
  S' = S ++ dS ->
  cs' = cs ++ dC ->
  Permutation (dS ++ owed_sample w') (owed_sample w ++ dC) ->
  Permutation (S' ++ concat (map owed_sample (<[j := w']> ws))) cs'.
Proof. intros Hj IH -> ->. now apply samples_step. Qed.

Lemma sample_of_answer input result path :
  task_ok (AtDeleteObjects input path) ->
  owed_sample (answer_task result path)
  = match sample_of (input, inl result) with Some e => [e] | None => [] end.
Proof.
  unfold sample_of, call_size. cbn [snd fst task_ok].
  destruct path; intros Hok.
  - rewrite Hok, Z.eqb_refl. cbn [andb answer_task].
    destruct (10 <? _)%Z; cbn [owed_sample]; [|reflexivity].
    now destruct (s3.Errors result).
  - destruct (Z.eqb_spec (batch_size input) maxDeleteKeys) as [Heq|_]; [lia|].
    reflexivity.
Qed.

Lemma owed_sample_added path : owed_sample (added_task path) = [].
Proof. now destruct path. Qed.

(** the sample errors in the log, with those the workers are about to log,
    are up to their order the first errors of the answered requests of
    [maxDeleteKeys] keys with more than ten errors *)
Lemma comes_to_samples s :
  g_comes_to s ->
  Permutation (sample_errors (logs (shared s)) ++ concat (map owed_sample (tasks s)))
    (omap sample_of (calls (shared s))).
Proof.
  revert s. apply comes_to_ind.
  - cbn [start shared tasks logs calls]. cbn [sample_errors omap list_omap].
    induction (Z.to_nat (concurrency fl)) as [|n IH]; [reflexivity|exact IH].
  - intros op s s' Hs IH Hm.
    pose proof (comes_to_tasks_ok s Hs) as Hok.
    destruct Hm; grain_fields; try exact IH;
      rewrite ?sample_errors_app, ?omap_app, ?omap_sample_single;
      try (change (sample_errors [_]) with (@nil s3.Error); rewrite app_nil_r; exact IH);
      task_of_rule Hok Hw;
      match goal with
      | H : tasks _ !! _ = Some _ |- _ =>
          eapply (samples_move _ _ _ _ _ _ _ _ _ _ H IH);
            [first [reflexivity | symmetry; apply app_nil_r]
            |first [reflexivity | symmetry; apply app_nil_r]
            |]
      end;
      rewrite ?owed_sample_added; try reflexivity.
    + rewrite (sample_of_answer input result path Hw). reflexivity.
    + cbn [owed_sample].
      match goal with H : s3.Errors _ = _ :: _ |- _ => rewrite H end.
      reflexivity.
Qed.

(** *** The claims at this grain *)

Lemma comes_to_added s :
  g_comes_to s ->
  (0 <= Zsum (map deleted_count (calls (shared s)))
        - Zsum (map owed_deletes (tasks s)))%Z
  /\ (0 <= Zsum (map error_count (calls (shared s)))
           - Zsum (map owed_errors (tasks s)))%Z.
Proof.
  revert s. apply comes_to_ind.
  - cbn [start shared tasks calls map].
    rewrite !Zsum_replicate_zero by reflexivity. cbn. lia.
  - intros op s s' Hs [IHd IHe] Hm.
    destruct Hm; grain_fields; try (split; assumption);
      match goal with
      | H : tasks _ !! _ = Some _ |- _ =>
          rewrite (Zsum_insert owed_deletes _ _ _ _ H),
                  (Zsum_insert owed_errors _ _ _ _ H)
      end;
      rewrite ?map_app, ?Zsum_app; cbn [map];
      rewrite ?Zsum_single, ?owed_deletes_answer, ?owed_errors_answer,
              ?owed_deletes_added, ?owed_errors_added;
      cbn [owed_deletes owed_errors deleted_count error_count snd];
      unfold call in *; lia.
Qed.

(** a step changes a counter only by an [atomic.AddUint64] of a worker,
    with the count of the answer that worker holds *)
Lemma moves_counters op s s' :
  g_moves op s s' ->
  (deletes (shared s') = deletes (shared s)
   \/ exists j result path,
        tasks s !! j = Some (AtAddDeletes result path)
        /\ deletes (shared s')
           = Word.w64 (deletes (shared s) + Z.of_nat (length (s3.Deleted result))))
  /\ (errors (shared s') = errors (shared s)
      \/ exists j result path,
           tasks s !! j = Some (AtAddErrors result path)
           /\ errors (shared s')
              = Word.w64 (errors (shared s) + Z.of_nat (length (s3.Errors result)))).
Proof.
  intros Hm. destruct Hm; grain_fields; try (split; left; reflexivity).
  - split; [right|left; reflexivity]. now exists j, result, path.
  - split; [left; reflexivity|right]. now exists j, result, path.
Qed.

(** C8: at every point of a run each counter is, as a 64-bit unsigned
    number, the total of the counts of the calls answered so far less the
    counts that workers holding an answer have yet to add, and is that
    number itself while the total fits in 64 bits.  A step changes a
    counter only by the [atomic.AddUint64] of a worker, which adds the
    count of the answer that worker holds: a counter is never reset or
    decremented.  When every worker has returned each counter is the total
    over all the calls, and the line [Done] reports these two totals. *)
Theorem counters_follow_calls s :
  g_comes_to s ->
  (0 <= Zsum (map owed_deletes (tasks s))
     <= Zsum (map deleted_count (calls (shared s))))%Z
  /\ (0 <= Zsum (map owed_errors (tasks s))
        <= Zsum (map error_count (calls (shared s))))%Z
  /\ deletes (shared s)
     = Word.w64 (Zsum (map deleted_count (calls (shared s)))
                 - Zsum (map owed_deletes (tasks s)))
  /\ errors (shared s)
     = Word.w64 (Zsum (map error_count (calls (shared s)))
                 - Zsum (map owed_errors (tasks s)))
  /\ ((Zsum (map deleted_count (calls (shared s))) < 2 ^ 64)%Z ->
      deletes (shared s)
      = (Zsum (map deleted_count (calls (shared s)))
         - Zsum (map owed_deletes (tasks s)))%Z)
  /\ ((Zsum (map error_count (calls (shared s))) < 2 ^ 64)%Z ->
      errors (shared s)
      = (Zsum (map error_count (calls (shared s)))
         - Zsum (map owed_errors (tasks s)))%Z)
  /\ (forall op s', g_step op s = Some s' ->
        (deletes (shared s') = deletes (shared s)
         \/ exists j result path,
              tasks s !! j = Some (AtAddDeletes result path)
              /\ deletes (shared s')
                 = Word.w64 (deletes (shared s)
                             + Z.of_nat (length (s3.Deleted result))))
        /\ (errors (shared s') = errors (shared s)
            \/ exists j result path,
                 tasks s !! j = Some (AtAddErrors result path)
                 /\ errors (shared s')
                    = Word.w64 (errors (shared s)
                                + Z.of_nat (length (s3.Errors result)))))
  /\ (all_gone (tasks s) = true ->
      deletes (shared s) = Word.w64 (Zsum (map deleted_count (calls (shared s))))
      /\ errors (shared s) = Word.w64 (Zsum (map error_count (calls (shared s)))))
  /\ (forall d e, In (Done d e) (logs (shared s)) ->
        d = Word.w64 (Zsum (map deleted_count (calls (shared s))))
        /\ e = Word.w64 (Zsum (map error_count (calls (shared s))))).
Proof.
  intros Hs.
  destruct (comes_to_counters s Hs) as [Hd He].
  destruct (comes_to_added s Hs) as [Had Hae].
  destruct (owed_nonneg (tasks s)) as [Hod Hoe].
  assert (Hgone : all_gone (tasks s) = true ->
            deletes (shared s) = Word.w64 (Zsum (map deleted_count (calls (shared s))))
            /\ errors (shared s) = Word.w64 (Zsum (map error_count (calls (shared s))))).
  { intros Hall. destruct (all_gone_owed _ Hall) as [Hzd Hze].
    rewrite Hd, He, Hzd, Hze, !Z.sub_0_r. now split. }
  split; [lia|]. split; [lia|]. split; [exact Hd|]. split; [exact He|].
  split; [intros Hlt; rewrite Hd; apply w64_small; lia|].
  split; [intros Hlt; rewrite He; apply w64_small; lia|].
  split; [intros op s' Hstep; apply (moves_counters op), op_step_moves, Hstep|].
  split; [exact Hgone|].
  intros d e Hin. destruct (comes_to_done s Hs) as [_ Hdone].
  destruct (Hdone d e Hin) as (Hret & -> & ->).
  apply Hgone, comes_to_gone; assumption.
Qed.

Lemma comes_to_length s : g_comes_to s -> length (tasks s) = Z.to_nat (concurrency fl).
Proof.
  revert s. apply comes_to_ind.
  - cbn. apply length_replicate.
  - intros op s s' Hs IH Hm. destruct Hm; grain_fields; rewrite ?length_insert; exact IH.
Qed.

Lemma Zsum_le_length {A} (f : A -> Z) (l : list A) :
  (forall x, f x <= 1)%Z -> (Zsum (map f l) <= Z.of_nat (length l))%Z.
Proof.
  intros Hf. induction l as [|x l IH]; [cbn; lia|].
  cbn [map length]. change (Zsum (?a :: ?b)) with (a + Zsum b)%Z.
  specialize (Hf x). lia.
Qed.

Lemma refusal_nonneg (c : call) : (0 <= refusal c)%Z.
Proof. unfold refusal. destruct (succeeded c); lia. Qed.

Lemma fatal_line_nonneg (l : LogLine) : (0 <= fatal_line l)%Z.
Proof. destruct l; cbn; lia. Qed.

Lemma exiting_le_failing (ws : list Task) :
  (Zsum (map exiting ws) <= Zsum (map failing ws))%Z.
Proof.
  induction ws as [|w ws IH]; [cbn; lia|].
  cbn [map]. change (Zsum (?a :: ?b)) with (a + Zsum b)%Z.
  destruct w; cbn [exiting failing]; lia.
Qed.

Lemma all_gone_failing ws : all_gone ws = true -> Zsum (map failing ws) = 0%Z.
Proof.
  induction ws as [|w ws IH]; [reflexivity|]. cbn [all_gone forallb].
  intros [Hw Hws]%andb_prop. destruct w; try discriminate Hw.
  cbn [map]. change (Zsum (?y :: ?l)) with (y + Zsum l)%Z.
  now rewrite (IH Hws).
Qed.

(** X6: with a number of workers that [sinkWaitGroup.Add] takes, a run does
    not panic, and its process exits with code 0 or 1 only.  At every point
    the calls that were refused are as many as the workers inside
    [log.Fatalf], and the diagnostics of [log.Fatalf] in the log as many as
    the workers that have written theirs and not yet exited: there are at
    most as many diagnostics as refused calls, and at most as many refused
    calls as workers.  A process that has exited with code 1 has written a
    diagnostic.  After [main] has returned every worker has returned, no
    call was refused, the log has no diagnostic and has the line [Done]
    once. *)
Theorem refusals_and_diagnostics s :
  (0 <= concurrency fl < 2 ^ 31)%Z ->
  g_comes_to s ->
  (ended s = Running \/ ended s = Exited 0 \/ ended s = Exited 1)
  /\ Zsum (map refusal (calls (shared s))) = Zsum (map failing (tasks s))
  /\ Zsum (map fatal_line (logs (shared s))) = Zsum (map exiting (tasks s))
  /\ (Zsum (map fatal_line (logs (shared s)))
      <= Zsum (map refusal (calls (shared s)))
      <= concurrency fl)%Z
  /\ (ended s = Exited 1 -> (1 <= Zsum (map fatal_line (logs (shared s))))%Z)
  /\ (ended s = Exited 0 ->
      all_gone (tasks s) = true
      /\ Forall (fun c => succeeded c = true) (calls (shared s))
      /\ (forall text, ~ In (Fatalf text) (logs (shared s)))
      /\ Zsum (map done_line (logs (shared s))) = 1%Z).
Proof.
  intros Hworkers Hs.
  destruct (comes_to_ended s Hs) as (Hpanic & Hone & Hzero & Hcode).
  destruct (comes_to_failures s Hs) as [Hrefused Hfatal].
  pose proof (comes_to_length s Hs) as Hlen.
  split.
  { destruct (ended s) as [|code|]; [now left| |contradiction].
    destruct (Hcode code eq_refl) as [-> | ->]; auto. }
  split; [exact Hrefused|]. split; [exact Hfatal|].
  split.
  { rewrite Hfatal, Hrefused. split; [apply exiting_le_failing|].
    pose proof (Zsum_le_length failing (tasks s)) as Hle.
    rewrite Hlen in Hle. assert (forall w, (failing w <= 1)%Z) as Hf by (intros []; cbn; lia).
    specialize (Hle Hf). lia. }
  split.
  { intros Hexit. destruct (Hone Hexit) as [j Hj]. rewrite Hfatal.
    apply list_elem_of_lookup_2, list_elem_of_In in Hj.
    assert (forall w, (0 <= exiting w)%Z) as Hpos by (intros []; cbn; lia).
    exact (Zsum_in_pos exiting (tasks s) AtExit Hpos Hj). }
  intros Hexit. pose proof (comes_to_gone s Hs (Hzero Hexit)) as Hgone.
  pose proof (all_gone_failing _ Hgone) as Hnone.
  pose proof (exiting_le_failing (tasks s)) as Hle.
  assert (forall w, (0 <= exiting w)%Z) as Hpos by (intros []; cbn; lia).
  pose proof (zero_one_nonneg exiting (tasks s) Hpos) as Hge.
  split; [exact Hgone|]. split.
  { apply Forall_forall. intros c Hc%list_elem_of_In.
    assert (Hz : refusal c = 0%Z).
    { apply (Zsum_zero_in refusal (calls (shared s)) c refusal_nonneg); [lia|exact Hc]. }
    unfold refusal in Hz. now destruct (succeeded c). }
  split.
  { intros text Hin.
    assert (Hz : fatal_line (Fatalf text) = 0%Z).
    { apply (Zsum_zero_in fatal_line (logs (shared s)) _ fatal_line_nonneg); [lia|exact Hin]. }
    discriminate Hz. }
  destruct (comes_to_done s Hs) as [Hdone _]. now rewrite (Hzero Hexit) in Hdone.
Qed.

Lemma single_task (ws : list Task) j w :
  length ws = 1%nat -> ws !! j = Some w -> j = 0%nat /\ ws = [w].
Proof.
  destruct ws as [|x [|y ws]]; try discriminate. intros _.
  destruct j as [|j]; [|discriminate]. cbn. now intros [= ->].
Qed.

(** with one worker the sample errors are logged in the order of the calls *)
Lemma comes_to_samples_single s :
  g_comes_to s ->
  length (tasks s) = 1%nat ->
  sample_errors (logs (shared s)) ++ concat (map owed_sample (tasks s))
  = omap sample_of (calls (shared s)).
Proof.
  revert s.
  apply (comes_to_ind (fun s => length (tasks s) = 1%nat ->
           sample_errors (logs (shared s)) ++ concat (map owed_sample (tasks s))
           = omap sample_of (calls (shared s)))).
  - cbn [start shared tasks logs calls]. intros Hone.
    destruct (Z.to_nat (concurrency fl)) as [|[|n]]; try discriminate Hone. reflexivity.
  - intros op s s' Hs IH Hm.
    pose proof (comes_to_tasks_ok s Hs) as Hok.
    destruct Hm; grain_fields; rewrite ?length_insert; intros Hone;
      specialize (IH Hone); try exact IH;
      rewrite ?sample_errors_app, ?omap_app, ?omap_sample_single;
      try (change (sample_errors [_]) with (@nil s3.Error); rewrite app_nil_r; exact IH);
      task_of_rule Hok Hw;
      match goal with
      | H : tasks _ !! _ = Some _ |- _ =>
          destruct (single_task _ _ _ Hone H) as [-> Hws]; rewrite Hws in IH |- *
      end;
      change (<[0%nat := ?x]> [?y]) with [x];
      cbn [map concat owed_sample] in IH |- *;
      try change (sample_of (_, inr _)) with (@None s3.Error);
      try change (sample_errors [Fatalf _]) with (@nil s3.Error);
      cbv beta iota in IH |- *;
      rewrite ?app_nil_r in IH;
      rewrite ?owed_sample_added, ?app_nil_r;
      try exact IH.
    + rewrite (sample_of_answer input result path Hw). now rewrite IH.
    + match goal with H : s3.Errors _ = _ :: _ |- _ => rewrite H in IH end.
      change (sample_errors [SampleError e]) with [e]. exact IH.
Qed.

(** X7: at every point the sample errors in the log, with those the
    workers are about to log, are up to their order the first errors of
    the answered requests that had [maxDeleteKeys] keys and more than ten
    errors; with one worker they are so in the order of the requests.  So
    every sample error in the log is the first error of such a request: a
    request with fewer keys, which a worker sends after its loop, adds no
    sample error however many errors its answer has.  After [main] has
    returned no sample error is left to log. *)
Theorem sample_errors_of_full_batches s :
  g_comes_to s ->
  Permutation (sample_errors (logs (shared s)) ++ concat (map owed_sample (tasks s)))
    (omap sample_of (calls (shared s)))
  /\ (concurrency fl = 1%Z ->
      sample_errors (logs (shared s)) ++ concat (map owed_sample (tasks s))
      = omap sample_of (calls (shared s)))
  /\ (forall e, In e (sample_errors (logs (shared s))) ->
        exists input result,
          In (input, inl result) (calls (shared s))
          /\ batch_size input = maxDeleteKeys
          /\ (10 < Z.of_nat (length (s3.Errors result)))%Z
          /\ head (s3.Errors result) = Some e)
  /\ (ended s = Exited 0 ->
      Permutation (sample_errors (logs (shared s))) (omap sample_of (calls (shared s)))).
Proof.
  intros Hs. pose proof (comes_to_samples s Hs) as Hperm.
  split; [exact Hperm|]. split.
  { intros Hone. apply (comes_to_samples_single s Hs).
    rewrite (comes_to_length s Hs), Hone. reflexivity. }
  split.
  { intros e Hin.
    assert (Hcall : In e (omap sample_of (calls (shared s)))).
    { apply (Permutation_in _ Hperm), in_or_app. now left. }
    apply list_elem_of_In, list_elem_of_omap in Hcall as ([input [result|err]] & Hc & He);
      [|discriminate He].
    apply list_elem_of_In in Hc.
    unfold sample_of, call_size in He. cbn [snd fst] in He.
    destruct (Z.eqb_spec (batch_size input) maxDeleteKeys) as [Hfull|]; [|discriminate He].
    destruct (Z.ltb_spec 10 (Z.of_nat (length (s3.Errors result)))) as [Hmany|];
      [|discriminate He].
    now exists input, result. }
  intros Hexit.
  destruct (comes_to_ended s Hs) as (_ & _ & Hzero & _).
  pose proof (comes_to_gone s Hs (Hzero Hexit)) as Hgone.
  assert (Hnone : concat (map owed_sample (tasks s)) = []).
  { clear - Hgone. induction (tasks s) as [|w ws IH]; [reflexivity|].
    cbn [all_gone forallb] in Hgone. apply andb_prop in Hgone as [Hw Hws].
    destruct w; try discriminate Hw. cbn. now apply IH. }
  now rewrite Hnone, app_nil_r in Hperm.
Qed.

(** *** A turn of [step] is a run of shared operations *)

Local Abbreviation sys_step := (step DeleteObjects GenerateTiles capacity fl).
Local Abbreviation sys_run := (run DeleteObjects GenerateTiles capacity fl).
Local Abbreviation sys_transition := (transition DeleteObjects GenerateTiles capacity fl).

Lemma op_run_app ops1 ops2 g :
  g_run (ops1 ++ ops2) g
  = match g_run ops1 g with Some g1 => g_run ops2 g1 | None => None end.
Proof.
  revert g. induction ops1 as [|op ops1 IH]; intros g; [reflexivity|].
  cbn. destruct (g_step op g); [apply IH|reflexivity].
Qed.

Lemma op_run_cons op ops g g1 g2 :
  g_moves op g g1 -> g_run ops g1 = Some g2 -> g_run (op :: ops) g = Some g2.
Proof. intros Hm Hrun. cbn. now rewrite (moves_op_step op g g1 Hm). Qed.

Lemma tasks_with_task (g : Grain S3) j w w' :
  tasks g !! j = Some w -> tasks (with_task j w' g) !! j = Some w'.
Proof. intros Hj. cbn. apply list_lookup_insert_eq. exact (lookup_lt_Some _ _ _ Hj). Qed.

Lemma map_task_insert (ws : list Worker) j w :
  map task_of (<[j := w]> ws) = <[j := task_of w]> (map task_of ws).
Proof.
  revert j. induction ws as [|x ws IH]; intros [|j]; try reflexivity.
  cbn. f_equal. apply IH.
Qed.

Lemma map_task_lookup (ws : list Worker) j w :
  ws !! j = Some w -> map task_of ws !! j = Some (task_of w).
Proof.
  revert j. induction ws as [|x ws IH]; intros [|j] Hj; try discriminate Hj.
  - cbn in *. now injection Hj as ->.
  - cbn in *. now apply IH.
Qed.

Lemma all_gone_map (ws : list Worker) : all_returned ws = true -> all_gone (map task_of ws) = true.
Proof.
  induction ws as [|w ws IH]; [reflexivity|]. cbn [all_returned forallb].
  intros [Hw Hws]%andb_prop. destruct w; [discriminate|]. cbn. now apply IH.
Qed.

(** a worker that runs alone from its call of [svc.DeleteObjects] to the
    end of its additions does what [step] does at once *)
Lemma answered_run (g : Grain S3) j input path svc' result :
  ended g = Running ->
  tasks g !! j = Some (AtDeleteObjects input path) ->
  DeleteObjects (svc (shared g)) input = (svc', inl result) ->
  exists ops,
    g_run ops g
    = Some (with_task j (added_task path)
              (with_shared
                 (answered (shared g) input svc' result
                    match path with InLoop => true | AfterLoop => false end)
                 g)).
Proof.
  intros Hrun Hj Hcall.
  pose proof (M_answer DeleteObjects GenerateTiles capacity fl g j input path svc' result
                Hrun Hj Hcall) as Hm1.
  set (g1 := with_task j (answer_task result path)
               (with_shared (called svc' input (inl result) (shared g)) g)) in *.
  assert (Hj1 : tasks g1 !! j = Some (answer_task result path)).
  { apply (tasks_with_task (with_shared _ g) j _ _ Hj). }
  assert (Hadd : forall g2 : Grain S3,
            ended g2 = Running ->
            tasks g2 !! j = Some (AtAddDeletes result path) ->
            g_run [OpWorker j; OpWorker j] g2
            = Some (with_task j (added_task path)
                      (with_shared
                         (added Errors (Z.of_nat (length (s3.Errors result)))
                            (added Deletes (Z.of_nat (length (s3.Deleted result)))
                               (shared g2)))
                         g2))).
  { intros g2 Hrun2 Hj2.
    eapply op_run_cons; [exact (M_add_deletes _ _ _ _ g2 j result path Hrun2 Hj2)|].
    eapply op_run_cons.
    - apply (M_add_errors _ _ _ _ _ j result path); [exact Hrun2|].
      apply (tasks_with_task (with_shared _ g2) j _ _ Hj2).
    - cbn [op_run]. f_equal. unfold with_task, with_shared. cbn.
      now rewrite list_insert_insert_eq. }
  destruct path.
  - unfold answer_task in Hj1, Hm1, g1.
    destruct (Z.ltb_spec 10 (Z.of_nat (length (s3.Errors result)))) as [Hmany|Hfew].
    + destruct (s3.Errors result) as [|e es] eqn:Herr; [cbn in Hmany; lia|].
      exists [OpWorker j; OpWorker j; OpWorker j; OpWorker j].
      eapply op_run_cons; [exact Hm1|].
      eapply op_run_cons;
        [exact (M_sample _ _ _ _ g1 j result e es Hrun Hj1 Herr)|].
      rewrite Hadd; [|exact Hrun|];
        [|apply (tasks_with_task (with_shared _ g1) j _ _ Hj1)].
      f_equal. unfold g1, with_task, with_shared, answered, added, logged, called.
      cbn. rewrite !list_insert_insert_eq, Herr.
      apply Z.ltb_lt in Hmany. now rewrite Hmany.
    + exists [OpWorker j; OpWorker j; OpWorker j].
      eapply op_run_cons; [exact Hm1|].
      rewrite Hadd; [|exact Hrun|exact Hj1].
      f_equal. unfold g1, with_task, with_shared, answered, added, logged, called.
      cbn. rewrite !list_insert_insert_eq.
      apply Z.ltb_ge in Hfew. rewrite Hfew, app_nil_r. reflexivity.
  - exists [OpWorker j; OpWorker j; OpWorker j].
    eapply op_run_cons; [exact Hm1|].
    rewrite Hadd; [|exact Hrun|exact Hj1].
    f_equal. unfold g1, with_task, with_shared, answered, added, logged, called.
    cbn. rewrite !list_insert_insert_eq, app_nil_r. reflexivity.
Qed.

(** and one whose call is refused, from the call to [os.Exit(1)] *)
Lemma refused_run (g : Grain S3) j input path svc' err :
  ended g = Running ->
  tasks g !! j = Some (AtDeleteObjects input path) ->
  DeleteObjects (svc (shared g)) input = (svc', inr err) ->
  g_run [OpWorker j; OpWorker j; OpWorker j] g
  = Some (with_ended (Exited 1)
            (with_task j AtExit (with_shared (refused (shared g) input svc' err) g))).
Proof.
  intros Hrun Hj Hcall.
  eapply op_run_cons;
    [exact (M_refuse _ _ _ _ g j input path svc' err Hrun Hj Hcall)|].
  eapply op_run_cons.
  { apply (M_fatalf _ _ _ _ _ j err); [exact Hrun|].
    apply (tasks_with_task (with_shared _ g) j _ _ Hj). }
  eapply op_run_cons.
  { apply (M_exit _ _ _ _ _ j); [exact Hrun|].
    eapply tasks_with_task. cbn [tasks with_shared].
    eapply tasks_with_task. exact Hj. }
  cbn [op_run]. f_equal. unfold with_ended, with_task, with_shared, refused, logged, called.
  cbn. now rewrite list_insert_insert_eq.
Qed.

Lemma shows_grain_of (s : Sys S3) : shows (grain_of s) s.
Proof. unfold shows. cbn. auto 10. Qed.

Lemma shows_ended (g : Grain S3) (s : Sys S3) code :
  status s = Exited code ->
  shared g = proc s -> ended g = status s -> source g = producer s ->
  chan g = tileChan s -> chan_closed g = closed s -> taken g = received s ->
  shows g s.
Proof. intros Hst. unfold shows. rewrite Hst. intuition discriminate. Qed.

Lemma run_to_grain ops g (s' : Sys S3) :
  g_run ops g = Some (grain_of s') -> exists ops g', g_run ops g = Some g' /\ shows g' s'.
Proof. intros Hrun. exists ops, (grain_of s'). split; [exact Hrun|apply shows_grain_of]. Qed.

(** one step of [step] is a run of [op_step] to a state that shows the
    same *)
Lemma transition_ops ev (s s' : Sys S3) :
  sys_transition ev s s' ->
  exists ops g', g_run ops (grain_of s) = Some g' /\ shows g' s'.
Proof.
  intros Ht.
  destruct Ht as [z t pending s Hrun Hsrc Hroom | z s Hrun Hsrc Hz | z s Hrun Hsrc Hz
                 | j input t rest s Hrun Hj Hch Hsize
                 | j input t rest svc' result s Hrun Hj Hch Hsize Hcall
                 | j input t rest svc' err s Hrun Hj Hch Hsize Hcall
                 | j input s Hrun Hj Hch Hcl Hnone
                 | j i svc' result s Hrun Hj Hch Hcl Hsome Hcall
                 | j i svc' err s Hrun Hj Hch Hcl Hsome Hcall
                 | s Hrun Hmain Hsrc | s Hrun | s Hrun Hmain Hall].
  - apply (run_to_grain [OpProducer]). eapply op_run_cons; [|reflexivity].
    now apply (M_send _ _ _ _ (grain_of s) z t pending).
  - apply (run_to_grain [OpProducer]). eapply op_run_cons.
    + now apply (M_next_zoom _ _ _ _ (grain_of s) z).
    + cbn [op_run]. f_equal. unfold producer_loop.
      apply Z.leb_le in Hz. rewrite Hz. reflexivity.
  - apply (run_to_grain [OpProducer]). eapply op_run_cons.
    + now apply (M_next_zoom _ _ _ _ (grain_of s) z).
    + cbn [op_run]. f_equal. unfold producer_loop.
      apply Z.leb_gt in Hz. rewrite Hz. reflexivity.
  - apply (run_to_grain [OpWorker j]). eapply op_run_cons.
    + apply (M_keep _ _ _ _ (grain_of s) j input t rest); auto.
      * exact (map_task_lookup _ _ _ Hj).
      * now rewrite batch_size_filled.
    + cbn [op_run]. f_equal. unfold grain_of, with_task, with_taken. cbn.
      now rewrite map_task_insert.
  - assert (Hm : g_moves (OpWorker j) (grain_of s)
                   (with_task j (AtDeleteObjects (filled fl input t) InLoop)
                      (with_taken t rest (grain_of s)))).
    { apply M_full; auto.
      - exact (map_task_lookup _ _ _ Hj).
      - now rewrite batch_size_filled. }
    destruct (answered_run
                (with_task j (AtDeleteObjects (filled fl input t) InLoop)
                   (with_taken t rest (grain_of s)))
                j (filled fl input t) InLoop svc' result) as [ops Hops]; auto.
    { apply (tasks_with_task (with_taken t rest (grain_of s)) j (AtRange input)).
      exact (map_task_lookup _ _ _ Hj). }
    apply (run_to_grain (OpWorker j :: ops)). eapply op_run_cons; [exact Hm|].
    rewrite Hops. f_equal. unfold grain_of, with_task, with_taken, with_shared. cbn.
    now rewrite list_insert_insert_eq, map_task_insert.
  - assert (Hm : g_moves (OpWorker j) (grain_of s)
                   (with_task j (AtDeleteObjects (filled fl input t) InLoop)
                      (with_taken t rest (grain_of s)))).
    { apply M_full; auto.
      - exact (map_task_lookup _ _ _ Hj).
      - now rewrite batch_size_filled. }
    eexists (OpWorker j :: _), _. split.
    + eapply op_run_cons; [exact Hm|].
      apply (refused_run _ j (filled fl input t) InLoop svc' err); auto.
      apply (tasks_with_task (with_taken t rest (grain_of s)) j (AtRange input)).
      exact (map_task_lookup _ _ _ Hj).
    + now apply (shows_ended _ _ 1).
  - apply (run_to_grain [OpWorker j]). eapply op_run_cons.
    + apply (M_leave _ _ _ _ (grain_of s) j input); auto.
      * exact (map_task_lookup _ _ _ Hj).
      * intros i ->. cbn in Hnone. unfold batch_size. now rewrite Hnone.
    + cbn [op_run]. f_equal. unfold grain_of, with_task. cbn.
      now rewrite map_task_insert.
  - assert (Hm : g_moves (OpWorker j) (grain_of s)
                   (with_task j (AtDeleteObjects i AfterLoop) (grain_of s))).
    { apply M_last; auto.
      - exact (map_task_lookup _ _ _ Hj).
      - unfold batch_size. destruct (s3.Objects (s3.Delete_ i)); [contradiction|cbn; lia]. }
    destruct (answered_run (with_task j (AtDeleteObjects i AfterLoop) (grain_of s))
                j i AfterLoop svc' result) as [ops Hops]; auto.
    { apply (tasks_with_task (grain_of s) j (AtRange (Some i))).
      exact (map_task_lookup _ _ _ Hj). }
    apply (run_to_grain (OpWorker j :: ops)). eapply op_run_cons; [exact Hm|].
    rewrite Hops. f_equal. unfold grain_of, with_task, with_shared. cbn.
    now rewrite list_insert_insert_eq, map_task_insert.
  - assert (Hm : g_moves (OpWorker j) (grain_of s)
                   (with_task j (AtDeleteObjects i AfterLoop) (grain_of s))).
    { apply M_last; auto.
      - exact (map_task_lookup _ _ _ Hj).
      - unfold batch_size. destruct (s3.Objects (s3.Delete_ i)); [contradiction|cbn; lia]. }
    eexists (OpWorker j :: _), _. split.
    + eapply op_run_cons; [exact Hm|].
      apply (refused_run _ j i AfterLoop svc' err); auto.
      apply (tasks_with_task (grain_of s) j (AtRange (Some i))).
      exact (map_task_lookup _ _ _ Hj).
    + now apply (shows_ended _ _ 1).
  - apply (run_to_grain [OpMain]). eapply op_run_cons; [|reflexivity].
    apply (M_close _ _ _ _ (grain_of s)); auto. cbn. now rewrite Hmain.
  - apply (run_to_grain [OpReporter; OpReporter; OpReporter]).
    eapply op_run_cons; [now apply (M_load_deletes _ _ _ _ (grain_of s))|].
    eapply op_run_cons; [now apply M_load_errors|].
    eapply op_run_cons; [now apply M_printf|]. reflexivity.
  - eexists [OpMain; OpMain], _. split.
    + eapply op_run_cons.
      { apply (M_done _ _ _ _ (grain_of s)); auto.
        - cbn. now rewrite Hmain.
        - now apply all_gone_map. }
      eapply op_run_cons; [now apply M_return|]. reflexivity.
    + now apply (shows_ended _ _ 0).
Qed.

Lemma start_shows : grain_of (boot GenerateTiles svc0 fl) = g_start.
Proof.
  unfold boot, start, grain_of. destruct (producer_loop _ _ _) as [pr os]. cbn.
  f_equal. induction (Z.to_nat (concurrency fl)) as [|n IH]; [reflexivity|].
  cbn. now rewrite IH.
Qed.

Lemma run_ops sched (s s' : Sys S3) (g : Grain S3) :
  shows g s ->
  sys_run sched s = Some s' ->
  exists ops g', g_run ops g = Some g' /\ shows g' s'.
Proof.
  revert s g. induction sched as [|ev sched IH]; intros s g Hg.
  - intros [= <-]. now exists [], g.
  - cbn [run]. destruct (sys_step ev s) as [s1|] eqn:Hstep; [|discriminate].
    intros Hrun.
    assert (Hst : status s = Running).
    { destruct (status s) eqn:Hst; [reflexivity| |];
        rewrite (stopped_is_final DeleteObjects GenerateTiles capacity fl s ev) in Hstep;
        try discriminate Hstep; rewrite Hst; discriminate. }
    destruct Hg as (_ & _ & _ & _ & _ & _ & Hg). rewrite (Hg Hst).
    apply step_transition in Hstep.
    destruct (transition_ops ev s s1 Hstep) as (ops1 & g1 & Hops1 & Hg1).
    destruct (IH s1 g1 Hg1 Hrun) as (ops2 & g2 & Hops2 & Hg2).
    exists (ops1 ++ ops2), g2. split; [|exact Hg2].
    now rewrite op_run_app, Hops1.
Qed.

(** X13: a run in which every worker takes a whole turn of its loop at a
    time is a run of the single shared operations: whatever state a
    schedule of [step] leads to, some schedule of [op_step] leads to a
    state with the same service, counters, log, calls, channel and tiles
    received, the same exit status, and while the process runs every
    goroutine at the same place. *)
Theorem every_turn_is_a_run_of_operations sched (s : Sys S3) :
  sys_run sched (boot GenerateTiles svc0 fl) = Some s ->
  exists ops g, g_run ops g_start = Some g /\ shows g s.
Proof.
  intros Hrun. apply (run_ops sched (boot GenerateTiles svc0 fl) s); [|exact Hrun].
  rewrite <- start_shows. apply shows_grain_of.
Qed.

(** *** A refused call *)

Local Abbreviation sys_reachable := (reachable DeleteObjects GenerateTiles capacity fl svc0).





End GrainProps.

(** C8: between the answer of a call and the additions of the worker a
    counter is behind the calls: after the only call of this run was
    answered with five keys deleted, the counter [deletes] is still 0. *)
Lemma counter_lags_behind_calls :
  let s := Interleaved.at_op Demo.deletes_all tt 15 in
  comes_to Demo.deletes_all Demo.world_tiles 2 Demo.flags tt s
  /\ map deleted_count (calls (shared s)) = [5%Z]
  /\ deletes (shared s) = 0%Z
  /\ deletes (shared s) <> Word.w64 (Zsum (map deleted_count (calls (shared s)))).
Proof.
  intros s. split; [exists (take 15 Interleaved.ops); vm_compute; reflexivity|].
  split; [vm_compute; reflexivity|]. split; [vm_compute; reflexivity|].
  vm_compute. discriminate.
Qed.

Lemma counters_follow_calls_witness :
  let s := Interleaved.at_op Demo.deletes_all tt 22 in
  deletes (shared s) = 5%Z /\ errors (shared s) = 0%Z
  /\ In (Done 5 0) (logs (shared s)) /\ In (Progress 0 0) (logs (shared s)).
Proof.
  intros s.
  destruct (counters_follow_calls Demo.deletes_all Demo.world_tiles 2 Demo.flags tt s)
    as (_ & _ & _ & _ & _ & _ & _ & Hgone & _).
  - exists Interleaved.ops. vm_compute. reflexivity.
  - destruct Hgone as [Hd He]; [vm_compute; reflexivity|].
    split; [rewrite Hd; vm_compute; reflexivity|].
    split; [rewrite He; vm_compute; reflexivity|].
    split; vm_compute; auto.
Defined.

Lemma refusals_and_diagnostics_witness :
  let s := Interleaved.at_op Demo.denies_after 0%nat 19 in
  ended s = Exited 1
  /\ Zsum (map refusal (calls (shared s))) = 1%Z
  /\ Zsum (map fatal_line (logs (shared s))) = 1%Z.
Proof.
  intros s.
  destruct (refusals_and_diagnostics Demo.denies_after Demo.world_tiles 2 Demo.flags
              0%nat s) as (_ & _ & _ & (Hlow & Hhigh) & Hexit & _).
  - cbn. lia.
  - exists (take 19 Interleaved.ops). vm_compute. reflexivity.
  - assert (Hst : ended s = Exited 1) by (vm_compute; reflexivity).
    specialize (Hexit Hst). cbn in Hhigh. split; [exact Hst|]. split; lia.
Defined.

Lemma sample_errors_of_full_batches_witness :
  let s := Interleaved.at_op Demo.refuses_keys tt 22 in
  sample_errors (logs (shared s)) = omap sample_of (calls (shared s)).
Proof.
  intros s.
  destruct (sample_errors_of_full_batches Demo.refuses_keys Demo.world_tiles 2 Demo.flags
              tt s) as (_ & Hone & _).
  - exists Interleaved.ops. vm_compute. reflexivity.
  - rewrite <- (Hone eq_refl). vm_compute. reflexivity.
Defined.

Lemma every_turn_is_a_run_of_operations_witness :
  exists ops g,
    op_run Demo.deletes_all Demo.world_tiles 2 Demo.flags ops
      (start Demo.world_tiles tt Demo.flags) = Some g
    /\ shows g (Demo.final Demo.deletes_all 2 tt Demo.schedule).
Proof.
  apply (every_turn_is_a_run_of_operations
           Demo.deletes_all Demo.world_tiles 2 Demo.flags tt Demo.schedule).
  vm_compute. reflexivity.
Defined.

